(** * comProxy: a shallow embedding of [comProxy.cpp]

    The program copies bytes between the standard streams and a COM port.
    Two pump threads ([stdinReader], [stdoutWriter]) exchange bytes with the
    main thread through two [RingBuffer] objects; the main thread drives the
    COM port with overlapped I/O ([comEvent], [comRx], [comTx]) from a loop
    built around [WaitForMultipleObjects].

    Conventions of the embedding.
    - A [DWORD] is a [Z] in [0, 2^32); every arithmetic result that the
      source stores in a [DWORD] goes through [dword], which writes the
      wrap-around out.  An [int] is a [Z] in [-2^31, 2^31).
    - A manual-reset event is a [bool] (signaled or not).  [SetEvent] and
      [ResetEvent] on a live handle are taken to succeed, so the branches
      that only log their [GetLastError] are not reached.
    - The bytes stored in a ring buffer are not represented: no method of
      [RingBuffer] reads or writes them, [data()] and [space()] being
      pointers into the array, represented here by their index.
    - Calls into the operating system whose outcome the program cannot
      predict (device I/O, [_read], [_write], the wait) take that outcome
      from an explicit environment. *)

From Stdlib Require Import ZArith List Bool String Lia.
Import ListNotations.
Local Open Scope Z_scope.

(** ** Machine integers *)

Definition DWORD_MOD : Z := 2 ^ 32.
Definition INT_MAX : Z := 2 ^ 31 - 1.

(** Conversion of an integer value to [DWORD] (unsigned 32 bits). *)
Definition dword (z : Z) : Z := z mod DWORD_MOD.

Definition is_dword (z : Z) : Prop := 0 <= z < DWORD_MOD.

(** ** Win32 constants used by the program (values of the platform headers) *)

Definition ERROR_SUCCESS : Z := 0.
Definition ERROR_IO_INCOMPLETE : Z := 996.
Definition ERROR_IO_PENDING : Z := 997.
Definition WAIT_OBJECT_0 : Z := 0.
Definition WAIT_TIMEOUT : Z := 258.
Definition WAIT_FAILED : Z := 4294967295.
Definition EV_RXCHAR : Z := 1.
Definition EV_RXFLAG : Z := 2.
Definition EV_TXEMPTY : Z := 4.
Definition EV_CTS : Z := 8.
Definition EV_DSR : Z := 16.
Definition EV_RLSD : Z := 32.
Definition EV_BREAK : Z := 64.
Definition EV_ERR : Z := 128.
Definition EV_RING : Z := 256.

(** ** Logging

    A log call is recorded with its level, its format string and its
    arguments; timestamps come from the system clock and are left out. *)

Definition INFO : Z := 1.
Definition DEBUG : Z := 2.
Definition TRACE : Z := 3.

Inductive Arg : Type :=
| AInt (z : Z)                    (* a %d or %x argument *)
| AStr (s : string)               (* a %s argument that is a literal *)
| ABytes (index length : Z)       (* asString(pointer, length) *)
| AMessage (err : Z).             (* errorMessage(err), text of the system *)

Record LogCall : Type := mkLog {
  level : Z;
  format : string;
  args : list Arg
}.

(** The three cases of [logError], as the log calls they make. *)
Definition logError_calls (from : string) (err : Z) : list LogCall :=
  if err =? ERROR_SUCCESS then [mkLog TRACE "%s success" [AStr from]]
  else if err =? ERROR_IO_PENDING then [mkLog DEBUG "%s pending" [AStr from]]
  else [mkLog INFO "%s error %d %s" [AStr from; AInt err; AMessage err]].

Definition logIOResult_calls (from : string) (err count : Z) : list LogCall :=
  if err =? ERROR_SUCCESS then [mkLog TRACE "%s success %d" [AStr from; AInt count]]
  else if err =? ERROR_IO_PENDING then [mkLog TRACE "%s pending %d" [AStr from; AInt count]]
  else if err =? ERROR_IO_INCOMPLETE then [mkLog INFO "%s incomplete %d" [AStr from; AInt count]]
  else logError_calls from err.

(** ** class RingBuffer *)

Module RingBuffer.

Record t : Type := mk {
  bufferSize : Z;          (* DWORD bufferSize *)
  dataIndex : Z;           (* index of the first data byte in buffer *)
  spaceIndex : Z;          (* index of the first empty byte in buffer *)
  notFull : bool;          (* event notFull, "hasSpace" *)
  notEmpty : bool          (* event notEmpty, "hasData" *)
}.

(** [RingBuffer(int capacity)], with the initial state of the two events
    as [CreateEvent] is called for them. *)
Definition new (capacity : Z) : t :=
  {| bufferSize := dword (capacity + 1);
     dataIndex := 0;
     spaceIndex := 0;
     notFull := true;
     notEmpty := false |}.

Definition findData (rb : t) : Z :=
  if spaceIndex rb >=? dataIndex rb
  then dword (spaceIndex rb - dataIndex rb)
  else dword (bufferSize rb - dataIndex rb).

Definition findSpace (rb : t) : Z :=
  if spaceIndex rb >=? dataIndex rb
  then dword (bufferSize rb - spaceIndex rb
              - (if dataIndex rb =? 0 then 1 else 0))
  else dword (dataIndex rb - spaceIndex rb - 1).

(** [data()] and [space()]: the index the returned pointer designates. *)
Definition data (rb : t) : Z := dataIndex rb.
Definition space (rb : t) : Z := spaceIndex rb.

(** [hasData()] and [hasSpace()]: the private functions under the lock. *)
Definition hasData (rb : t) : Z := findData rb.
Definition hasSpace (rb : t) : Z := findSpace rb.

Definition set_spaceIndex (i : Z) (rb : t) : t :=
  {| bufferSize := bufferSize rb; dataIndex := dataIndex rb;
     spaceIndex := i; notFull := notFull rb; notEmpty := notEmpty rb |}.

Definition set_dataIndex (i : Z) (rb : t) : t :=
  {| bufferSize := bufferSize rb; dataIndex := i;
     spaceIndex := spaceIndex rb; notFull := notFull rb;
     notEmpty := notEmpty rb |}.

Definition set_notFull (b : bool) (rb : t) : t :=
  {| bufferSize := bufferSize rb; dataIndex := dataIndex rb;
     spaceIndex := spaceIndex rb; notFull := b; notEmpty := notEmpty rb |}.

Definition set_notEmpty (b : bool) (rb : t) : t :=
  {| bufferSize := bufferSize rb; dataIndex := dataIndex rb;
     spaceIndex := spaceIndex rb; notFull := notFull rb; notEmpty := b |}.

(** [addData(count)]: the new state and the log calls made. *)
Definition addData (count : Z) (rb : t) : t * list LogCall :=
  if count >? 0 then
    let toAdd0 := findSpace rb in
    let overrun := count >? toAdd0 in
    let toAdd := if overrun then toAdd0 else count in
    let logs :=
      if overrun
      then [mkLog INFO "buffer overrun %d > %d" [AInt count; AInt toAdd0]]
      else [] in
    let rb1 := set_spaceIndex (dword (spaceIndex rb + toAdd)) rb in
    let rb2 := if spaceIndex rb1 =? bufferSize rb1
               then set_spaceIndex 0 rb1 else rb1 in
    let rb3 := set_notEmpty true rb2 in                 (* SetEvent(notEmpty) *)
    let rb4 := if findSpace rb3 <=? 0
               then set_notFull false rb3 else rb3 in   (* ResetEvent(notFull) *)
    (rb4, logs)
  else (rb, []).

(** [removeData(count)]: the new state and the log calls made. *)
Definition removeData (count : Z) (rb : t) : t * list LogCall :=
  if count >? 0 then
    let toRemove0 := findData rb in
    let underrun := count >? toRemove0 in
    let toRemove := if underrun then toRemove0 else count in
    let logs :=
      if underrun
      then [mkLog INFO "buffer underrun %d > %d" [AInt count; AInt toRemove0]]
      else [] in
    let rb1 := set_dataIndex (dword (dataIndex rb + toRemove)) rb in
    let rb2 := if dataIndex rb1 =? bufferSize rb1
               then set_dataIndex 0 rb1 else rb1 in
    let rb3 := set_notFull true rb2 in                  (* SetEvent(notFull) *)
    let rb4 := if findData rb3 <=? 0
               then set_notEmpty false rb3 else rb3 in  (* ResetEvent(notEmpty) *)
    (rb4, logs)
  else (rb, []).

(** *** Vocabulary of the specification *)

(** The capacity C: one slot of the backing array is never used. *)
Definition capacity (rb : t) : Z := bufferSize rb - 1.

(** Number of bytes held: (tail - head) mod (C + 1). *)
Definition occupancy (rb : t) : Z :=
  (spaceIndex rb - dataIndex rb) mod bufferSize rb.

Definition freeSpace (rb : t) : Z := capacity rb - occupancy rb.

Definition isEmpty (rb : t) : Prop := dataIndex rb = spaceIndex rb.

(** The index reached from [i] by [k] more slots of an array of [B]. *)
Definition advance (B i k : Z) : Z := if i + k =? B then 0 else i + k.

(** The events never promise what the indices do not hold: a signaled
    [notEmpty] means there are bytes, a signaled [notFull] means there is
    room. *)
Definition signals_sound (rb : t) : Prop :=
  (notEmpty rb = true -> 0 < occupancy rb) /\
  (notFull rb = true -> occupancy rb < capacity rb).

(** The events say exactly what the indices hold. *)
Definition signals_exact (rb : t) : Prop :=
  (notEmpty rb = true <-> 0 < occupancy rb) /\
  (notFull rb = true <-> occupancy rb < capacity rb).

(** Both indices designate a slot of the backing array. *)
Definition wf (rb : t) : Prop :=
  0 < bufferSize rb < DWORD_MOD /\
  0 <= dataIndex rb < bufferSize rb /\
  0 <= spaceIndex rb < bufferSize rb.

(** A capacity the constructor accepts without signed overflow. *)
Definition valid_capacity (C : Z) : Prop := 0 <= C < INT_MAX.

(** What the program does to a ring buffer: the two index mutations, and
    the unconditional resets that [comRx] and [comTx] perform on the
    public event handles. *)
Inductive op : Type :=
| OpAdd (count : Z)
| OpRemove (count : Z)
| OpResetNotFull
| OpResetNotEmpty.

Definition exec (o : op) (rb : t) : t :=
  match o with
  | OpAdd n => fst (addData n rb)
  | OpRemove n => fst (removeData n rb)
  | OpResetNotFull => set_notFull false rb
  | OpResetNotEmpty => set_notEmpty false rb
  end.

Definition run (ops : list op) (rb : t) : t :=
  fold_left (fun acc o => exec o acc) ops rb.

(** States reachable from a fresh buffer of capacity [C]. *)
Inductive reachable (C : Z) : t -> Prop :=
| reach_new : reachable C (new C)
| reach_step o rb : reachable C rb -> reachable C (exec o rb).

End RingBuffer.

(** ** The environment

    One answer of the operating system to a call on [comHandle]
    ([ReadFile], [WriteFile], [WaitCommEvent], [GetOverlappedResult]). *)

Record Answer : Type := mkAnswer {
  succeeded : bool;        (* the BOOL the call returns *)
  lastError : Z;           (* GetLastError() after a FALSE *)
  transferred : Z;         (* byte count stored by GetOverlappedResult *)
  events : Z               (* event mask stored by a completed WaitCommEvent *)
}.

(** The value of [Call(...) ? ERROR_SUCCESS : GetLastError()]. *)
Definition status (a : Answer) : Z :=
  if succeeded a then ERROR_SUCCESS else dword (lastError a).

(** One call of [_read] or [_write] on a standard stream. *)
Record CrtCall : Type := mkCrt {
  result : Z;              (* the int returned: -1 on error *)
  errno : Z                (* errno afterwards *)
}.

Inductive FILE : Type :=
| stderr
| fopened (name : string).

Inductive Thread : Type :=
| NotCreated
| Running
| Returned (code : Z).

(** The handles the program waits on. *)
Inductive Handle : Type :=
| comEventOverlapped_hEvent
| comRxOverlapped_hEvent
| comTxOverlapped_hEvent
| rxBuffer_notFull
| rxBuffer_notEmpty
| txBuffer_notFull
| txBuffer_notEmpty.

(** ** The global variables *)

Record Globals : Type := mkGlobals {
  comEventMask : Z;
  comEventError : Z;
  comRxError : Z;
  comTxError : Z;
  comDone : bool;
  stdinDone : bool;
  stdoutDone : bool;
  logFile : option FILE;                  (* None is NULL *)
  rxBuffer : RingBuffer.t;
  txBuffer : RingBuffer.t;
  comEventSignal : bool;                  (* comEventOverlapped.hEvent *)
  comRxSignal : bool;                     (* comRxOverlapped.hEvent *)
  comTxSignal : bool;                     (* comTxOverlapped.hEvent *)
  stdinReaderThread : Thread;
  stdoutWriterThread : Thread;
  devCalls : nat;                         (* calls made on comHandle so far *)
  logged : list LogCall                   (* what was written to logFile *)
}.

Definition logLevel : Z := TRACE.

Definition set_comEventMask (v : Z) (g : Globals) : Globals :=
  mkGlobals v (comEventError g) (comRxError g) (comTxError g) (comDone g)
    (stdinDone g) (stdoutDone g) (logFile g) (rxBuffer g) (txBuffer g)
    (comEventSignal g) (comRxSignal g) (comTxSignal g)
    (stdinReaderThread g) (stdoutWriterThread g) (devCalls g) (logged g).

Definition set_comEventError (v : Z) (g : Globals) : Globals :=
  mkGlobals (comEventMask g) v (comRxError g) (comTxError g) (comDone g)
    (stdinDone g) (stdoutDone g) (logFile g) (rxBuffer g) (txBuffer g)
    (comEventSignal g) (comRxSignal g) (comTxSignal g)
    (stdinReaderThread g) (stdoutWriterThread g) (devCalls g) (logged g).

Definition set_comRxError (v : Z) (g : Globals) : Globals :=
  mkGlobals (comEventMask g) (comEventError g) v (comTxError g) (comDone g)
    (stdinDone g) (stdoutDone g) (logFile g) (rxBuffer g) (txBuffer g)
    (comEventSignal g) (comRxSignal g) (comTxSignal g)
    (stdinReaderThread g) (stdoutWriterThread g) (devCalls g) (logged g).

Definition set_comTxError (v : Z) (g : Globals) : Globals :=
  mkGlobals (comEventMask g) (comEventError g) (comRxError g) v (comDone g)
    (stdinDone g) (stdoutDone g) (logFile g) (rxBuffer g) (txBuffer g)
    (comEventSignal g) (comRxSignal g) (comTxSignal g)
    (stdinReaderThread g) (stdoutWriterThread g) (devCalls g) (logged g).

Definition set_comDone (v : bool) (g : Globals) : Globals :=
  mkGlobals (comEventMask g) (comEventError g) (comRxError g) (comTxError g) v
    (stdinDone g) (stdoutDone g) (logFile g) (rxBuffer g) (txBuffer g)
    (comEventSignal g) (comRxSignal g) (comTxSignal g)
    (stdinReaderThread g) (stdoutWriterThread g) (devCalls g) (logged g).

Definition set_stdinDone (v : bool) (g : Globals) : Globals :=
  mkGlobals (comEventMask g) (comEventError g) (comRxError g) (comTxError g)
    (comDone g) v (stdoutDone g) (logFile g) (rxBuffer g) (txBuffer g)
    (comEventSignal g) (comRxSignal g) (comTxSignal g)
    (stdinReaderThread g) (stdoutWriterThread g) (devCalls g) (logged g).

Definition set_stdoutDone (v : bool) (g : Globals) : Globals :=
  mkGlobals (comEventMask g) (comEventError g) (comRxError g) (comTxError g)
    (comDone g) (stdinDone g) v (logFile g) (rxBuffer g) (txBuffer g)
    (comEventSignal g) (comRxSignal g) (comTxSignal g)
    (stdinReaderThread g) (stdoutWriterThread g) (devCalls g) (logged g).

Definition set_logFile (v : option FILE) (g : Globals) : Globals :=
  mkGlobals (comEventMask g) (comEventError g) (comRxError g) (comTxError g)
    (comDone g) (stdinDone g) (stdoutDone g) v (rxBuffer g) (txBuffer g)
    (comEventSignal g) (comRxSignal g) (comTxSignal g)
    (stdinReaderThread g) (stdoutWriterThread g) (devCalls g) (logged g).

Definition set_rxBuffer (v : RingBuffer.t) (g : Globals) : Globals :=
  mkGlobals (comEventMask g) (comEventError g) (comRxError g) (comTxError g)
    (comDone g) (stdinDone g) (stdoutDone g) (logFile g) v (txBuffer g)
    (comEventSignal g) (comRxSignal g) (comTxSignal g)
    (stdinReaderThread g) (stdoutWriterThread g) (devCalls g) (logged g).

Definition set_txBuffer (v : RingBuffer.t) (g : Globals) : Globals :=
  mkGlobals (comEventMask g) (comEventError g) (comRxError g) (comTxError g)
    (comDone g) (stdinDone g) (stdoutDone g) (logFile g) (rxBuffer g) v
    (comEventSignal g) (comRxSignal g) (comTxSignal g)
    (stdinReaderThread g) (stdoutWriterThread g) (devCalls g) (logged g).

Definition set_comEventSignal (v : bool) (g : Globals) : Globals :=
  mkGlobals (comEventMask g) (comEventError g) (comRxError g) (comTxError g)
    (comDone g) (stdinDone g) (stdoutDone g) (logFile g) (rxBuffer g)
    (txBuffer g) v (comRxSignal g) (comTxSignal g)
    (stdinReaderThread g) (stdoutWriterThread g) (devCalls g) (logged g).

Definition set_comRxSignal (v : bool) (g : Globals) : Globals :=
  mkGlobals (comEventMask g) (comEventError g) (comRxError g) (comTxError g)
    (comDone g) (stdinDone g) (stdoutDone g) (logFile g) (rxBuffer g)
    (txBuffer g) (comEventSignal g) v (comTxSignal g)
    (stdinReaderThread g) (stdoutWriterThread g) (devCalls g) (logged g).

Definition set_comTxSignal (v : bool) (g : Globals) : Globals :=
  mkGlobals (comEventMask g) (comEventError g) (comRxError g) (comTxError g)
    (comDone g) (stdinDone g) (stdoutDone g) (logFile g) (rxBuffer g)
    (txBuffer g) (comEventSignal g) (comRxSignal g) v
    (stdinReaderThread g) (stdoutWriterThread g) (devCalls g) (logged g).

Definition set_stdinReaderThread (v : Thread) (g : Globals) : Globals :=
  mkGlobals (comEventMask g) (comEventError g) (comRxError g) (comTxError g)
    (comDone g) (stdinDone g) (stdoutDone g) (logFile g) (rxBuffer g)
    (txBuffer g) (comEventSignal g) (comRxSignal g) (comTxSignal g)
    v (stdoutWriterThread g) (devCalls g) (logged g).

Definition set_stdoutWriterThread (v : Thread) (g : Globals) : Globals :=
  mkGlobals (comEventMask g) (comEventError g) (comRxError g) (comTxError g)
    (comDone g) (stdinDone g) (stdoutDone g) (logFile g) (rxBuffer g)
    (txBuffer g) (comEventSignal g) (comRxSignal g) (comTxSignal g)
    (stdinReaderThread g) v (devCalls g) (logged g).

Definition set_devCalls (v : nat) (g : Globals) : Globals :=
  mkGlobals (comEventMask g) (comEventError g) (comRxError g) (comTxError g)
    (comDone g) (stdinDone g) (stdoutDone g) (logFile g) (rxBuffer g)
    (txBuffer g) (comEventSignal g) (comRxSignal g) (comTxSignal g)
    (stdinReaderThread g) (stdoutWriterThread g) v (logged g).

Definition set_logged (v : list LogCall) (g : Globals) : Globals :=
  mkGlobals (comEventMask g) (comEventError g) (comRxError g) (comTxError g)
    (comDone g) (stdinDone g) (stdoutDone g) (logFile g) (rxBuffer g)
    (txBuffer g) (comEventSignal g) (comRxSignal g) (comTxSignal g)
    (stdinReaderThread g) (stdoutWriterThread g) (devCalls g) v.

(** The static initialisers of the file. *)
Definition initial : Globals :=
  {| comEventMask := 0;
     comEventError := ERROR_SUCCESS;
     comRxError := ERROR_SUCCESS;
     comTxError := ERROR_SUCCESS;
     comDone := false;
     stdinDone := false;
     stdoutDone := false;
     logFile := None;
     rxBuffer := RingBuffer.new 128;
     txBuffer := RingBuffer.new 128;
     comEventSignal := false;
     comRxSignal := false;
     comTxSignal := false;
     stdinReaderThread := NotCreated;
     stdoutWriterThread := NotCreated;
     devCalls := O;
     logged := [] |}.

(** ** The log functions *)

(** The guard shared by [logInfo], [logDebug] and [logTrace]:
    [logLevel >= LEVEL && logFile != NULL]. *)
Definition write_log (c : LogCall) (g : Globals) : Globals :=
  match logFile g with
  | Some _ =>
      if logLevel >=? level c then set_logged (logged g ++ [c]) g else g
  | None => g
  end.

Definition write_logs (cs : list LogCall) (g : Globals) : Globals :=
  fold_left (fun acc c => write_log c acc) cs g.

Definition logInfo (fmt : string) (a : list Arg) : Globals -> Globals :=
  write_log (mkLog INFO fmt a).
Definition logDebug (fmt : string) (a : list Arg) : Globals -> Globals :=
  write_log (mkLog DEBUG fmt a).
Definition logTrace (fmt : string) (a : list Arg) : Globals -> Globals :=
  write_log (mkLog TRACE fmt a).
Definition logError (from : string) (err : Z) : Globals -> Globals :=
  write_logs (logError_calls from err).
Definition logIOResult (from : string) (err count : Z) : Globals -> Globals :=
  write_logs (logIOResult_calls from err count).

(** [asString(from, length)], as the argument it contributes. *)
Definition asString (from length : Z) : Arg :=
  if (length <=? 0) || (logLevel <? DEBUG) then AStr EmptyString
  else ABytes from (if length >=? 256 then 255 else length).

(** ** Ring buffer calls made on the two global buffers *)

Definition rx_addData (count : Z) (g : Globals) : Globals :=
  let '(rb, logs) := RingBuffer.addData count (rxBuffer g) in
  write_logs logs (set_rxBuffer rb g).

Definition rx_removeData (count : Z) (g : Globals) : Globals :=
  let '(rb, logs) := RingBuffer.removeData count (rxBuffer g) in
  write_logs logs (set_rxBuffer rb g).

Definition tx_addData (count : Z) (g : Globals) : Globals :=
  let '(rb, logs) := RingBuffer.addData count (txBuffer g) in
  write_logs logs (set_txBuffer rb g).

Definition tx_removeData (count : Z) (g : Globals) : Globals :=
  let '(rb, logs) := RingBuffer.removeData count (txBuffer g) in
  write_logs logs (set_txBuffer rb g).

(** ** The pump threads

    One turn of the [while (TRUE)] loop of each thread, given what the
    blocking call on the standard stream returns.  A turn that finds the
    buffer unusable waits on the buffer's event and leaves the state as it
    is.  [perror] writes to the standard error stream, not to the log. *)

Definition stdinReader_turn (io : CrtCall) (g : Globals) : Globals :=
  match stdinReaderThread g with
  | Running =>
      let toRead := RingBuffer.hasSpace (txBuffer g) in
      if toRead <=? 0 then g
      else
        let wasRead := dword (result io) in       (* DWORD wasRead = _read(..) *)
        if wasRead <? 0 then
          set_stdinReaderThread (Returned (dword (errno io)))
            (set_stdinDone true g)
        else
          let g1 := logDebug "stdin read %d %s"
                      [AInt wasRead;
                       asString (RingBuffer.space (txBuffer g)) wasRead] g in
          let g2 := tx_addData wasRead g1 in
          if wasRead =? 0 then
            set_stdinReaderThread (Returned 0) (set_stdinDone true g2)
          else g2
  | _ => g
  end.

Definition stdoutWriter_turn (io : CrtCall) (g : Globals) : Globals :=
  match stdoutWriterThread g with
  | Running =>
      let toWrite := RingBuffer.hasData (rxBuffer g) in
      if toWrite <=? 0 then g
      else
        let wasWritten := dword (result io) in    (* DWORD wasWritten = _write(..) *)
        if wasWritten <? 0 then
          set_stdoutWriterThread (Returned (dword (errno io)))
            (set_stdoutDone true g)
        else
          let g1 := logDebug "stdout wrote %d %s"
                      [AInt wasWritten;
                       asString (RingBuffer.data (rxBuffer g)) wasWritten] g in
          rx_removeData wasWritten g1
  | _ => g
  end.

(** The loop of a pump thread over the successive answers of its stream. *)
Definition stdinReader (ios : list CrtCall) (g : Globals) : Globals :=
  fold_left (fun acc io => stdinReader_turn io acc) ios g.

Definition stdoutWriter (ios : list CrtCall) (g : Globals) : Globals :=
  fold_left (fun acc io => stdoutWriter_turn io acc) ios g.

(** ** The COM port driver *)

Definition in_flight (err : Z) : bool :=
  (err =? ERROR_IO_INCOMPLETE) || (err =? ERROR_IO_PENDING).

(** How a turn of a driver loop ends: at a [return] statement, or at the
    end of the loop body, from where the loop condition is tested again. *)
Inductive Flow : Type :=
| Return (g : Globals)
| Next (g : Globals).

Section Driver.

(** The answers of the device, in the order of the calls made on it. *)
Variable dev : nat -> Answer.

Definition device_call (g : Globals) : Answer * Globals :=
  (dev (devCalls g), set_devCalls (S (devCalls g)) g).

(** The first [switch] of the body of [comRx]: issues a [ReadFile] unless
    one is in flight; [None] is the [return] on a full buffer. *)
Definition comRx_issue (g : Globals) : option (Globals * bool) :=
  if in_flight (comRxError g) then Some (g, false)
  else
    let toRead := RingBuffer.hasSpace (rxBuffer g) in
    if toRead <=? 0 then None
    else
      let '(a, g1) := device_call g in                       (* ReadFile *)
      let g2 := set_comRxError (status a) g1 in
      Some (logIOResult "comRx ReadFile" (comRxError g2) toRead g2, true).

(** The second [switch] of the body of [comRx]. *)
Definition comRx_complete (buffer : Z) (justRead : bool) (g : Globals) : Flow :=
  if in_flight (comRxError g) && justRead then Return g
  else if in_flight (comRxError g) || (comRxError g =? ERROR_SUCCESS) then
    let '(a, g1) := device_call g in              (* GetOverlappedResult *)
    let wasRead := if succeeded a then dword (transferred a) else 0 in
    let g2 := set_comRxError (status a) g1 in
    if in_flight (comRxError g2) then Return g2
    else if comRxError g2 =? ERROR_SUCCESS then
      let g3 := logDebug "comRx read %d %s"
                  [AInt wasRead; asString buffer wasRead] g2 in
      let g4 := set_comRxSignal false g3 in
      if wasRead <=? 0 then Return g4
      else Next (rx_addData wasRead g4)
    else
      Next (set_comDone true
              (logError "comRx GetOverlappedResult" (comRxError g2) g2))
  else
    Next (set_comDone true (logError "comRx ReadFile" (comRxError g) g)).

(** The body of the [while (!comDone)] loop of [comRx]. *)
Definition comRx_body (g : Globals) : Flow :=
  let buffer := RingBuffer.space (rxBuffer g) in
  match comRx_issue g with
  | None => Return g
  | Some (g1, justRead) => comRx_complete buffer justRead g1
  end.

(** The loop of [comRx]; [None] when [fuel] turns were not enough.  The
    turns follow one another with no step of another thread between them:
    what [stdoutWriter] takes out of [rxBuffer] while [comRx] runs is not
    represented here, so the number of turns of this loop says nothing
    about the number of turns in the program. *)
Fixpoint comRx_loop (fuel : nat) (g : Globals) : option Globals :=
  match fuel with
  | O => None
  | S fuel' =>
      if comDone g then Some g
      else match comRx_body g with
           | Return g' => Some g'
           | Next g' => comRx_loop fuel' g'
           end
  end.

(** [comRx()]: the reset of [rxBuffer.notFull], then the loop. *)
Definition comRx (fuel : nat) (g : Globals) : option Globals :=
  comRx_loop fuel
    (set_rxBuffer (RingBuffer.set_notFull false (rxBuffer g)) g).

Definition comTx_issue (g : Globals) : option (Globals * bool) :=
  if in_flight (comTxError g) then Some (g, false)
  else
    let toWrite := RingBuffer.hasData (txBuffer g) in
    if toWrite <=? 0 then None
    else
      let '(a, g1) := device_call g in                      (* WriteFile *)
      let g2 := set_comTxError (status a) g1 in
      Some (logIOResult "comTx WriteFile" (comTxError g2) toWrite g2, true).

Definition comTx_complete (buffer : Z) (justWrote : bool) (g : Globals) : Flow :=
  if in_flight (comTxError g) && justWrote then Return g
  else if in_flight (comTxError g) || (comTxError g =? ERROR_SUCCESS) then
    let '(a, g1) := device_call g in              (* GetOverlappedResult *)
    let wasWritten := if succeeded a then dword (transferred a) else 0 in
    let g2 := set_comTxError (status a) g1 in
    let g2 := logIOResult "comTx GetOverlappedResult"
                (comTxError g2) wasWritten g2 in
    if in_flight (comTxError g2) then Return g2
    else if comTxError g2 =? ERROR_SUCCESS then
      let g3 := logDebug "comTx wrote %d %s"
                  [AInt wasWritten; asString buffer wasWritten] g2 in
      let g4 := set_comTxSignal false g3 in
      if wasWritten <=? 0 then Return g4
      else Next (tx_removeData wasWritten g4)
    else
      Next (set_comDone true
              (logError "comTx GetOverlappedResult" (comTxError g2) g2))
  else
    Next (set_comDone true (logError "comTx WriteFile" (comTxError g) g)).

Definition comTx_body (g : Globals) : Flow :=
  let buffer := RingBuffer.data (txBuffer g) in
  match comTx_issue g with
  | None => Return g
  | Some (g1, justWrote) => comTx_complete buffer justWrote g1
  end.

(** The loop of [comTx], with the same proviso: what [stdinReader] puts
    into [txBuffer] while [comTx] runs is not represented. *)
Fixpoint comTx_loop (fuel : nat) (g : Globals) : option Globals :=
  match fuel with
  | O => None
  | S fuel' =>
      if comDone g then Some g
      else match comTx_body g with
           | Return g' => Some g'
           | Next g' => comTx_loop fuel' g'
           end
  end.

(** [comTx()]: the reset of [txBuffer.notEmpty], then the loop. *)
Definition comTx (fuel : nat) (g : Globals) : option Globals :=
  comTx_loop fuel
    (set_txBuffer (RingBuffer.set_notEmpty false (txBuffer g)) g).

Definition flag (mask bit : Z) (name : string) : Arg :=
  AStr (if Z.land mask bit =? 0 then EmptyString else name).

Definition comEvent_trace (g : Globals) : Globals :=
  if logLevel >=? TRACE then
    let m := comEventMask g in
    logTrace "comEvent%s%s%s%s%s%s%s%s%s"
      [flag m EV_RXCHAR " RXCHAR"; flag m EV_TXEMPTY " TXEMPTY";
       flag m EV_CTS " CTS"; flag m EV_DSR " DSR"; flag m EV_RLSD " RLSD";
       flag m EV_BREAK " BREAK"; flag m EV_RXFLAG " RXFLAG";
       flag m EV_ERR " ERR"; flag m EV_RING " RING"] g
  else g.

(** The mask a completed [WaitCommEvent] has stored in [comEventMask]. *)
Definition store_mask (a : Answer) (g : Globals) : Globals :=
  if succeeded a then set_comEventMask (dword (events a)) g else g.

(** The first [switch] of the body of [comEvent]: issues a
    [WaitCommEvent] unless one is in flight. *)
Definition comEvent_issue (g : Globals) : Globals :=
  if in_flight (comEventError g) then g
  else
    let '(a, g1) := device_call g in                    (* WaitCommEvent *)
    let g2 := set_comEventError (status a) (store_mask a g1) in
    logError "comEvent WaitCommEvent" (comEventError g2) g2.

(** The second [switch]: polls an operation in flight; [Return] is the
    [return] of its default case. *)
Definition comEvent_poll (g : Globals) : Flow :=
  if in_flight (comEventError g) then
    let '(a, g1) := device_call g in              (* GetOverlappedResult *)
    Next (set_comEventError (status a) (store_mask a g1))
  else if comEventError g =? ERROR_SUCCESS then Next g
  else
    Return (set_comDone true
              (logError "comEvent WaitCommEvent" (comEventError g) g)).

(** The ERROR_SUCCESS case of the third [switch]: the calls of [comRx] and
    [comTx] that the event mask asks for. *)
Definition comEvent_serve (fuel : nat) (g : Globals) : option Globals :=
  let g := set_comEventSignal false g in
  let g := comEvent_trace g in
  let r := if Z.land (comEventMask g) EV_RXCHAR =? 0 then Some g
           else comRx fuel g in
  match r with
  | None => None
  | Some g =>
      if Z.land (comEventMask g) EV_TXEMPTY =? 0 then Some g
      else comTx fuel g
  end.

(** The body of the [while (!comDone)] loop of [comEvent]. *)
Definition comEvent_body (fuel : nat) (g : Globals) : option Flow :=
  match comEvent_poll (comEvent_issue g) with
  | Return g => Some (Return g)
  | Next g =>
      if in_flight (comEventError g) then Some (Return g)
      else if comEventError g =? ERROR_SUCCESS then
        match comEvent_serve fuel g with
        | None => None
        | Some g => Some (Next g)
        end
      else
        Some (Return
                (set_comDone true
                   (logError "comEvent GetOverlappedResult"
                      (comEventError g) g)))
  end.

(** [comEvent()]. *)
Fixpoint comEvent (fuel : nat) (g : Globals) : option Globals :=
  match fuel with
  | O => None
  | S fuel' =>
      if comDone g then Some g
      else match comEvent_body fuel' g with
           | None => None
           | Some (Return g') => Some g'
           | Some (Next g') => comEvent fuel' g'
           end
  end.

End Driver.

(** ** What happens around the main thread *)

(** Steps taken by the other threads and by the operating system while the
    main thread is between two statements of its loop. *)
Inductive Action : Type :=
| StdinTurn (io : CrtCall)          (* one turn of stdinReader *)
| StdoutTurn (io : CrtCall)         (* one turn of stdoutWriter *)
| Completion (h : Handle).          (* the system signals an OVERLAPPED event *)

Definition act (a : Action) (g : Globals) : Globals :=
  match a with
  | StdinTurn io => stdinReader_turn io g
  | StdoutTurn io => stdoutWriter_turn io g
  | Completion comEventOverlapped_hEvent => set_comEventSignal true g
  | Completion comRxOverlapped_hEvent => set_comRxSignal true g
  | Completion comTxOverlapped_hEvent => set_comTxSignal true g
  | Completion _ => g
  end.

Definition run_actions (l : list Action) (g : Globals) : Globals :=
  fold_left (fun acc a => act a acc) l g.

Definition signaled (g : Globals) (h : Handle) : bool :=
  match h with
  | comEventOverlapped_hEvent => comEventSignal g
  | comRxOverlapped_hEvent => comRxSignal g
  | comTxOverlapped_hEvent => comTxSignal g
  | rxBuffer_notFull => RingBuffer.notFull (rxBuffer g)
  | rxBuffer_notEmpty => RingBuffer.notEmpty (rxBuffer g)
  | txBuffer_notFull => RingBuffer.notFull (txBuffer g)
  | txBuffer_notEmpty => RingBuffer.notEmpty (txBuffer g)
  end.

Fixpoint first_signaled (g : Globals) (hs : list Handle) (i : Z) : option Z :=
  match hs with
  | [] => None
  | h :: rest => if signaled g h then Some i else first_signaled g rest (i + 1)
  end.

(** [WaitForMultipleObjects]: with [bWaitAll] FALSE, the smallest index of
    a signaled handle, or WAIT_TIMEOUT once [dwMilliseconds] have passed
    with none signaled.  Time is not represented: whatever becomes signaled
    during the wait is applied to the state before.  [override] is a return
    value that the state does not explain (WAIT_FAILED, an abandoned
    mutex code, ...). *)
Definition WaitForMultipleObjects (nCount : nat) (lpHandles : list Handle)
    (bWaitAll : bool) (dwMilliseconds : Z) (g : Globals) (override : option Z)
    : Z :=
  match override with
  | Some d => dword d
  | None =>
      let hs := firstn nCount lpHandles in
      if bWaitAll then
        if forallb (signaled g) hs then WAIT_OBJECT_0 else WAIT_TIMEOUT
      else
        match first_signaled g hs 0 with
        | Some i => WAIT_OBJECT_0 + i
        | None => WAIT_TIMEOUT
        end
  end.

Record Tick : Type := mkTick {
  before_check : list Action;   (* before the test at the top of the loop *)
  during_wait : list Action;    (* while WaitForMultipleObjects waits *)
  wait_override : option Z;
  wait_lastError : Z            (* GetLastError() after the wait *)
}.

(** ** main *)

Definition waitables : list Handle :=
  [ comEventOverlapped_hEvent;
    comRxOverlapped_hEvent;
    comTxOverlapped_hEvent;
    rxBuffer_notFull;
    txBuffer_notEmpty ].

Definition wait_count : nat := 5.
Definition wait_timeout : Z := 2000.

(** The test at the top of the loop of [main]. *)
Definition exit_test (g : Globals) : bool :=
  (stdoutDone g || (RingBuffer.hasData (rxBuffer g) =? 0))
  && (comDone g || (stdinDone g && (RingBuffer.hasData (txBuffer g) =? 0))).

Inductive Control : Type :=
| Continue
| BreakGracefully                  (* the break under "exit gracefully" *)
| BreakWith (exitCode : Z).        (* the break at the end of the body *)

Section Main.

Variable dev : nat -> Answer.

(** The WAIT_TIMEOUT case of the switch. *)
Definition on_timeout (fuel : nat) (g : Globals) : option Globals :=
  let g := logTrace "WAIT_TIMEOUT" [] g in
  let r :=
    if negb (RingBuffer.hasSpace (rxBuffer g) =? 0)
       && (comRxError g =? ERROR_SUCCESS)
    then comRx dev fuel (logTrace "comRx retry" [] g)
    else Some g in
  match r with
  | None => None
  | Some g =>
      if negb (RingBuffer.hasData (txBuffer g) =? 0)
         && (comTxError g =? ERROR_SUCCESS)
      then comTx dev fuel (logTrace "comTx retry" [] g)
      else Some g
  end.

Definition continue_with (r : option Globals) : option (Globals * Control) :=
  match r with
  | None => None
  | Some g => Some (g, Continue)
  end.

(** The [switch (waited)] of the loop body. *)
Definition dispatch (fuel : nat) (waited lastErr : Z) (g : Globals)
    : option (Globals * Control) :=
  if waited =? WAIT_OBJECT_0 + 0 then continue_with (comEvent dev fuel g)
  else if waited =? WAIT_OBJECT_0 + 3 then
    if negb (comRxError g =? ERROR_SUCCESS) then Some (g, Continue)
    else continue_with (comRx dev fuel g)
  else if waited =? WAIT_OBJECT_0 + 1 then continue_with (comRx dev fuel g)
  else if waited =? WAIT_OBJECT_0 + 4 then
    if negb (comTxError g =? ERROR_SUCCESS) then Some (g, Continue)
    else continue_with (comTx dev fuel g)
  else if waited =? WAIT_OBJECT_0 + 2 then continue_with (comTx dev fuel g)
  else if waited =? WAIT_TIMEOUT then continue_with (on_timeout fuel g)
  else if waited =? WAIT_FAILED then
    Some (logError "WAIT_FAILED" (dword lastErr) g, BreakWith 4)
  else
    Some (logInfo "WaitForMultipleObjects %x" [AInt waited] g, BreakWith 5).

(** One turn of the [while (TRUE)] loop of [main]. *)
Definition main_turn (fuel : nat) (t : Tick) (g : Globals)
    : option (Globals * Control) :=
  let g := run_actions (before_check t) g in
  if exit_test g then Some (g, BreakGracefully)
  else
    let g := run_actions (during_wait t) g in
    let waited :=
      WaitForMultipleObjects wait_count waitables false wait_timeout g
        (wait_override t) in
    dispatch fuel waited (wait_lastError t) g.

(** The loop of [main]: the value of [exitCode] when it is left. *)
Fixpoint main_loop (fuel : nat) (ticks : list Tick) (g : Globals)
    : option (Z * Globals) :=
  match ticks with
  | [] => None
  | t :: rest =>
      match main_turn fuel t g with
      | None => None
      | Some (g, Continue) => main_loop fuel rest g
      | Some (g, BreakGracefully) => Some (0, g)
      | Some (g, BreakWith code) => Some (code, g)
      end
  end.

End Main.

(** What [main] is run with. *)
Record Env : Type := mkEnv {
  argc : Z;
  argv : list string;
  fopen_ok : bool;                (* fopen(argv[2], "w") != NULL *)
  CreateFile_ok : bool;           (* comHandle != INVALID_HANDLE_VALUE *)
  CreateFile_error : Z;
  GetCommState_ok : bool;
  SetCommState_ok : bool;
  SetCommTimeouts_ok : bool;
  SetCommMask_ok : bool;
  comm_error : Z;                 (* GetLastError() in setComm *)
  device : nat -> Answer;
  ticks : list Tick;
  fuel : nat
}.

(** [setComm(comHandle)]: the int returned, and the globals (the log). *)
Definition setComm (e : Env) (g : Globals) : Z * Globals :=
  if negb (GetCommState_ok e) then
    (2, logError "GetCommState" (dword (comm_error e)) g)
  else if negb (SetCommState_ok e) then
    (3, logError "SetCommState" (dword (comm_error e)) g)
  else if negb (SetCommTimeouts_ok e) then
    (4, logError "SetCommTimeouts" (dword (comm_error e)) g)
  else if negb (SetCommMask_ok e) then
    (5, logError "SetCommMask" (dword (comm_error e)) g)
  else (0, g).

(** The statements of [main] between the call of [setComm] and the loop:
    the three events and the two threads. *)
Definition start_session (g : Globals) : Globals :=
  set_stdoutWriterThread Running
    (set_stdinReaderThread Running
       (set_comTxSignal false
          (set_comRxSignal false
             (set_comEventSignal true g)))).

(** The statements of [main] after the loop. *)
Definition finish (exitCode : Z) (g : Globals) : Z * Globals :=
  let exitCode := if (exitCode =? 0) && comDone g then 6 else exitCode in
  (exitCode,
   logInfo "Exit code %d %s%stxData %d rxData %d"
     [AInt exitCode;
      AStr (if comDone g then "comDone " else EmptyString);
      AStr (if stdinDone g then "stdinDone " else EmptyString);
      AInt (RingBuffer.hasData (txBuffer g));
      AInt (RingBuffer.hasData (rxBuffer g))] g).

(** [main(argc, argv)]: the exit status and the final globals, [None] when
    the run is not over after the given ticks. *)
Definition main (e : Env) : option (Z * Globals) :=
  let g := initial in
  if argc e <? 2 then
    Some (1, logInfo "usage: %s <COM port name> <log file name>\n"
               [AStr (nth 0 (argv e) EmptyString)] g)
  else
    let opened :=
      if argc e >? 2 then
        if fopen_ok e then Some (fopened (nth 2 (argv e) EmptyString)) else None
      else Some stderr in
    match opened with
    | None => Some (2, g)
    | Some f =>
        let g := set_logFile (Some f) g in
        let comPortName := nth 1 (argv e) EmptyString in
        let g := logDebug "CreateFile(%s)" [AStr comPortName] g in
        if negb (CreateFile_ok e) then
          let err := dword (CreateFile_error e) in
          Some (3, logInfo "CreateFile(%s) error %d %s"
                     [AStr comPortName; AInt err; AMessage err] g)
        else
          let g := snd (setComm e g) in      (* setComm(comHandle); *)
          let g := start_session g in
          match main_loop (device e) (fuel e) (ticks e) g with
          | None => None
          | Some (exitCode, g) => Some (finish exitCode g)
          end
    end.

(** ** The text helpers of the log

    A [char] array is the list of its [char] values, as the program
    compares them; the text behind a [char*] is what comes before the first
    NUL. *)

Fixpoint c_string (mem : list Z) : list Z :=
  match mem with
  | [] => []
  | c :: rest => if c =? 0 then [] else c :: c_string rest
  end.

Definition strlen (mem : list Z) : Z := Z.of_nat (List.length (c_string mem)).

(** [mem[i] = v]. *)
Fixpoint store (mem : list Z) (i : nat) (v : Z) : list Z :=
  match mem, i with
  | [], _ => []
  | _ :: rest, O => v :: rest
  | c :: rest, S j => c :: store rest j v
  end.

(** The value a byte has as a [char] where [char] is signed, as it is for
    the compilers of this platform: the bytes of 0x80 and more are
    negative. *)
Definition as_char (b : Z) : Z := if b <? 128 then b else b - 256.

(** The loop of [errorMessage] that trims the trailing control characters:
    [while (last > 0 && message[last] < ' ') message[last--] = 0].  The
    cells of [message] are [char] values, and the comparison is made on
    them: a negative cell is below the space. *)
Fixpoint trim_loop (fuel : nat) (message : list Z) (last : Z) : list Z :=
  match fuel with
  | O => message
  | S fuel' =>
      if (last >? 0) && (nth (Z.to_nat last) message 0 <? 32)
      then trim_loop fuel' (store message (Z.to_nat last) 0) (last - 1)
      else message
  end.

(** [errorMessage(errorCode)], given the array [FormatMessage] allocated,
    [None] when it left [message] NULL. *)
Definition errorMessage (formatted : option (list Z)) : option (list Z) :=
  match formatted with
  | None => None
  | Some message =>
      Some (trim_loop (List.length message) message (strlen message - 1))
  end.

(** [memmove(dest, src, n)] on two arrays that do not overlap. *)
Definition memmove (dest src : list Z) (n : nat) : list Z :=
  firstn n src ++ skipn n dest.

(** The loop of [asString]:
    [for (c = 0; c < end; ++c) if (buffer[c] < ' ') buffer[c] = '.']. *)
Fixpoint dots_loop (fuel : nat) (buffer : list Z) (c end_ : nat) : list Z :=
  match fuel with
  | O => buffer
  | S fuel' =>
      if (c <? end_)%nat
      then dots_loop fuel'
             (if nth c buffer 0 <? 32 then store buffer c 46 else buffer)
             (S c) end_
      else buffer
  end.

(** [asString(from, length)] as the text it returns, given the previous
    content of [asStringBuffer].  The cells are [char] values as the
    comparison with the space reads them: where [char] is signed, a byte
    of 128 or more is a negative cell. *)
Definition asString_text (asStringBuffer from : list Z) (length : Z) : list Z :=
  if (length <=? 0) || (logLevel <? DEBUG) then []
  else
    let end_ := Z.to_nat (if length >=? 256 then 256 - 1 else length) in
    let buffer := memmove asStringBuffer from end_ in
    let buffer := dots_loop end_ buffer O end_ in
    c_string (store buffer end_ 0).

(** ** Vocabulary of the statements below *)

(** The termination predicate in the words of the specification:
    (outputDone or the receive queue is empty) and (deviceDone or
    (inputDone and the transmit queue is empty)). *)
Definition termination_predicate (g : Globals) : Prop :=
  (stdoutDone g = true \/ RingBuffer.isEmpty (rxBuffer g)) /\
  (comDone g = true \/
   (stdinDone g = true /\ RingBuffer.isEmpty (txBuffer g))).

(** Both global buffers are well-formed. *)
Definition buffers_wf (g : Globals) : Prop :=
  RingBuffer.wf (rxBuffer g) /\ RingBuffer.wf (txBuffer g).

(** Number of lines of the log written with a given format. *)
Definition count_format (fmt : string) (l : list LogCall) : nat :=
  List.length (filter (fun c => String.eqb (format c) fmt) l).


(** The lines that [write_logs] adds to the log for the calls [cs]. *)
Definition written (cs : list LogCall) (g : Globals) : list LogCall :=
  match logFile g with
  | Some _ => filter (fun c => logLevel >=? level c) cs
  | None => []
  end.

(** From [g] to [g'] the log has only grown, and by no retry line. *)
Definition quiet_log (g g' : Globals) : Prop :=
  exists l, logged g' = logged g ++ l /\
            count_format "comRx retry" l = O /\
            count_format "comTx retry" l = O.



Definition flow_globals (x : Flow) : Globals :=
  match x with
  | Return g => g
  | Next g => g
  end.

Definition tx_pending (g : Globals) : bool := in_flight (comTxError g).

(** The same globals with [l] written to the log before everything else. *)
Definition prepend_log (l : list LogCall) (g : Globals) : Globals :=
  set_logged (l ++ logged g) g.

Definition flow_map (f : Globals -> Globals) (x : Flow) : Flow :=
  match x with
  | Return g => Return (f g)
  | Next g => Next (f g)
  end.

(** A change of the globals, carried under what a function returns
    beside them. *)
Definition on_first {B : Type} (f : Globals -> Globals) (x : Globals * B)
    : Globals * B :=
  (f (fst x), snd x).

Definition on_second {A : Type} (f : Globals -> Globals) (x : A * Globals)
    : A * Globals :=
  (fst x, f (snd x)).

(** The same environment, with a device that accepts its configuration. *)
Definition comm_ok (e : Env) : Env :=
  {| argc := argc e; argv := argv e; fopen_ok := fopen_ok e;
     CreateFile_ok := CreateFile_ok e; CreateFile_error := CreateFile_error e;
     GetCommState_ok := true; SetCommState_ok := true;
     SetCommTimeouts_ok := true; SetCommMask_ok := true;
     comm_error := comm_error e;
     device := device e; ticks := ticks e; fuel := fuel e |}.

(** A run in which the device refuses [GetCommState] and then fails its
    first [WaitCommEvent]. *)
Definition refused_config_env : Env :=
  {| argc := 2; argv := ["comProxy"; "COM3"]%string; fopen_ok := true;
     CreateFile_ok := true; CreateFile_error := 0;
     GetCommState_ok := false; SetCommState_ok := true;
     SetCommTimeouts_ok := true; SetCommMask_ok := true;
     comm_error := 5;
     device := fun _ => mkAnswer false 5 0 0;
     ticks := [mkTick [] [] None 0; mkTick [] [] None 0];
     fuel := 4%nat |}.


(** A turn of main during which nothing else happens. *)
Definition quiet_tick : Tick := mkTick [] [] None 0.

(** A device whose reads complete at once with no byte. *)
Definition idle_device (n : nat) : Answer := mkAnswer true 0 0 0.





(** [rb'] is [rb] after some calls of [addData] and [removeData] and some
    resets of its events. *)
Definition reaches (rb rb' : RingBuffer.t) : Prop :=
  exists ops, rb' = RingBuffer.run ops rb.

(** A status that is neither success nor an operation in flight. *)
Definition hard_error (err : Z) : bool :=
  negb (in_flight err) && negb (err =? ERROR_SUCCESS).

(** No device operation has failed without [comDone] being set. *)
Definition status_inv (g : Globals) : Prop :=
  comDone g = true \/
  (hard_error (comRxError g) = false /\
   hard_error (comTxError g) = false /\
   hard_error (comEventError g) = false).

(** No device call made so far has ended in a failure that [comDone] does
    not record: a failure being a call that returned FALSE with a last
    error other than 0, ERROR_IO_INCOMPLETE and ERROR_IO_PENDING. *)
Definition calls_inv (dev : nat -> Answer) (g : Globals) : Prop :=
  comDone g = true \/
  forall k, (k < devCalls g)%nat -> hard_error (status (dev k)) = false.

(** What holds between the globals before and after any part of the
    session: [stdoutDone], the log file and the writer thread are as they
    were, [comDone] and [stdinDone] are not cleared, the buffers have only
    been worked on through their operations, and the count of device calls
    has not gone down. *)
Definition progress (g g' : Globals) : Prop :=
  stdoutDone g' = stdoutDone g /\
  logFile g' = logFile g /\
  stdoutWriterThread g' = stdoutWriterThread g /\
  (comDone g = true -> comDone g' = true) /\
  (stdinDone g = true -> stdinDone g' = true) /\
  reaches (rxBuffer g) (rxBuffer g') /\
  reaches (txBuffer g) (txBuffer g') /\
  (devCalls g <= devCalls g')%nat.

(** A run whose standard input is at its end before the loop of main
    makes its first test. *)
Definition empty_input_env : Env :=
  {| argc := 2; argv := ["comProxy"; "COM3"]%string; fopen_ok := true;
     CreateFile_ok := true; CreateFile_error := 0;
     GetCommState_ok := true; SetCommState_ok := true;
     SetCommTimeouts_ok := true; SetCommMask_ok := true;
     comm_error := 0;
     device := fun _ => mkAnswer true 0 0 0;
     ticks := [mkTick [StdinTurn (mkCrt 0 0)] [] None 0];
     fuel := 4%nat |}.

(** What the loop of [asString] makes of one character. *)
Definition dotted (c : Z) : Z := if c <? 32 then 46 else c.

(** The slots of a region of [len] slots that starts at slot [start] of an
    array of [B] slots and goes around its end. *)
Definition in_region (B start len i : Z) : bool :=
  (0 <=? i) && (i <? B) && ((i - start) mod B <? len).

(** The number of slots in a row, from slot [i] on, that satisfy [p]; at
    most [fuel] slots are looked at. *)
Fixpoint run_length (p : Z -> bool) (i : Z) (fuel : nat) : Z :=
  match fuel with
  | O => 0
  | S fuel' => if p i then 1 + run_length p (i + 1) fuel' else 0
  end.

(** The contiguous run of data: the slots in a row from the read index on
    that hold data, the data being the [occupancy] slots that start at the
    read index.  A slot past the end of the array is in no region, so the
    run ends there. *)
Definition contiguous_data (rb : RingBuffer.t) : Z :=
  run_length
    (in_region (RingBuffer.bufferSize rb) (RingBuffer.dataIndex rb)
       (RingBuffer.occupancy rb))
    (RingBuffer.dataIndex rb) (Z.to_nat (RingBuffer.bufferSize rb)).

(** The contiguous run of space: the slots in a row from the write index
    on that are free, the free slots being the [freeSpace] slots that start
    at the write index. *)
Definition contiguous_space (rb : RingBuffer.t) : Z :=
  run_length
    (in_region (RingBuffer.bufferSize rb) (RingBuffer.spaceIndex rb)
       (RingBuffer.freeSpace rb))
    (RingBuffer.spaceIndex rb) (Z.to_nat (RingBuffer.bufferSize rb)).

(** An event of a buffer says exactly what the indices hold. *)
Definition notEmpty_exact (rb : RingBuffer.t) : Prop :=
  RingBuffer.notEmpty rb = true <-> 0 < RingBuffer.occupancy rb.

Definition notFull_exact (rb : RingBuffer.t) : Prop :=
  RingBuffer.notFull rb = true
  <-> RingBuffer.occupancy rb < RingBuffer.capacity rb.

(** The operations the program performs on [rxBuffer]: [addData] (by
    [comRx]), [removeData] (by [stdoutWriter]) and the reset of [notFull]
    at the top of [comRx]; its [notEmpty] is never reset from outside. *)
Definition rx_op (o : RingBuffer.op) : bool :=
  match o with
  | RingBuffer.OpResetNotEmpty => false
  | _ => true
  end.

(** The operations the program performs on [txBuffer]: [addData] (by
    [stdinReader]), [removeData] (by [comTx]) and the reset of [notEmpty]
    at the top of [comTx]; its [notFull] is never reset from outside. *)
Definition tx_op (o : RingBuffer.op) : bool :=
  match o with
  | RingBuffer.OpResetNotFull => false
  | _ => true
  end.

(** A state of a buffer of capacity [C] that the operations allowed by
    [allowed] lead to. *)
Definition reached_by (allowed : RingBuffer.op -> bool) (C : Z)
    (rb : RingBuffer.t) : Prop :=
  exists ops, forallb allowed ops = true /\
              rb = RingBuffer.run ops (RingBuffer.new C).

(** The two global buffers are in states that the operations of the program
    lead to from the buffers of capacity 128 it starts with. *)
Definition session_buffers (g : Globals) : Prop :=
  reached_by rx_op 128 (rxBuffer g) /\ reached_by tx_op 128 (txBuffer g).

(** What the four events of the two global buffers say about them. *)
Definition session_signals (g : Globals) : Prop :=
  notEmpty_exact (rxBuffer g) /\
  (RingBuffer.notFull (rxBuffer g) = true ->
   RingBuffer.occupancy (rxBuffer g) < 128) /\
  notFull_exact (txBuffer g) /\
  (RingBuffer.notEmpty (txBuffer g) = true ->
   0 < RingBuffer.occupancy (txBuffer g)) /\
  RingBuffer.capacity (rxBuffer g) = 128 /\
  RingBuffer.capacity (txBuffer g) = 128.


(** The globals when the session starts with the log on [stderr]. *)
Definition session_start : Globals :=
  start_session (set_logFile (Some stderr) initial).

(** * Properties *)

(** ** DWORD arithmetic *)

Lemma dword_range z : is_dword (dword z).
Proof. unfold is_dword, dword, DWORD_MOD. apply Z.mod_pos_bound. lia. Qed.

Lemma dword_small z : 0 <= z < DWORD_MOD -> dword z = z.
Proof. intros H. unfold dword. apply Z.mod_small. exact H. Qed.

Lemma dword_never_negative z : (dword z <? 0) = false.
Proof. apply Z.ltb_ge. apply dword_range. Qed.

Lemma dword_minus_one : dword (-1) = 4294967295.
Proof. reflexivity. Qed.

Lemma mod_wrap_back s d B :
  0 <= s -> s < d -> d < B -> (s - d) mod B = s - d + B.
Proof.
  intros Hs Hd HB. symmetry.
  apply Z.mod_unique with (q := -1); lia.
Qed.

(** ** The ring buffer *)

Module RingBufferFacts.
Import RingBuffer.

Lemma new_wf C : valid_capacity C -> wf (new C).
Proof.
  unfold valid_capacity, INT_MAX, wf, new. simpl. intros H.
  rewrite dword_small by (unfold DWORD_MOD; lia).
  unfold DWORD_MOD. lia.
Qed.

Lemma new_capacity C : valid_capacity C -> capacity (new C) = C.
Proof.
  unfold valid_capacity, INT_MAX, capacity, new. simpl. intros H.
  rewrite dword_small by (unfold DWORD_MOD; lia). lia.
Qed.

(** On a well-formed buffer no subtraction of the two private functions
    wraps around. *)
Lemma findData_wf rb :
  wf rb ->
  findData rb = if spaceIndex rb >=? dataIndex rb
                then spaceIndex rb - dataIndex rb
                else bufferSize rb - dataIndex rb.
Proof.
  unfold wf, findData. intros (HB & Hd & Hs).
  destruct (Z.geb_spec (spaceIndex rb) (dataIndex rb));
    apply dword_small; lia.
Qed.

Lemma findSpace_wf rb :
  wf rb ->
  findSpace rb = if spaceIndex rb >=? dataIndex rb
                 then bufferSize rb - spaceIndex rb
                      - (if dataIndex rb =? 0 then 1 else 0)
                 else dataIndex rb - spaceIndex rb - 1.
Proof.
  unfold wf, findSpace. intros (HB & Hd & Hs).
  destruct (Z.geb_spec (spaceIndex rb) (dataIndex rb));
    [destruct (Z.eqb_spec (dataIndex rb) 0)|]; apply dword_small; lia.
Qed.

Lemma occupancy_wf rb :
  wf rb ->
  occupancy rb = if spaceIndex rb >=? dataIndex rb
                 then spaceIndex rb - dataIndex rb
                 else spaceIndex rb - dataIndex rb + bufferSize rb.
Proof.
  unfold wf, occupancy. intros (HB & Hd & Hs).
  destruct (Z.geb_spec (spaceIndex rb) (dataIndex rb)).
  - apply Z.mod_small. lia.
  - apply mod_wrap_back; lia.
Qed.

Lemma occupancy_range rb : wf rb -> 0 <= occupancy rb <= capacity rb.
Proof.
  intros H. rewrite (occupancy_wf rb H). unfold capacity.
  destruct H as (HB & Hd & Hs).
  destruct (Z.geb_spec (spaceIndex rb) (dataIndex rb)); lia.
Qed.

(** Brings the three measures of a well-formed buffer down to plain index
    arithmetic and splits on the relative position of the indices. *)
Ltac measures rb H :=
  generalize (findData_wf rb H) (findSpace_wf rb H) (occupancy_wf rb H);
  unfold freeSpace, capacity in *;
  let HB := fresh "HB" in let Hd := fresh "Hd" in let Hs := fresh "Hs" in
  destruct H as (HB & Hd & Hs);
  destruct (Z.geb_spec (spaceIndex rb) (dataIndex rb));
  try destruct (Z.eqb_spec (dataIndex rb) 0);
  intros.

Lemma findData_zero_iff rb : wf rb -> (findData rb = 0 <-> occupancy rb = 0).
Proof. intros H. measures rb H; lia. Qed.

Lemma findData_zero_iff_empty rb : wf rb -> (findData rb = 0 <-> isEmpty rb).
Proof. intros H. unfold isEmpty. measures rb H; lia. Qed.

Lemma findSpace_zero_iff rb :
  wf rb -> (findSpace rb = 0 <-> occupancy rb = capacity rb).
Proof. intros H. measures rb H; lia. Qed.

Lemma findData_le_occupancy rb : wf rb -> 0 <= findData rb <= occupancy rb.
Proof. intros H. measures rb H; lia. Qed.

Lemma findSpace_le_free rb : wf rb -> 0 <= findSpace rb <= freeSpace rb.
Proof. intros H. measures rb H; lia. Qed.

Lemma findData_short_iff rb :
  wf rb ->
  (findData rb < occupancy rb <-> 0 < spaceIndex rb < dataIndex rb).
Proof. intros H. measures rb H; lia. Qed.

Lemma findSpace_short_iff rb :
  wf rb ->
  (findSpace rb < freeSpace rb <-> 2 <= dataIndex rb <= spaceIndex rb).
Proof. intros H. measures rb H; lia. Qed.

End RingBufferFacts.

Module RingBufferSteps.
Import RingBuffer RingBufferFacts.

(** [addData] on a well-formed buffer, without the DWORD conversions. *)
Lemma addData_wf_eq rb n :
  wf rb -> 0 < n ->
  let k := Z.min n (findSpace rb) in
  let s' := advance (bufferSize rb) (spaceIndex rb) k in
  let rb' := set_notEmpty true (set_spaceIndex s' rb) in
  addData n rb =
    (if findSpace rb' <=? 0 then set_notFull false rb' else rb',
     if n >? findSpace rb
     then [mkLog INFO "buffer overrun %d > %d" [AInt n; AInt (findSpace rb)]]
     else []).
Proof.
  intros H Hn. pose proof (findSpace_le_free rb H) as Hfree.
  pose proof (occupancy_range rb H) as Hocc.
  unfold freeSpace, capacity in *.
  assert (Hk : (if n >? findSpace rb then findSpace rb else n)
               = Z.min n (findSpace rb)).
  { destruct (Z.gtb_spec n (findSpace rb)); lia. }
  unfold addData. rewrite Hk.
  replace (n >? 0) with true by (symmetry; apply Z.gtb_lt; lia).
  cbv zeta.
  assert (Hsum : dword (spaceIndex rb + Z.min n (findSpace rb))
                 = spaceIndex rb + Z.min n (findSpace rb)).
  { apply dword_small. revert Hfree. measures rb H; lia. }
  rewrite Hsum. unfold advance. simpl.
  destruct (Z.eqb_spec (spaceIndex rb + Z.min n (findSpace rb)) (bufferSize rb));
    reflexivity.
Qed.

Lemma removeData_wf_eq rb n :
  wf rb -> 0 < n ->
  let k := Z.min n (findData rb) in
  let d' := advance (bufferSize rb) (dataIndex rb) k in
  let rb' := set_notFull true (set_dataIndex d' rb) in
  removeData n rb =
    (if findData rb' <=? 0 then set_notEmpty false rb' else rb',
     if n >? findData rb
     then [mkLog INFO "buffer underrun %d > %d" [AInt n; AInt (findData rb)]]
     else []).
Proof.
  intros H Hn. pose proof (findData_le_occupancy rb H) as Hle.
  pose proof (occupancy_range rb H) as Hocc.
  unfold capacity in *.
  assert (Hk : (if n >? findData rb then findData rb else n)
               = Z.min n (findData rb)).
  { destruct (Z.gtb_spec n (findData rb)); lia. }
  unfold removeData. rewrite Hk.
  replace (n >? 0) with true by (symmetry; apply Z.gtb_lt; lia).
  cbv zeta.
  assert (Hsum : dword (dataIndex rb + Z.min n (findData rb))
                 = dataIndex rb + Z.min n (findData rb)).
  { apply dword_small. revert Hle. measures rb H; lia. }
  rewrite Hsum. unfold advance. simpl.
  destruct (Z.eqb_spec (dataIndex rb + Z.min n (findData rb)) (bufferSize rb));
    reflexivity.
Qed.

(** The state of the indices after [addData]. *)
Lemma addData_indices rb n :
  wf rb -> 0 < n ->
  let rb' := fst (addData n rb) in
  bufferSize rb' = bufferSize rb /\
  dataIndex rb' = dataIndex rb /\
  spaceIndex rb' =
    advance (bufferSize rb) (spaceIndex rb) (Z.min n (findSpace rb)).
Proof.
  intros H Hn. cbv zeta. rewrite (addData_wf_eq rb n H Hn). cbv zeta. simpl.
  match goal with |- context [if ?c then _ else _] => destruct c end;
    simpl; auto.
Qed.

Lemma removeData_indices rb n :
  wf rb -> 0 < n ->
  let rb' := fst (removeData n rb) in
  bufferSize rb' = bufferSize rb /\
  spaceIndex rb' = spaceIndex rb /\
  dataIndex rb' =
    advance (bufferSize rb) (dataIndex rb) (Z.min n (findData rb)).
Proof.
  intros H Hn. cbv zeta. rewrite (removeData_wf_eq rb n H Hn). cbv zeta. simpl.
  match goal with |- context [if ?c then _ else _] => destruct c end;
    simpl; auto.
Qed.

Lemma addData_idle rb n : n <= 0 -> addData n rb = (rb, []).
Proof.
  intros Hn. unfold addData.
  replace (n >? 0) with false; [reflexivity|].
  symmetry. rewrite Z.gtb_ltb. apply Z.ltb_ge. exact Hn.
Qed.

Lemma removeData_idle rb n : n <= 0 -> removeData n rb = (rb, []).
Proof.
  intros Hn. unfold removeData.
  replace (n >? 0) with false; [reflexivity|].
  symmetry. rewrite Z.gtb_ltb. apply Z.ltb_ge. exact Hn.
Qed.

Lemma wf_of_indices rb rb' :
  bufferSize rb' = bufferSize rb ->
  0 < bufferSize rb < DWORD_MOD ->
  0 <= dataIndex rb' < bufferSize rb ->
  0 <= spaceIndex rb' < bufferSize rb ->
  wf rb'.
Proof. intros E HB Hd Hs. unfold wf. rewrite E. auto. Qed.

Lemma addData_wf rb n : wf rb -> wf (fst (addData n rb)).
Proof.
  intros H. destruct (Z.lt_ge_cases 0 n) as [Hn|Hn].
  - destruct (addData_indices rb n H Hn) as (EB & Ed & Es).
    pose proof (findSpace_le_free rb H) as Hfree.
    apply (wf_of_indices rb); auto; try apply H.
    + rewrite Ed. apply H.
    + rewrite Es. unfold advance. revert Hfree.
      destruct (Z.eqb_spec (spaceIndex rb + Z.min n (findSpace rb))
                  (bufferSize rb)) as [E|E]; revert E;
        measures rb H; lia.
  - rewrite addData_idle by exact Hn. exact H.
Qed.

Lemma removeData_wf rb n : wf rb -> wf (fst (removeData n rb)).
Proof.
  intros H. destruct (Z.lt_ge_cases 0 n) as [Hn|Hn].
  - destruct (removeData_indices rb n H Hn) as (EB & Es & Ed).
    pose proof (findData_le_occupancy rb H) as Hle.
    apply (wf_of_indices rb); auto; try apply H.
    + rewrite Ed. unfold advance. revert Hle.
      destruct (Z.eqb_spec (dataIndex rb + Z.min n (findData rb))
                  (bufferSize rb)) as [E|E]; revert E;
        measures rb H; lia.
    + rewrite Es. apply H.
  - rewrite removeData_idle by exact Hn. exact H.
Qed.

(** [addData] adds exactly the clamped count to the occupancy. *)
Lemma addData_occupancy rb n :
  wf rb -> 0 < n ->
  occupancy (fst (addData n rb)) = occupancy rb + Z.min n (findSpace rb).
Proof.
  intros H Hn.
  pose proof (addData_wf rb n H) as H'.
  destruct (addData_indices rb n H Hn) as (EB & Ed & Es).
  rewrite (occupancy_wf _ H'). rewrite EB, Ed, Es. unfold advance.
  destruct (Z.eqb_spec (spaceIndex rb + Z.min n (findSpace rb))
              (bufferSize rb)) as [E|E]; revert E;
    destruct (Z.geb_spec 0 (dataIndex rb));
    destruct (Z.geb_spec (spaceIndex rb + Z.min n (findSpace rb)) (dataIndex rb));
    measures rb H; lia.
Qed.

(** [removeData] takes exactly the clamped count off the occupancy. *)
Lemma removeData_occupancy rb n :
  wf rb -> 0 < n ->
  occupancy (fst (removeData n rb)) = occupancy rb - Z.min n (findData rb).
Proof.
  intros H Hn.
  pose proof (removeData_wf rb n H) as H'.
  destruct (removeData_indices rb n H Hn) as (EB & Es & Ed).
  rewrite (occupancy_wf _ H'). rewrite EB, Ed, Es. unfold advance.
  destruct (Z.eqb_spec (dataIndex rb + Z.min n (findData rb))
              (bufferSize rb)) as [E|E]; revert E;
    destruct (Z.geb_spec (spaceIndex rb) 0);
    destruct (Z.geb_spec (spaceIndex rb) (dataIndex rb + Z.min n (findData rb)));
    measures rb H; lia.
Qed.

End RingBufferSteps.

Module RingBufferSignals.
Import RingBuffer RingBufferFacts RingBufferSteps.

Lemma addData_signals rb n :
  wf rb -> 0 < n ->
  let rb' := fst (addData n rb) in
  notEmpty rb' = true /\
  notFull rb' = if occupancy rb' =? capacity rb' then false else notFull rb.
Proof.
  intros H Hn. cbv zeta.
  pose proof (addData_wf rb n H) as H'. revert H'.
  rewrite (addData_wf_eq rb n H Hn). cbv zeta.
  set (rb1 := set_notEmpty true _).
  assert (H1 : wf rb1 -> (findSpace rb1 <=? 0) = (occupancy rb1 =? capacity rb1)).
  { intros W. pose proof (findSpace_zero_iff rb1 W).
    pose proof (findSpace_le_free rb1 W).
    destruct (Z.leb_spec (findSpace rb1) 0);
      destruct (Z.eqb_spec (occupancy rb1) (capacity rb1)); lia. }
  simpl. destruct (findSpace rb1 <=? 0) eqn:E; simpl; intros W;
    change (wf rb1) in W;
    change (occupancy (set_notFull false rb1)) with (occupancy rb1);
    change (capacity (set_notFull false rb1)) with (capacity rb1);
    rewrite <- (H1 W); split; reflexivity.
Qed.

Lemma removeData_signals rb n :
  wf rb -> 0 < n ->
  let rb' := fst (removeData n rb) in
  notFull rb' = true /\
  notEmpty rb' = if occupancy rb' =? 0 then false else notEmpty rb.
Proof.
  intros H Hn. cbv zeta.
  pose proof (removeData_wf rb n H) as H'. revert H'.
  rewrite (removeData_wf_eq rb n H Hn). cbv zeta.
  set (rb1 := set_notFull true _).
  assert (H1 : wf rb1 -> (findData rb1 <=? 0) = (occupancy rb1 =? 0)).
  { intros W. pose proof (findData_zero_iff rb1 W).
    pose proof (findData_le_occupancy rb1 W).
    destruct (Z.leb_spec (findData rb1) 0);
      destruct (Z.eqb_spec (occupancy rb1) 0); lia. }
  simpl. destruct (findData rb1 <=? 0) eqn:E; simpl; intros W;
    change (wf rb1) in W;
    change (occupancy (set_notEmpty false rb1)) with (occupancy rb1);
    rewrite <- (H1 W); split; reflexivity.
Qed.

End RingBufferSignals.

Module RingBufferInvariants.
Import RingBuffer RingBufferFacts RingBufferSteps RingBufferSignals.

Lemma exec_wf o rb : wf rb -> wf (exec o rb).
Proof.
  intros H. destruct o; simpl.
  - apply addData_wf, H.
  - apply removeData_wf, H.
  - exact H.
  - exact H.
Qed.

Lemma exec_bufferSize o rb : wf rb -> bufferSize (exec o rb) = bufferSize rb.
Proof.
  intros H. destruct o as [n|n| |]; simpl; try reflexivity.
  - destruct (Z.lt_ge_cases 0 n) as [Hn|Hn].
    + apply (addData_indices rb n H Hn).
    + rewrite addData_idle by exact Hn. reflexivity.
  - destruct (Z.lt_ge_cases 0 n) as [Hn|Hn].
    + apply (removeData_indices rb n H Hn).
    + rewrite removeData_idle by exact Hn. reflexivity.
Qed.

(** Every reachable state is well-formed and keeps the capacity it was
    built with. *)
Lemma reachable_wf C rb :
  valid_capacity C -> reachable C rb -> wf rb /\ capacity rb = C.
Proof.
  intros HC R. induction R as [|o rb R [IHw IHc]].
  - split; [apply new_wf | apply new_capacity]; exact HC.
  - split; [apply exec_wf; exact IHw|].
    unfold capacity in *. rewrite exec_bufferSize by exact IHw. exact IHc.
Qed.

Lemma run_reachable C ops rb : reachable C rb -> reachable C (run ops rb).
Proof.
  revert rb. induction ops as [|o ops IH]; intros rb R; simpl.
  - exact R.
  - apply IH. apply reach_step. exact R.
Qed.

Lemma new_signals_sound C : 1 <= C < INT_MAX -> signals_sound (new C).
Proof.
  intros HC. assert (V : valid_capacity C) by (unfold valid_capacity; lia).
  pose proof (new_capacity C V) as Hcap.
  split; simpl; [discriminate|]. intros _. rewrite Hcap.
  unfold occupancy. simpl. rewrite Z.mod_0_l; [lia|].
  unfold INT_MAX in HC. rewrite dword_small; unfold DWORD_MOD; lia.
Qed.

(** The four operations keep the events sound, on a buffer that can hold
    at least one byte. *)
Lemma exec_signals_sound o rb :
  wf rb -> 1 <= capacity rb -> signals_sound rb -> signals_sound (exec o rb).
Proof.
  intros H Hcap [Hne Hnf].
  pose proof (exec_wf o rb H) as H'.
  pose proof (exec_bufferSize o rb H) as HB.
  pose proof (occupancy_range _ H') as Hr.
  assert (Hc : capacity (exec o rb) = capacity rb)
    by (unfold capacity; rewrite HB; reflexivity).
  rewrite Hc in Hr. unfold signals_sound. rewrite Hc. clear HB Hc.
  destruct o as [n|n| |]; simpl in *.
  - destruct (Z.lt_ge_cases 0 n) as [Hn|Hn].
    + destruct (addData_signals rb n H Hn) as [E1 E2].
      pose proof (addData_occupancy rb n H Hn) as Eo.
      pose proof (findSpace_zero_iff rb H) as Hz.
      pose proof (findSpace_le_free rb H) as Hf.
      pose proof (occupancy_range rb H) as Hr0.
      assert (Ec : capacity (fst (addData n rb)) = capacity rb).
      { unfold capacity. destruct (addData_indices rb n H Hn) as (-> & _).
        reflexivity. }
      rewrite Ec in E2. split.
      * intros _. lia.
      * rewrite E2.
        destruct (Z.eqb_spec (occupancy (fst (addData n rb))) (capacity rb));
          [discriminate|]. intros _. lia.
    + rewrite addData_idle by exact Hn. simpl. auto.
  - destruct (Z.lt_ge_cases 0 n) as [Hn|Hn].
    + destruct (removeData_signals rb n H Hn) as [E1 E2].
      pose proof (removeData_occupancy rb n H Hn) as Eo.
      pose proof (findData_zero_iff rb H) as Hz.
      pose proof (findData_le_occupancy rb H) as Hf.
      pose proof (occupancy_range rb H) as Hr0.
      split.
      * rewrite E2.
        destruct (Z.eqb_spec (occupancy (fst (removeData n rb))) 0);
          [discriminate|]. intros _. lia.
      * intros _. lia.
    + rewrite removeData_idle by exact Hn. simpl. auto.
  - split; [exact Hne | discriminate].
  - split; [discriminate | exact Hnf].
Qed.

Lemma reachable_signals_sound C rb :
  1 <= C < INT_MAX -> reachable C rb -> signals_sound rb.
Proof.
  intros HC R. assert (V : valid_capacity C) by (unfold valid_capacity; lia).
  induction R as [|o rb R IH].
  - apply new_signals_sound, HC.
  - destruct (reachable_wf C rb V R) as [W Ecap].
    apply exec_signals_sound; auto. lia.
Qed.

End RingBufferInvariants.

(** ** Claims about the ring buffer *)

Module RingBufferRuns.
Import RingBuffer RingBufferFacts RingBufferSteps RingBufferInvariants.

(** Decides the comparisons left in a goal and hands the rest to [lia]. *)
Ltac split_tests :=
  repeat match goal with
         | |- context [?a =? ?b] => destruct (Z.eqb_spec a b)
         | |- context [?a >=? ?b] => destruct (Z.geb_spec a b)
         | |- context [?a >? ?b] => destruct (Z.gtb_spec a b)
         | |- context [?a <=? ?b] => destruct (Z.leb_spec a b)
         end;
  try lia.

(** [addData] of a count that fits, from known indices to known indices. *)
Lemma add_step rb n B d s :
  wf rb -> bufferSize rb = B -> dataIndex rb = d -> spaceIndex rb = s ->
  0 < n ->
  n <= (if s >=? d then B - s - (if d =? 0 then 1 else 0) else d - s - 1) ->
  let rb' := fst (addData n rb) in
  wf rb' /\ bufferSize rb' = B /\ dataIndex rb' = d /\
  spaceIndex rb' = advance B s n.
Proof.
  intros H EB Ed Es Hn Hfit. cbv zeta.
  destruct (addData_indices rb n H Hn) as (E1 & E2 & E3).
  rewrite (findSpace_wf rb H), EB, Ed, Es in E3.
  rewrite Z.min_l in E3 by exact Hfit.
  split; [apply addData_wf, H|]. repeat split; congruence.
Qed.

Lemma remove_step rb n B d s :
  wf rb -> bufferSize rb = B -> dataIndex rb = d -> spaceIndex rb = s ->
  0 < n ->
  n <= (if s >=? d then s - d else B - d) ->
  let rb' := fst (removeData n rb) in
  wf rb' /\ bufferSize rb' = B /\ spaceIndex rb' = s /\
  dataIndex rb' = advance B d n.
Proof.
  intros H EB Ed Es Hn Hfit. cbv zeta.
  destruct (removeData_indices rb n H Hn) as (E1 & E2 & E3).
  rewrite (findData_wf rb H), EB, Ed, Es in E3.
  rewrite Z.min_l in E3 by exact Hfit.
  split; [apply removeData_wf, H|]. repeat split; congruence.
Qed.

Lemma new_fields C :
  valid_capacity C ->
  wf (new C) /\ bufferSize (new C) = C + 1 /\
  dataIndex (new C) = 0 /\ spaceIndex (new C) = 0.
Proof.
  intros V. split; [apply new_wf, V|]. split; [|split; reflexivity].
  pose proof (new_capacity C V). unfold capacity in *. lia.
Qed.

(** Committing [n] bytes to a fresh buffer and consuming them again leaves
    both indices on slot [n]. *)
Lemma add_remove_indices C n :
  valid_capacity C -> 1 <= n <= C ->
  let rb := fst (removeData n (fst (addData n (new C)))) in
  wf rb /\ bufferSize rb = C + 1 /\ dataIndex rb = n /\ spaceIndex rb = n.
Proof.
  intros V Hn. cbv zeta.
  destruct (new_fields C V) as (W0 & B0 & D0 & S0).
  destruct (add_step (new C) n (C + 1) 0 0 W0 B0 D0 S0) as (W1 & B1 & D1 & S1);
    [lia | simpl; lia |].
  unfold advance in S1. replace (0 + n =? C + 1) with false in S1
    by (symmetry; apply Z.eqb_neq; lia).
  destruct (remove_step _ n (C + 1) 0 (0 + n) W1 B1 D1 S1)
    as (W2 & B2 & S2 & D2); [lia | split_tests |].
  unfold advance in D2. replace (0 + n =? C + 1) with false in D2
    by (symmetry; apply Z.eqb_neq; lia).
  repeat split; try assumption; try apply W2; lia.
Qed.

(** A reachable state whose data wraps around the end of the array. *)
Lemma wrapped_data_state C :
  valid_capacity C -> 2 <= C ->
  let rb := run [OpAdd C; OpRemove C; OpAdd 1; OpAdd 1] (new C) in
  reachable C rb /\ wf rb /\ dataIndex rb = C /\ spaceIndex rb = 1.
Proof.
  intros V HC. cbv zeta. split; [apply run_reachable, reach_new|].
  unfold run. cbn [fold_left exec].
  destruct (add_remove_indices C C V) as (W2 & B2 & D2 & S2); [lia|].
  destruct (add_step _ 1 (C + 1) C C W2 B2 D2 S2) as (W3 & B3 & D3 & S3);
    [lia | split_tests |].
  unfold advance in S3. rewrite Z.eqb_refl in S3.
  destruct (add_step _ 1 (C + 1) C 0 W3 B3 D3 S3) as (W4 & B4 & D4 & S4);
    [lia | split_tests |].
  unfold advance in S4. replace (0 + 1 =? C + 1) with false in S4
    by (symmetry; apply Z.eqb_neq; lia).
  auto.
Qed.

(** A reachable state whose free slots wrap around the end of the array. *)
Lemma wrapped_space_state C :
  valid_capacity C -> 2 <= C ->
  let rb := run [OpAdd 2; OpRemove 2] (new C) in
  reachable C rb /\ wf rb /\ dataIndex rb = 2 /\ spaceIndex rb = 2.
Proof.
  intros V HC. cbv zeta. split; [apply run_reachable, reach_new|].
  unfold run. cbn [fold_left exec].
  destruct (add_remove_indices C 2 V) as (W2 & B2 & D2 & S2); [lia|].
  auto.
Qed.

End RingBufferRuns.

Import RingBufferFacts RingBufferSteps RingBufferSignals RingBufferInvariants
  RingBufferRuns.

(** C3, as stated, fails: on a buffer of capacity 4, committing 3 bytes and
    consuming them leaves [hasData() = 0] but [hasSpace() = 2], not 4: both
    indices stand on slot 3 and only slots 3 and 4 are contiguous. *)
Lemma commit_consume_space_counterexample :
  let rb := fst (RingBuffer.removeData 3
                   (fst (RingBuffer.addData 3 (RingBuffer.new 4)))) in
  RingBuffer.hasData rb = 0 /\ RingBuffer.hasSpace rb = 2 /\
  ~ (RingBuffer.hasData rb = 0 /\ RingBuffer.hasSpace rb = 4).
Proof.
  cbv zeta. split; [reflexivity|]. split; [reflexivity|].
  intros [_ H]. vm_compute in H. discriminate H.
Qed.

(** C3, amended: for every capacity C >= 1 (that an int constructor argument
    can carry) and every 0 <= n <= C, [addData(n)] then [removeData(n)] on a
    fresh buffer leaves it empty, with [hasData() = 0], occupancy 0 and C
    free bytes; [hasSpace()] is the contiguous run from the write index: C
    when n <= 1, and C + 1 - n otherwise. *)
Theorem commit_consume_roundtrip (C n : Z) :
  1 <= C < INT_MAX -> 0 <= n <= C ->
  let rb := fst (RingBuffer.removeData n
                   (fst (RingBuffer.addData n (RingBuffer.new C)))) in
  RingBuffer.hasData rb = 0 /\
  RingBuffer.occupancy rb = 0 /\
  RingBuffer.freeSpace rb = C /\
  RingBuffer.hasSpace rb = (if n <=? 1 then C else C + 1 - n).
Proof.
  intros HC Hn. cbv zeta.
  assert (V : RingBuffer.valid_capacity C)
    by (unfold RingBuffer.valid_capacity; lia).
  assert (Hrb : let rb := fst (RingBuffer.removeData n
                   (fst (RingBuffer.addData n (RingBuffer.new C)))) in
                RingBuffer.wf rb /\ RingBuffer.bufferSize rb = C + 1 /\
                RingBuffer.dataIndex rb = n /\ RingBuffer.spaceIndex rb = n).
  { destruct (Z.eq_dec n 0) as [->|Hn0].
    - cbv zeta. rewrite addData_idle by lia. cbn [fst].
      rewrite removeData_idle by lia. cbn [fst]. apply new_fields, V.
    - apply add_remove_indices; [exact V | lia]. }
  cbv zeta in Hrb. destruct Hrb as (W & EB & Ed & Es).
  unfold RingBuffer.hasData, RingBuffer.hasSpace, RingBuffer.freeSpace,
    RingBuffer.capacity.
  rewrite (findData_wf _ W), (findSpace_wf _ W), (occupancy_wf _ W).
  rewrite EB, Ed, Es.
  destruct (Z.geb_spec n n); [|lia].
  destruct (Z.eqb_spec n 0); destruct (Z.leb_spec n 1); repeat split; lia.
Qed.

Lemma commit_consume_roundtrip_witness :
  let rb := fst (RingBuffer.removeData 3
                   (fst (RingBuffer.addData 3 (RingBuffer.new 4)))) in
  RingBuffer.hasData rb = 0 /\
  RingBuffer.occupancy rb = 0 /\
  RingBuffer.freeSpace rb = 4 /\
  RingBuffer.hasSpace rb = 2.
Proof.
  apply (commit_consume_roundtrip 4 3); unfold INT_MAX; lia.
Defined.

(** C4, as stated, fails in its last figure: after committing 3 bytes to an
    empty buffer of capacity 4 and consuming 2, [hasSpace()] is 2, not 3. *)
Lemma capacity4_scenario_counterexample :
  let rb1 := fst (RingBuffer.addData 3 (RingBuffer.new 4)) in
  let rb2 := fst (RingBuffer.removeData 2 rb1) in
  ~ (RingBuffer.hasData rb1 = 3 /\ RingBuffer.hasSpace rb1 = 1 /\
     RingBuffer.hasData rb2 = 1 /\ RingBuffer.hasSpace rb2 = 3).
Proof.
  cbv zeta. intros (_ & _ & _ & H). vm_compute in H. discriminate H.
Qed.

(** C4, amended: on a buffer of capacity 4 that starts empty, after
    committing 3 bytes [hasData() = 3] and [hasSpace() = 1]; after then
    consuming 2 bytes [hasData() = 1] and [hasSpace() = 2], the contiguous
    run up to the end of the array, while 3 bytes are free in all. *)
Theorem capacity4_scenario :
  let rb1 := fst (RingBuffer.addData 3 (RingBuffer.new 4)) in
  let rb2 := fst (RingBuffer.removeData 2 rb1) in
  RingBuffer.hasData rb1 = 3 /\ RingBuffer.hasSpace rb1 = 1 /\
  RingBuffer.hasData rb2 = 1 /\ RingBuffer.hasSpace rb2 = 2 /\
  RingBuffer.freeSpace rb2 = 3.
Proof. cbv zeta. repeat split; reflexivity. Qed.

(** C7: on every well-formed buffer, [addData(n)] with n greater than
    [hasSpace()] commits exactly [hasSpace()] bytes, logs the overrun, and
    leaves both indices inside the backing array of C + 1 slots. *)
Theorem addData_overrun_clamps (rb : RingBuffer.t) (n : Z) :
  RingBuffer.wf rb -> n > RingBuffer.hasSpace rb ->
  let rb' := fst (RingBuffer.addData n rb) in
  snd (RingBuffer.addData n rb) =
    [mkLog INFO "buffer overrun %d > %d" [AInt n; AInt (RingBuffer.hasSpace rb)]] /\
  RingBuffer.occupancy rb' = RingBuffer.occupancy rb + RingBuffer.hasSpace rb /\
  RingBuffer.dataIndex rb' = RingBuffer.dataIndex rb /\
  RingBuffer.spaceIndex rb' =
    RingBuffer.advance (RingBuffer.bufferSize rb) (RingBuffer.spaceIndex rb)
      (RingBuffer.hasSpace rb) /\
  RingBuffer.capacity rb' = RingBuffer.capacity rb /\
  0 <= RingBuffer.dataIndex rb' < RingBuffer.capacity rb + 1 /\
  0 <= RingBuffer.spaceIndex rb' < RingBuffer.capacity rb + 1.
Proof.
  intros W Hover. cbv zeta. unfold RingBuffer.hasSpace in *.
  pose proof (findSpace_le_free rb W) as Hf.
  assert (Hn : 0 < n) by lia.
  pose proof (addData_wf rb n W) as W'.
  pose proof (addData_occupancy rb n W Hn) as Ho.
  destruct (addData_indices rb n W Hn) as (EB & Ed & Es).
  rewrite Z.min_r in Ho, Es by lia.
  split.
  { rewrite (addData_wf_eq rb n W Hn). cbv zeta. cbn [snd].
    replace (n >? RingBuffer.findSpace rb) with true; [reflexivity|].
    symmetry. apply Z.gtb_lt. lia. }
  unfold RingBuffer.capacity. rewrite EB.
  destruct W' as (HB' & Hd' & Hs'). rewrite EB in Hd', Hs'.
  repeat split; try assumption; lia.
Qed.

Lemma addData_overrun_clamps_witness :
  let rb := fst (RingBuffer.addData 3 (RingBuffer.new 4)) in
  let rb' := fst (RingBuffer.addData 9 rb) in
  snd (RingBuffer.addData 9 rb) =
    [mkLog INFO "buffer overrun %d > %d" [AInt 9; AInt (RingBuffer.hasSpace rb)]] /\
  RingBuffer.occupancy rb' = RingBuffer.occupancy rb + RingBuffer.hasSpace rb /\
  RingBuffer.dataIndex rb' = RingBuffer.dataIndex rb /\
  RingBuffer.spaceIndex rb' =
    RingBuffer.advance (RingBuffer.bufferSize rb) (RingBuffer.spaceIndex rb)
      (RingBuffer.hasSpace rb) /\
  RingBuffer.capacity rb' = RingBuffer.capacity rb /\
  0 <= RingBuffer.dataIndex rb' < RingBuffer.capacity rb + 1 /\
  0 <= RingBuffer.spaceIndex rb' < RingBuffer.capacity rb + 1.
Proof.
  apply (addData_overrun_clamps (fst (RingBuffer.addData 3 (RingBuffer.new 4))) 9).
  - vm_compute. repeat split; discriminate.
  - vm_compute. reflexivity.
Defined.

(** ** The contiguous runs *)

Module ContiguousRuns.
Import RingBuffer RingBufferFacts.

Lemma run_length_exact (p : Z -> bool) :
  forall n fuel i,
    (n <= fuel)%nat ->
    (forall k, 0 <= k < Z.of_nat n -> p (i + k) = true) ->
    p (i + Z.of_nat n) = false ->
    run_length p i fuel = Z.of_nat n.
Proof.
  induction n as [|n IH]; intros fuel i Hf Hin Hout.
  - destruct fuel as [|fuel]; [reflexivity|]. cbn [run_length].
    replace (i + Z.of_nat 0) with i in Hout by lia. rewrite Hout. reflexivity.
  - destruct fuel as [|fuel]; [lia|]. cbn [run_length].
    replace (p i) with true
      by (symmetry; replace i with (i + 0) by lia; apply Hin; lia).
    rewrite (IH fuel (i + 1)); [lia|lia| |].
    + intros k Hk. replace (i + 1 + k) with (i + (k + 1)) by lia.
      apply Hin. lia.
    + replace (i + 1 + Z.of_nat n) with (i + Z.of_nat (S n)) by lia.
      exact Hout.
Qed.

Lemma in_region_from_start B start len k :
  0 <= start -> 0 <= k < B ->
  in_region B start len (start + k) = (start + k <? B) && (k <? len).
Proof.
  intros Hs Hk. unfold in_region.
  replace (start + k - start) with k by lia.
  rewrite Z.mod_small by lia.
  replace (0 <=? start + k) with true by (symmetry; apply Z.leb_le; lia).
  reflexivity.
Qed.

(** A region of [len] slots from [start] on has [n] slots in a row when
    the [n] slots fit in the array and in the region, and the slot after
    them is past the end of the array or past the region. *)
Lemma region_run B start len n :
  0 <= start < B -> 0 <= n <= len -> start + n <= B ->
  start + n = B \/ n = len ->
  run_length (in_region B start len) start (Z.to_nat B) = n.
Proof.
  intros Hs Hn HB Hend.
  transitivity (Z.of_nat (Z.to_nat n)); [|lia].
  apply run_length_exact.
  - lia.
  - intros k Hk. rewrite in_region_from_start by lia.
    apply andb_true_intro. split; apply Z.ltb_lt; lia.
  - rewrite Z2Nat.id by lia.
    destruct (Z.eq_dec (start + n) B) as [E|E].
    + unfold in_region. replace (start + n <? B) with false
        by (symmetry; apply Z.ltb_ge; lia).
      rewrite Bool.andb_false_r. reflexivity.
    + rewrite in_region_from_start by lia.
      replace (n <? len) with false by (symmetry; apply Z.ltb_ge; lia).
      apply Bool.andb_false_r.
Qed.

Lemma findData_contiguous rb : wf rb -> findData rb = contiguous_data rb.
Proof.
  intros H. unfold contiguous_data. symmetry. apply region_run;
    measures rb H; lia.
Qed.

Lemma findSpace_contiguous rb : wf rb -> findSpace rb = contiguous_space rb.
Proof.
  intros H. unfold contiguous_space. symmetry. apply region_run;
    measures rb H; lia.
Qed.

(** Each run is cut short by the total it is part of or by the end of the
    array, whichever comes first. *)
Lemma findData_min rb :
  wf rb ->
  findData rb = Z.min (occupancy rb) (bufferSize rb - dataIndex rb).
Proof. intros H. measures rb H; lia. Qed.

Lemma findSpace_min rb :
  wf rb ->
  findSpace rb = Z.min (freeSpace rb) (bufferSize rb - spaceIndex rb).
Proof. intros H. measures rb H; lia. Qed.

End ContiguousRuns.

Import ContiguousRuns.

Lemma short_data_of_indices rb :
  RingBuffer.wf rb ->
  0 < RingBuffer.spaceIndex rb < RingBuffer.dataIndex rb ->
  RingBuffer.findData rb < RingBuffer.occupancy rb.
Proof. intros W H. apply (findData_short_iff rb W). exact H. Qed.

Lemma short_space_of_indices C rb :
  RingBuffer.wf rb -> RingBuffer.capacity rb = C ->
  2 <= RingBuffer.dataIndex rb <= RingBuffer.spaceIndex rb ->
  RingBuffer.findSpace rb < C - RingBuffer.occupancy rb.
Proof.
  intros W E H. pose proof (findSpace_short_iff rb W) as Hs.
  unfold RingBuffer.freeSpace in Hs. rewrite E in Hs. apply Hs. exact H.
Qed.

(** C9: in every reachable state of a ring buffer of capacity C,
    [hasData()] is the length of the contiguous run of data that starts at
    the read index and [hasSpace()] the length of the contiguous run of
    free slots that starts at the write index, neither run going around
    the end of the array: each is the total it is part of or the number of
    slots up to the end of the array, whichever is less; [hasData()] is 0
    exactly when the buffer holds nothing and [hasSpace()] is 0 exactly
    when it holds C bytes; both are bounded by the total they measure, and
    fall short of it exactly when the region wraps around the end of the
    array (write index strictly between 0 and the read index for the data,
    read index at 2 or more and not above the write index for the space);
    such states are reachable for every capacity of 2 or more. *)
Theorem contiguous_run_measures (C : Z) (rb : RingBuffer.t) :
  RingBuffer.valid_capacity C -> RingBuffer.reachable C rb ->
  RingBuffer.hasData rb = contiguous_data rb /\
  RingBuffer.hasSpace rb = contiguous_space rb /\
  RingBuffer.hasData rb
  = Z.min (RingBuffer.occupancy rb) (C + 1 - RingBuffer.dataIndex rb) /\
  RingBuffer.hasSpace rb
  = Z.min (C - RingBuffer.occupancy rb) (C + 1 - RingBuffer.spaceIndex rb) /\
  (RingBuffer.hasData rb = 0 <-> RingBuffer.occupancy rb = 0) /\
  (RingBuffer.hasSpace rb = 0 <-> RingBuffer.occupancy rb = C) /\
  0 <= RingBuffer.hasData rb <= RingBuffer.occupancy rb /\
  0 <= RingBuffer.hasSpace rb <= C - RingBuffer.occupancy rb /\
  (RingBuffer.hasData rb < RingBuffer.occupancy rb <->
   0 < RingBuffer.spaceIndex rb < RingBuffer.dataIndex rb) /\
  (RingBuffer.hasSpace rb < C - RingBuffer.occupancy rb <->
   2 <= RingBuffer.dataIndex rb <= RingBuffer.spaceIndex rb) /\
  (2 <= C ->
   exists rb1, RingBuffer.reachable C rb1 /\
               RingBuffer.hasData rb1 < RingBuffer.occupancy rb1) /\
  (2 <= C ->
   exists rb2, RingBuffer.reachable C rb2 /\
               RingBuffer.hasSpace rb2 < C - RingBuffer.occupancy rb2).
Proof.
  intros V R. destruct (reachable_wf C rb V R) as [W Ecap].
  unfold RingBuffer.hasData, RingBuffer.hasSpace.
  pose proof (findData_zero_iff rb W) as H1.
  pose proof (findSpace_zero_iff rb W) as H2.
  pose proof (findData_le_occupancy rb W) as H3.
  pose proof (findSpace_le_free rb W) as H4.
  pose proof (findData_short_iff rb W) as H5.
  pose proof (findSpace_short_iff rb W) as H6.
  unfold RingBuffer.freeSpace in H4, H6. rewrite Ecap in H2, H4, H6.
  split; [apply findData_contiguous, W|].
  split; [apply findSpace_contiguous, W|].
  split.
  { rewrite (findData_min rb W). unfold RingBuffer.capacity in Ecap.
    f_equal. lia. }
  split.
  { rewrite (findSpace_min rb W).
    unfold RingBuffer.freeSpace, RingBuffer.capacity in *. f_equal; lia. }
  repeat (split; [assumption|]). split.
  - intros HC. destruct (wrapped_data_state C V HC) as (R1 & W1 & D1 & S1).
    eexists. split; [exact R1|].
    apply (short_data_of_indices _ W1). lia.
  - intros HC. destruct (wrapped_space_state C V HC) as (R2 & W2 & D2 & S2).
    eexists. split; [exact R2|].
    destruct (reachable_wf C _ V R2) as [_ Ecap2].
    apply (short_space_of_indices C _ W2 Ecap2). lia.
Qed.

Lemma contiguous_run_measures_witness :
  let rb := RingBuffer.run
              [RingBuffer.OpAdd 4; RingBuffer.OpRemove 3; RingBuffer.OpAdd 1;
               RingBuffer.OpAdd 1]
              (RingBuffer.new 4) in
  RingBuffer.hasData rb = contiguous_data rb /\
  RingBuffer.hasSpace rb = contiguous_space rb /\
  RingBuffer.hasData rb
  = Z.min (RingBuffer.occupancy rb) (4 + 1 - RingBuffer.dataIndex rb) /\
  RingBuffer.hasSpace rb
  = Z.min (4 - RingBuffer.occupancy rb) (4 + 1 - RingBuffer.spaceIndex rb) /\
  (RingBuffer.hasData rb = 0 <-> RingBuffer.occupancy rb = 0) /\
  (RingBuffer.hasSpace rb = 0 <-> RingBuffer.occupancy rb = 4) /\
  0 <= RingBuffer.hasData rb <= RingBuffer.occupancy rb /\
  0 <= RingBuffer.hasSpace rb <= 4 - RingBuffer.occupancy rb /\
  (RingBuffer.hasData rb < RingBuffer.occupancy rb <->
   0 < RingBuffer.spaceIndex rb < RingBuffer.dataIndex rb) /\
  (RingBuffer.hasSpace rb < 4 - RingBuffer.occupancy rb <->
   2 <= RingBuffer.dataIndex rb <= RingBuffer.spaceIndex rb) /\
  (2 <= 4 ->
   exists rb1, RingBuffer.reachable 4 rb1 /\
               RingBuffer.hasData rb1 < RingBuffer.occupancy rb1) /\
  (2 <= 4 ->
   exists rb2, RingBuffer.reachable 4 rb2 /\
               RingBuffer.hasSpace rb2 < 4 - RingBuffer.occupancy rb2).
Proof.
  intro rb. apply (contiguous_run_measures 4 rb).
  - unfold RingBuffer.valid_capacity, INT_MAX. lia.
  - apply run_reachable, RingBuffer.reach_new.
Defined.

(** C5, as stated, fails: [comRx] resets [notFull] whatever the buffer
    holds, so after that reset and an [addData(1)] on the fresh buffer of
    capacity 128 the occupancy is 1 and [notFull] is not signaled.  In the
    same way [comTx] resets [notEmpty]: after an [addData(1)] and that
    reset the occupancy is 1 and [notEmpty] is not signaled. *)
Lemma signals_exact_counterexample :
  let rb := RingBuffer.exec (RingBuffer.OpAdd 1)
              (RingBuffer.exec RingBuffer.OpResetNotFull (RingBuffer.new 128)) in
  let tb := RingBuffer.exec RingBuffer.OpResetNotEmpty
              (RingBuffer.exec (RingBuffer.OpAdd 1) (RingBuffer.new 128)) in
  (RingBuffer.reachable 128 rb /\
   RingBuffer.occupancy rb = 1 /\ RingBuffer.capacity rb = 128 /\
   RingBuffer.notFull rb = false /\
   ~ RingBuffer.signals_exact rb) /\
  (reached_by rx_op 128 rb /\ reached_by tx_op 128 tb /\
   RingBuffer.occupancy tb = 1 /\ RingBuffer.notEmpty tb = false /\
   ~ RingBuffer.signals_exact tb).
Proof.
  cbv zeta. split.
  - split; [do 2 apply RingBuffer.reach_step; apply RingBuffer.reach_new|].
    split; [reflexivity|]. split; [reflexivity|]. split; [reflexivity|].
    intros [_ [_ H]].
    assert (E : RingBuffer.notFull
                  (RingBuffer.exec (RingBuffer.OpAdd 1)
                     (RingBuffer.exec RingBuffer.OpResetNotFull
                        (RingBuffer.new 128))) = true).
    { apply H. vm_compute. reflexivity. }
    vm_compute in E. discriminate E.
  - split; [exists [RingBuffer.OpResetNotFull; RingBuffer.OpAdd 1];
            split; reflexivity|].
    split; [exists [RingBuffer.OpAdd 1; RingBuffer.OpResetNotEmpty];
            split; reflexivity|].
    split; [reflexivity|]. split; [reflexivity|].
    intros [[_ H] _].
    assert (E : RingBuffer.notEmpty
                  (RingBuffer.exec RingBuffer.OpResetNotEmpty
                     (RingBuffer.exec (RingBuffer.OpAdd 1)
                        (RingBuffer.new 128))) = true).
    { apply H. vm_compute. reflexivity. }
    vm_compute in E. discriminate E.
Qed.

(** ** The pump threads *)

(** The test [wasRead < 0] on a DWORD never holds: every turn of
    [stdinReader] that reaches [_read] goes on to [addData]. *)
Lemma stdinReader_turn_eq io g :
  stdinReaderThread g = Running ->
  RingBuffer.hasSpace (txBuffer g) <> 0 ->
  RingBuffer.wf (txBuffer g) ->
  stdinReader_turn io g =
    let wasRead := dword (result io) in
    let g2 := tx_addData wasRead
                (logDebug "stdin read %d %s"
                   [AInt wasRead;
                    asString (RingBuffer.space (txBuffer g)) wasRead] g) in
    if wasRead =? 0
    then set_stdinReaderThread (Returned 0) (set_stdinDone true g2)
    else g2.
Proof.
  intros HT Hsp W. unfold stdinReader_turn. rewrite HT.
  pose proof (findSpace_le_free _ W) as Hf. unfold RingBuffer.hasSpace in *.
  replace (RingBuffer.findSpace (txBuffer g) <=? 0) with false
    by (symmetry; apply Z.leb_gt; lia).
  rewrite dword_never_negative. reflexivity.
Qed.

Lemma stdoutWriter_turn_eq io g :
  stdoutWriterThread g = Running ->
  RingBuffer.hasData (rxBuffer g) <> 0 ->
  RingBuffer.wf (rxBuffer g) ->
  stdoutWriter_turn io g =
    let wasWritten := dword (result io) in
    rx_removeData wasWritten
      (logDebug "stdout wrote %d %s"
         [AInt wasWritten;
          asString (RingBuffer.data (rxBuffer g)) wasWritten] g).
Proof.
  intros HT Hsp W. unfold stdoutWriter_turn. rewrite HT.
  pose proof (findData_le_occupancy _ W) as Hf. unfold RingBuffer.hasData in *.
  replace (RingBuffer.findData (rxBuffer g) <=? 0) with false
    by (symmetry; apply Z.leb_gt; lia).
  rewrite dword_never_negative. reflexivity.
Qed.

(** C2 (the code departs from it): when [_read] returns -1 the turn of
    [stdinReader] neither sets [stdinDone] nor returns, it commits
    4294967295 bytes, clamped to the 128 free ones; when [_write] returns -1
    the turn of [stdoutWriter] neither sets [stdoutDone] nor returns, it
    consumes the 3 bytes that were waiting. *)
Theorem pump_errors_not_detected :
  let read_error := mkCrt (-1) 9 in
  let g1 := stdinReader_turn read_error session_start in
  let g2 := rx_addData 3 session_start in
  let g3 := stdoutWriter_turn read_error g2 in
  (stdinDone g1 = false /\ stdinReaderThread g1 = Running /\
   RingBuffer.occupancy (txBuffer session_start) = 0 /\
   RingBuffer.occupancy (txBuffer g1) = 128) /\
  (stdoutDone g3 = false /\ stdoutWriterThread g3 = Running /\
   RingBuffer.occupancy (rxBuffer g2) = 3 /\
   RingBuffer.occupancy (rxBuffer g3) = 0).
Proof. vm_compute. repeat split; reflexivity. Qed.

(** ** The loop of main: leaving it *)

Lemma hasData_zero_iff_empty rb :
  RingBuffer.wf rb ->
  ((RingBuffer.hasData rb =? 0) = true <-> RingBuffer.isEmpty rb).
Proof.
  intros W. rewrite Z.eqb_eq. apply (findData_zero_iff_empty rb W).
Qed.

(** The test of the code and the predicate of the specification agree. *)
Lemma exit_test_iff g :
  buffers_wf g -> (exit_test g = true <-> termination_predicate g).
Proof.
  intros [Wr Wt]. unfold exit_test, termination_predicate.
  rewrite Bool.andb_true_iff, !Bool.orb_true_iff, Bool.andb_true_iff.
  rewrite (hasData_zero_iff_empty _ Wr), (hasData_zero_iff_empty _ Wt).
  reflexivity.
Qed.

Lemma continue_with_control r g c :
  continue_with r = Some (g, c) -> c = Continue.
Proof.
  destruct r; simpl; intros H; inversion H; reflexivity.
Qed.

(** The [switch] never takes the graceful way out. *)
Lemma dispatch_not_graceful dev fuel waited lastErr g g' c :
  dispatch dev fuel waited lastErr g = Some (g', c) -> c <> BreakGracefully.
Proof.
  unfold dispatch. intros H.
  repeat match type of H with
         | (if ?b then _ else _) = _ => destruct b
         end;
    try (apply continue_with_control in H; subst; discriminate);
    inversion H; discriminate.
Qed.

(** C1: in every turn of the loop of main the termination predicate,
    (outputDone or receive queue empty) and (deviceDone or (inputDone and
    transmit queue empty)), is evaluated before the wait, and the turn
    leaves the loop gracefully exactly when the predicate holds; the loop
    then ends with exit code 0 pending the final adjustment. *)
Theorem graceful_exit_iff (dev : nat -> Answer) (fuel : nat) (t : Tick)
    (rest : list Tick) (g : Globals) :
  let g0 := run_actions (before_check t) g in
  buffers_wf g0 ->
  ((exists g', main_turn dev fuel t g = Some (g', BreakGracefully)) <->
   termination_predicate g0) /\
  (termination_predicate g0 ->
   main_turn dev fuel t g = Some (g0, BreakGracefully) /\
   main_loop dev fuel (t :: rest) g = Some (0, g0)).
Proof.
  intros g0 W. pose proof (exit_test_iff g0 W) as Hiff.
  assert (Hturn : termination_predicate g0 ->
                  main_turn dev fuel t g = Some (g0, BreakGracefully)).
  { intros HP. unfold main_turn. fold g0.
    rewrite (proj2 Hiff HP). reflexivity. }
  split; [split|].
  - intros [g' H]. unfold main_turn in H. fold g0 in H.
    destruct (exit_test g0) eqn:E; [apply Hiff; reflexivity|].
    apply dispatch_not_graceful in H. congruence.
  - intros HP. exists g0. apply Hturn, HP.
  - intros HP. split; [apply Hturn, HP|].
    cbn [main_loop]. rewrite (Hturn HP). reflexivity.
Qed.

Lemma graceful_exit_iff_witness :
  let g := set_comDone true session_start in
  ((exists g', main_turn (fun _ => mkAnswer true 0 0 0) 1 (mkTick [] [] None 0) g
               = Some (g', BreakGracefully)) <->
   termination_predicate g) /\
  (termination_predicate g ->
   main_turn (fun _ => mkAnswer true 0 0 0) 1 (mkTick [] [] None 0) g
     = Some (g, BreakGracefully) /\
   main_loop (fun _ => mkAnswer true 0 0 0) 1 [mkTick [] [] None 0] g
     = Some (0, g)).
Proof.
  intro g.
  apply (graceful_exit_iff (fun _ => mkAnswer true 0 0 0) 1
           (mkTick [] [] None 0) [] g).
  split; vm_compute; repeat split; discriminate.
Defined.

(** ** The loop of main: the wait *)





(** ** The log is write-only

    Nothing the program does depends on what it has logged: running any
    part of it on globals whose log has [l] written in front gives the same
    result with [l] in front. *)

Module LogFrame.

Lemma comEventMask_prepend l g : comEventMask (prepend_log l g) = comEventMask g.
Proof. reflexivity. Qed.

Lemma comEventError_prepend l g : comEventError (prepend_log l g) = comEventError g.
Proof. reflexivity. Qed.

Lemma comRxError_prepend l g : comRxError (prepend_log l g) = comRxError g.
Proof. reflexivity. Qed.

Lemma comTxError_prepend l g : comTxError (prepend_log l g) = comTxError g.
Proof. reflexivity. Qed.

Lemma comDone_prepend l g : comDone (prepend_log l g) = comDone g.
Proof. reflexivity. Qed.

Lemma stdinDone_prepend l g : stdinDone (prepend_log l g) = stdinDone g.
Proof. reflexivity. Qed.

Lemma stdoutDone_prepend l g : stdoutDone (prepend_log l g) = stdoutDone g.
Proof. reflexivity. Qed.

Lemma logFile_prepend l g : logFile (prepend_log l g) = logFile g.
Proof. reflexivity. Qed.

Lemma rxBuffer_prepend l g : rxBuffer (prepend_log l g) = rxBuffer g.
Proof. reflexivity. Qed.

Lemma txBuffer_prepend l g : txBuffer (prepend_log l g) = txBuffer g.
Proof. reflexivity. Qed.

Lemma comEventSignal_prepend l g : comEventSignal (prepend_log l g) = comEventSignal g.
Proof. reflexivity. Qed.

Lemma comRxSignal_prepend l g : comRxSignal (prepend_log l g) = comRxSignal g.
Proof. reflexivity. Qed.

Lemma comTxSignal_prepend l g : comTxSignal (prepend_log l g) = comTxSignal g.
Proof. reflexivity. Qed.

Lemma stdinReaderThread_prepend l g : stdinReaderThread (prepend_log l g) = stdinReaderThread g.
Proof. reflexivity. Qed.

Lemma stdoutWriterThread_prepend l g : stdoutWriterThread (prepend_log l g) = stdoutWriterThread g.
Proof. reflexivity. Qed.

Lemma devCalls_prepend l g : devCalls (prepend_log l g) = devCalls g.
Proof. reflexivity. Qed.

Lemma set_comEventMask_prepend v l g :
  set_comEventMask v (prepend_log l g) = prepend_log l (set_comEventMask v g).
Proof. reflexivity. Qed.

Lemma set_comEventError_prepend v l g :
  set_comEventError v (prepend_log l g) = prepend_log l (set_comEventError v g).
Proof. reflexivity. Qed.

Lemma set_comRxError_prepend v l g :
  set_comRxError v (prepend_log l g) = prepend_log l (set_comRxError v g).
Proof. reflexivity. Qed.

Lemma set_comTxError_prepend v l g :
  set_comTxError v (prepend_log l g) = prepend_log l (set_comTxError v g).
Proof. reflexivity. Qed.

Lemma set_comDone_prepend v l g :
  set_comDone v (prepend_log l g) = prepend_log l (set_comDone v g).
Proof. reflexivity. Qed.

Lemma set_stdinDone_prepend v l g :
  set_stdinDone v (prepend_log l g) = prepend_log l (set_stdinDone v g).
Proof. reflexivity. Qed.

Lemma set_stdoutDone_prepend v l g :
  set_stdoutDone v (prepend_log l g) = prepend_log l (set_stdoutDone v g).
Proof. reflexivity. Qed.

Lemma set_logFile_prepend v l g :
  set_logFile v (prepend_log l g) = prepend_log l (set_logFile v g).
Proof. reflexivity. Qed.

Lemma set_rxBuffer_prepend v l g :
  set_rxBuffer v (prepend_log l g) = prepend_log l (set_rxBuffer v g).
Proof. reflexivity. Qed.

Lemma set_txBuffer_prepend v l g :
  set_txBuffer v (prepend_log l g) = prepend_log l (set_txBuffer v g).
Proof. reflexivity. Qed.

Lemma set_comEventSignal_prepend v l g :
  set_comEventSignal v (prepend_log l g) = prepend_log l (set_comEventSignal v g).
Proof. reflexivity. Qed.

Lemma set_comRxSignal_prepend v l g :
  set_comRxSignal v (prepend_log l g) = prepend_log l (set_comRxSignal v g).
Proof. reflexivity. Qed.

Lemma set_comTxSignal_prepend v l g :
  set_comTxSignal v (prepend_log l g) = prepend_log l (set_comTxSignal v g).
Proof. reflexivity. Qed.

Lemma set_stdinReaderThread_prepend v l g :
  set_stdinReaderThread v (prepend_log l g) = prepend_log l (set_stdinReaderThread v g).
Proof. reflexivity. Qed.

Lemma set_stdoutWriterThread_prepend v l g :
  set_stdoutWriterThread v (prepend_log l g) = prepend_log l (set_stdoutWriterThread v g).
Proof. reflexivity. Qed.

Lemma set_devCalls_prepend v l g :
  set_devCalls v (prepend_log l g) = prepend_log l (set_devCalls v g).
Proof. reflexivity. Qed.


Lemma write_log_prepend c l g :
  write_log c (prepend_log l g) = prepend_log l (write_log c g).
Proof.
  unfold write_log. rewrite logFile_prepend.
  destruct (logFile g); [|reflexivity].
  destruct (logLevel >=? level c); [|reflexivity].
  unfold prepend_log, set_logged. simpl. rewrite app_assoc. reflexivity.
Qed.

Lemma write_logs_prepend cs l g :
  write_logs cs (prepend_log l g) = prepend_log l (write_logs cs g).
Proof.
  revert g. unfold write_logs.
  induction cs as [|c cs IH]; intros g; simpl; [reflexivity|].
  rewrite write_log_prepend. apply IH.
Qed.

Lemma logInfo_prepend f a l g :
  logInfo f a (prepend_log l g) = prepend_log l (logInfo f a g).
Proof. apply write_log_prepend. Qed.

Lemma logDebug_prepend f a l g :
  logDebug f a (prepend_log l g) = prepend_log l (logDebug f a g).
Proof. apply write_log_prepend. Qed.

Lemma logTrace_prepend f a l g :
  logTrace f a (prepend_log l g) = prepend_log l (logTrace f a g).
Proof. apply write_log_prepend. Qed.

Lemma logError_prepend f e l g :
  logError f e (prepend_log l g) = prepend_log l (logError f e g).
Proof. apply write_logs_prepend. Qed.

Lemma logIOResult_prepend f e c l g :
  logIOResult f e c (prepend_log l g) = prepend_log l (logIOResult f e c g).
Proof. apply write_logs_prepend. Qed.

Lemma prepend_log_app l1 l2 g :
  prepend_log l1 (prepend_log l2 g) = prepend_log (l1 ++ l2) g.
Proof. unfold prepend_log, set_logged. simpl. rewrite app_assoc. reflexivity. Qed.

Create Rewrite HintDb frame.

#[export] Hint Rewrite

  comEventMask_prepend
  comEventError_prepend
  comRxError_prepend
  comTxError_prepend
  comDone_prepend
  stdinDone_prepend
  stdoutDone_prepend
  logFile_prepend
  rxBuffer_prepend
  txBuffer_prepend
  comEventSignal_prepend
  comRxSignal_prepend
  comTxSignal_prepend
  stdinReaderThread_prepend
  stdoutWriterThread_prepend
  devCalls_prepend
  set_comEventMask_prepend
  set_comEventError_prepend
  set_comRxError_prepend
  set_comTxError_prepend
  set_comDone_prepend
  set_stdinDone_prepend
  set_stdoutDone_prepend
  set_logFile_prepend
  set_rxBuffer_prepend
  set_txBuffer_prepend
  set_comEventSignal_prepend
  set_comRxSignal_prepend
  set_comTxSignal_prepend
  set_stdinReaderThread_prepend
  set_stdoutWriterThread_prepend
  set_devCalls_prepend
  write_log_prepend
  write_logs_prepend
  logInfo_prepend
  logDebug_prepend
  logTrace_prepend
  logError_prepend
  logIOResult_prepend : frame.

Ltac frame := autorewrite with frame.

(** Splits on the tests of the goal, rewriting the frame through. *)
Ltac frame_cases :=
  repeat (frame; try reflexivity;
          match goal with
          | |- context [if ?c then _ else _] => destruct c
          | |- context [match ?x with Some _ => _ | None => _ end] =>
              destruct x
          end);
  frame; try reflexivity.

Lemma rx_addData_prepend n l g :
  rx_addData n (prepend_log l g) = prepend_log l (rx_addData n g).
Proof.
  unfold rx_addData. frame.
  destruct (RingBuffer.addData n (rxBuffer g)). frame. reflexivity.
Qed.

Lemma rx_removeData_prepend n l g :
  rx_removeData n (prepend_log l g) = prepend_log l (rx_removeData n g).
Proof.
  unfold rx_removeData. frame.
  destruct (RingBuffer.removeData n (rxBuffer g)). frame. reflexivity.
Qed.

Lemma tx_addData_prepend n l g :
  tx_addData n (prepend_log l g) = prepend_log l (tx_addData n g).
Proof.
  unfold tx_addData. frame.
  destruct (RingBuffer.addData n (txBuffer g)). frame. reflexivity.
Qed.

Lemma tx_removeData_prepend n l g :
  tx_removeData n (prepend_log l g) = prepend_log l (tx_removeData n g).
Proof.
  unfold tx_removeData. frame.
  destruct (RingBuffer.removeData n (txBuffer g)). frame. reflexivity.
Qed.

#[export] Hint Rewrite rx_addData_prepend rx_removeData_prepend
  tx_addData_prepend tx_removeData_prepend : frame.

Lemma stdinReader_turn_prepend io l g :
  stdinReader_turn io (prepend_log l g)
  = prepend_log l (stdinReader_turn io g).
Proof.
  unfold stdinReader_turn. frame.
  destruct (stdinReaderThread g); try reflexivity. frame_cases.
Qed.

Lemma stdoutWriter_turn_prepend io l g :
  stdoutWriter_turn io (prepend_log l g)
  = prepend_log l (stdoutWriter_turn io g).
Proof.
  unfold stdoutWriter_turn. frame.
  destruct (stdoutWriterThread g); try reflexivity. frame_cases.
Qed.

Lemma act_prepend a l g : act a (prepend_log l g) = prepend_log l (act a g).
Proof.
  destruct a as [io|io|h]; simpl.
  - apply stdinReader_turn_prepend.
  - apply stdoutWriter_turn_prepend.
  - destruct h; reflexivity.
Qed.

Lemma run_actions_prepend acts l g :
  run_actions acts (prepend_log l g) = prepend_log l (run_actions acts g).
Proof.
  revert g. unfold run_actions.
  induction acts as [|a acts IH]; intros g; simpl; [reflexivity|].
  rewrite act_prepend. apply IH.
Qed.

#[export] Hint Rewrite stdinReader_turn_prepend stdoutWriter_turn_prepend
  act_prepend run_actions_prepend : frame.

End LogFrame.

Module DriverFrame.
Import LogFrame.

Section WithDevice.

Variable dev : nat -> Answer.

Lemma comRx_issue_prepend l g :
  comRx_issue dev (prepend_log l g)
  = option_map (on_first (prepend_log l)) (comRx_issue dev g).
Proof.
  unfold comRx_issue, device_call. cbv beta iota zeta. frame_cases.
Qed.

Lemma comRx_complete_prepend buffer b l g :
  comRx_complete dev buffer b (prepend_log l g)
  = flow_map (prepend_log l) (comRx_complete dev buffer b g).
Proof.
  unfold comRx_complete, device_call. cbv beta iota zeta. frame_cases.
Qed.

Lemma comRx_body_prepend l g :
  comRx_body dev (prepend_log l g)
  = flow_map (prepend_log l) (comRx_body dev g).
Proof.
  unfold comRx_body. cbv zeta. rewrite comRx_issue_prepend. frame.
  destruct (comRx_issue dev g) as [[g1 b]|]; simpl; [|reflexivity].
  apply comRx_complete_prepend.
Qed.

Lemma comRx_loop_prepend fuel l g :
  comRx_loop dev fuel (prepend_log l g)
  = option_map (prepend_log l) (comRx_loop dev fuel g).
Proof.
  revert g. induction fuel as [|fuel IH]; intros g; simpl; [reflexivity|].
  frame. destruct (comDone g); [reflexivity|].
  rewrite comRx_body_prepend.
  destruct (comRx_body dev g) as [g'|g']; simpl; [reflexivity|apply IH].
Qed.

Lemma comRx_prepend fuel l g :
  comRx dev fuel (prepend_log l g)
  = option_map (prepend_log l) (comRx dev fuel g).
Proof. unfold comRx. frame. apply comRx_loop_prepend. Qed.

Lemma comTx_issue_prepend l g :
  comTx_issue dev (prepend_log l g)
  = option_map (on_first (prepend_log l)) (comTx_issue dev g).
Proof.
  unfold comTx_issue, device_call. cbv beta iota zeta. frame_cases.
Qed.

Lemma comTx_complete_prepend buffer b l g :
  comTx_complete dev buffer b (prepend_log l g)
  = flow_map (prepend_log l) (comTx_complete dev buffer b g).
Proof.
  unfold comTx_complete, device_call. cbv beta iota zeta. frame_cases.
Qed.

Lemma comTx_body_prepend l g :
  comTx_body dev (prepend_log l g)
  = flow_map (prepend_log l) (comTx_body dev g).
Proof.
  unfold comTx_body. cbv zeta. rewrite comTx_issue_prepend. frame.
  destruct (comTx_issue dev g) as [[g1 b]|]; simpl; [|reflexivity].
  apply comTx_complete_prepend.
Qed.

Lemma comTx_loop_prepend fuel l g :
  comTx_loop dev fuel (prepend_log l g)
  = option_map (prepend_log l) (comTx_loop dev fuel g).
Proof.
  revert g. induction fuel as [|fuel IH]; intros g; simpl; [reflexivity|].
  frame. destruct (comDone g); [reflexivity|].
  rewrite comTx_body_prepend.
  destruct (comTx_body dev g) as [g'|g']; simpl; [reflexivity|apply IH].
Qed.

Lemma comTx_prepend fuel l g :
  comTx dev fuel (prepend_log l g)
  = option_map (prepend_log l) (comTx dev fuel g).
Proof. unfold comTx. frame. apply comTx_loop_prepend. Qed.

Lemma store_mask_prepend a l g :
  store_mask a (prepend_log l g) = prepend_log l (store_mask a g).
Proof. unfold store_mask. destruct (succeeded a); reflexivity. Qed.

Lemma comEvent_trace_prepend l g :
  comEvent_trace (prepend_log l g) = prepend_log l (comEvent_trace g).
Proof.
  unfold comEvent_trace. destruct (logLevel >=? TRACE); [|reflexivity].
  cbv zeta. frame. reflexivity.
Qed.

Lemma comEvent_issue_prepend l g :
  comEvent_issue dev (prepend_log l g)
  = prepend_log l (comEvent_issue dev g).
Proof.
  unfold comEvent_issue, device_call. cbv beta iota zeta. frame.
  destruct (in_flight (comEventError g)); [reflexivity|].
  rewrite store_mask_prepend. frame. reflexivity.
Qed.

Lemma comEvent_poll_prepend l g :
  comEvent_poll dev (prepend_log l g)
  = flow_map (prepend_log l) (comEvent_poll dev g).
Proof.
  unfold comEvent_poll, device_call. cbv beta iota zeta. frame.
  destruct (in_flight (comEventError g)).
  - rewrite store_mask_prepend. frame. reflexivity.
  - destruct (comEventError g =? ERROR_SUCCESS); frame; reflexivity.
Qed.

Lemma comEvent_serve_prepend fuel l g :
  comEvent_serve dev fuel (prepend_log l g)
  = option_map (prepend_log l) (comEvent_serve dev fuel g).
Proof.
  unfold comEvent_serve. cbv zeta. frame.
  rewrite comEvent_trace_prepend. frame.
  destruct (Z.land (comEventMask (comEvent_trace (set_comEventSignal false g)))
              EV_RXCHAR =? 0).
  - simpl. frame.
    destruct (Z.land _ EV_TXEMPTY =? 0); [reflexivity|]. apply comTx_prepend.
  - rewrite comRx_prepend.
    destruct (comRx dev fuel _) as [g1|]; simpl; [|reflexivity]. frame.
    destruct (Z.land _ EV_TXEMPTY =? 0); [reflexivity|]. apply comTx_prepend.
Qed.

Lemma comEvent_body_prepend fuel l g :
  comEvent_body dev fuel (prepend_log l g)
  = option_map (flow_map (prepend_log l)) (comEvent_body dev fuel g).
Proof.
  unfold comEvent_body. rewrite comEvent_issue_prepend, comEvent_poll_prepend.
  destruct (comEvent_poll dev (comEvent_issue dev g)) as [g1|g1]; simpl;
    [reflexivity|]. frame.
  destruct (in_flight (comEventError g1)); [reflexivity|].
  destruct (comEventError g1 =? ERROR_SUCCESS).
  - rewrite comEvent_serve_prepend.
    destruct (comEvent_serve dev fuel g1); reflexivity.
  - frame. reflexivity.
Qed.

Lemma comEvent_prepend fuel l g :
  comEvent dev fuel (prepend_log l g)
  = option_map (prepend_log l) (comEvent dev fuel g).
Proof.
  revert g. induction fuel as [|fuel IH]; intros g; simpl; [reflexivity|].
  frame. destruct (comDone g); [reflexivity|].
  rewrite comEvent_body_prepend.
  destruct (comEvent_body dev fuel g) as [[g'|g']|]; simpl;
    [reflexivity|apply IH|reflexivity].
Qed.

End WithDevice.

End DriverFrame.

Module MainFrame.
Import LogFrame DriverFrame.

Lemma signaled_prepend l g h : signaled (prepend_log l g) h = signaled g h.
Proof. destruct h; reflexivity. Qed.

Lemma first_signaled_prepend l g hs i :
  first_signaled (prepend_log l g) hs i = first_signaled g hs i.
Proof.
  revert i. induction hs as [|h hs IH]; intros i; simpl; [reflexivity|].
  rewrite signaled_prepend, IH. reflexivity.
Qed.

Lemma all_signaled_prepend l g hs :
  forallb (signaled (prepend_log l g)) hs = forallb (signaled g) hs.
Proof.
  induction hs as [|h hs IH]; simpl; [reflexivity|].
  rewrite signaled_prepend, IH. reflexivity.
Qed.

Lemma WaitForMultipleObjects_prepend n hs all ms l g o :
  WaitForMultipleObjects n hs all ms (prepend_log l g) o
  = WaitForMultipleObjects n hs all ms g o.
Proof.
  unfold WaitForMultipleObjects. destruct o; [reflexivity|].
  rewrite first_signaled_prepend, all_signaled_prepend. reflexivity.
Qed.

Lemma exit_test_prepend l g : exit_test (prepend_log l g) = exit_test g.
Proof. reflexivity. Qed.

Section WithDevice.

Variable dev : nat -> Answer.

Lemma on_timeout_prepend fuel l g :
  on_timeout dev fuel (prepend_log l g)
  = option_map (prepend_log l) (on_timeout dev fuel g).
Proof.
  unfold on_timeout. cbv zeta. frame.
  set (g1 := logTrace "WAIT_TIMEOUT" [] g).
  destruct (negb (RingBuffer.hasSpace (rxBuffer g1) =? 0)
            && (comRxError g1 =? ERROR_SUCCESS)).
  - rewrite comRx_prepend.
    destruct (comRx dev fuel _) as [g2|]; simpl; [|reflexivity]. frame.
    destruct (negb (RingBuffer.hasData (txBuffer g2) =? 0)
              && (comTxError g2 =? ERROR_SUCCESS)); [|reflexivity].
    rewrite comTx_prepend. reflexivity.
  - frame.
    destruct (negb (RingBuffer.hasData (txBuffer g1) =? 0)
              && (comTxError g1 =? ERROR_SUCCESS)); [|reflexivity].
    rewrite comTx_prepend. reflexivity.
Qed.

Lemma continue_with_map f r :
  continue_with (option_map f r) = option_map (on_first f) (continue_with r).
Proof. destruct r; reflexivity. Qed.

Lemma dispatch_prepend fuel waited lastErr l g :
  dispatch dev fuel waited lastErr (prepend_log l g)
  = option_map (on_first (prepend_log l)) (dispatch dev fuel waited lastErr g).
Proof.
  unfold dispatch. frame.
  rewrite comEvent_prepend, comRx_prepend, comTx_prepend, on_timeout_prepend.
  rewrite !continue_with_map.
  repeat match goal with
         | |- context [if ?c then _ else _] => destruct c
         end; reflexivity.
Qed.

Lemma main_turn_prepend fuel t l g :
  main_turn dev fuel t (prepend_log l g)
  = option_map (on_first (prepend_log l)) (main_turn dev fuel t g).
Proof.
  unfold main_turn. cbv zeta. frame. rewrite exit_test_prepend.
  destruct (exit_test (run_actions (before_check t) g)); [reflexivity|].
  rewrite WaitForMultipleObjects_prepend. apply dispatch_prepend.
Qed.

Lemma main_loop_prepend fuel ticks l g :
  main_loop dev fuel ticks (prepend_log l g)
  = option_map (on_second (prepend_log l)) (main_loop dev fuel ticks g).
Proof.
  revert g. induction ticks as [|t ticks IH]; intros g; simpl; [reflexivity|].
  rewrite main_turn_prepend.
  destruct (main_turn dev fuel t g) as [[g' [| |code]]|]; simpl;
    try reflexivity.
  apply IH.
Qed.

End WithDevice.

Lemma finish_prepend code l g :
  finish code (prepend_log l g) = on_second (prepend_log l) (finish code g).
Proof. unfold finish. cbv zeta. frame. reflexivity. Qed.

Lemma start_session_prepend l g :
  start_session (prepend_log l g) = prepend_log l (start_session g).
Proof. reflexivity. Qed.

(** Any globals are their own image without a log, with their log put
    back in front. *)
Lemma globals_as_prepend g : g = prepend_log (logged g) (set_logged [] g).
Proof.
  destruct g. unfold prepend_log, set_logged. simpl.
  rewrite app_nil_r. reflexivity.
Qed.

(** The exit code of a session does not depend on the log it starts
    with. *)
Lemma session_exit_code_log_free dev fuel ticks g l :
  option_map (fun r => fst (finish (fst r) (snd r)))
    (main_loop dev fuel ticks (start_session (set_logged l g)))
  = option_map (fun r => fst (finish (fst r) (snd r)))
      (main_loop dev fuel ticks (start_session g)).
Proof.
  assert (H : forall l',
    option_map (fun r => fst (finish (fst r) (snd r)))
      (main_loop dev fuel ticks (start_session (set_logged l' g)))
    = option_map (fun r => fst (finish (fst r) (snd r)))
        (main_loop dev fuel ticks (start_session (set_logged [] g)))).
  { intros l'.
    rewrite (globals_as_prepend (set_logged l' g)).
    change (set_logged [] (set_logged l' g)) with (set_logged [] g).
    rewrite start_session_prepend, main_loop_prepend.
    destruct (main_loop dev fuel ticks (start_session (set_logged [] g)))
      as [[code g']|]; cbn [option_map on_second fst snd]; [|reflexivity].
    rewrite finish_prepend. reflexivity. }
  rewrite (H l). rewrite <- (H (logged g)).
  replace (set_logged (logged g) g) with g by (destruct g; reflexivity).
  reflexivity.
Qed.

End MainFrame.

(** ** main and the configuration of the device *)

Lemma write_logs_sets_log cs g : exists l, write_logs cs g = set_logged l g.
Proof.
  revert g. unfold write_logs.
  induction cs as [|c cs IH]; intros g; simpl.
  - exists (logged g). destruct g; reflexivity.
  - unfold write_log at 2. destruct (logFile g); [|apply IH].
    destruct (logLevel >=? level c); [|apply IH].
    destruct (IH (set_logged (logged g ++ [c]) g)) as [l Hl].
    exists l. rewrite Hl. reflexivity.
Qed.

(** [setComm] changes nothing but the log. *)
Lemma setComm_sets_log e g : exists l, snd (setComm e g) = set_logged l g.
Proof.
  unfold setComm.
  destruct (GetCommState_ok e), (SetCommState_ok e), (SetCommTimeouts_ok e),
    (SetCommMask_ok e); simpl;
    try apply write_logs_sets_log.
  exists (logged g). destruct g; reflexivity.
Qed.

(** [setComm] returns 0 exactly when the four calls succeed. *)
Lemma setComm_code e g :
  fst (setComm e g) = 0 <->
  GetCommState_ok e = true /\ SetCommState_ok e = true /\
  SetCommTimeouts_ok e = true /\ SetCommMask_ok e = true.
Proof.
  unfold setComm.
  destruct (GetCommState_ok e), (SetCommState_ok e), (SetCommTimeouts_ok e),
    (SetCommMask_ok e); simpl; intuition discriminate.
Qed.

Lemma main_loop_finish_fst r :
  option_map fst
    (match r with
     | None => None
     | Some (exitCode, g) => Some (finish exitCode g)
     end)
  = option_map (fun x : Z * Globals => fst (finish (fst x) (snd x))) r.
Proof. destruct r as [[c g]|]; reflexivity. Qed.

(** C10: main ignores the result of [setComm].  Whenever [setComm] fails,
    the exit status of the run is the one of the same run with a device
    that accepts its configuration, and, the arguments and the port being
    in order, the two threads are started and the run is the loop of main
    followed by the final statements. *)
Theorem setComm_result_ignored (e : Env) :
  fst (setComm e initial) <> 0 ->
  option_map fst (main e) = option_map fst (main (comm_ok e)) /\
  (2 <= argc e -> (argc e > 2 -> fopen_ok e = true) ->
   CreateFile_ok e = true ->
   exists g0,
     stdinReaderThread g0 = Running /\ stdoutWriterThread g0 = Running /\
     main e = option_map (fun r : Z * Globals => finish (fst r) (snd r))
                (main_loop (device e) (fuel e) (ticks e) g0)).
Proof.
  intros _. split.
  - unfold main. cbn [argc argv fopen_ok CreateFile_ok CreateFile_error
                        device ticks fuel comm_ok].
    destruct (argc e <? 2); [reflexivity|].
    destruct (if argc e >? 2
              then if fopen_ok e
                   then Some (fopened (nth 2 (argv e) EmptyString)) else None
              else Some stderr) as [f|]; [|reflexivity].
    destruct (CreateFile_ok e); [|reflexivity]. cbn [negb].
    set (g1 := logDebug "CreateFile(%s)" _ _).
    destruct (setComm_sets_log e g1) as [l Hl]. rewrite Hl.
    replace (snd (setComm (comm_ok e) g1)) with g1 by reflexivity.
    rewrite !main_loop_finish_fst.
    apply MainFrame.session_exit_code_log_free.
  - intros Hargc Hopen Hcf. unfold main.
    replace (argc e <? 2) with false by (symmetry; apply Z.ltb_ge; lia).
    assert (Hf : exists f,
               (if argc e >? 2
                then if fopen_ok e
                     then Some (fopened (nth 2 (argv e) EmptyString)) else None
                else Some stderr) = Some f).
    { destruct (Z.gtb_spec (argc e) 2) as [H|H].
      - rewrite Hopen by lia. eexists. reflexivity.
      - eexists. reflexivity. }
    destruct Hf as [f ->]. rewrite Hcf. cbn [negb].
    set (g1 := logDebug "CreateFile(%s)" _ _).
    exists (start_session (snd (setComm e g1))).
    split; [reflexivity|]. split; [reflexivity|].
    destruct (main_loop _ _ _ _) as [[c g]|]; reflexivity.
Qed.

Lemma setComm_result_ignored_witness :
  fst (setComm refused_config_env initial) <> 0 /\
  (option_map fst (main refused_config_env)
   = option_map fst (main (comm_ok refused_config_env)) /\
   (2 <= argc refused_config_env ->
    (argc refused_config_env > 2 -> fopen_ok refused_config_env = true) ->
    CreateFile_ok refused_config_env = true ->
    exists g0,
      stdinReaderThread g0 = Running /\ stdoutWriterThread g0 = Running /\
      main refused_config_env
      = option_map (fun r : Z * Globals => finish (fst r) (snd r))
          (main_loop (device refused_config_env) (fuel refused_config_env)
             (ticks refused_config_env) g0))).
Proof.
  assert (H : fst (setComm refused_config_env initial) <> 0)
    by (vm_compute; discriminate).
  split; [exact H|]. apply (setComm_result_ignored refused_config_env H).
Defined.

Example refused_config_run :
  fst (setComm refused_config_env initial) = 2 /\
  option_map fst (main refused_config_env) = Some 6.
Proof. vm_compute. split; reflexivity. Qed.

(** ** What the driver touches *)

Module Footprint.

Lemma write_log_eq c g :
  write_log c g = set_logged (logged g ++ written [c] g) g.
Proof.
  unfold write_log, written. destruct (logFile g); simpl.
  - destruct (logLevel >=? level c); [reflexivity|].
    rewrite app_nil_r. destruct g; reflexivity.
  - rewrite app_nil_r. destruct g; reflexivity.
Qed.

Lemma written_cons c cs g : written (c :: cs) g = written [c] g ++ written cs g.
Proof.
  unfold written. destruct (logFile g); [|reflexivity]. simpl.
  destruct (logLevel >=? level c); reflexivity.
Qed.

Lemma written_set_logged cs l g : written cs (set_logged l g) = written cs g.
Proof. reflexivity. Qed.

Lemma write_logs_eq cs g :
  write_logs cs g = set_logged (logged g ++ written cs g) g.
Proof.
  revert g. unfold write_logs.
  induction cs as [|c cs IH]; intros g; simpl.
  - unfold written. destruct (logFile g); simpl; rewrite app_nil_r;
      destruct g; reflexivity.
  - rewrite IH, write_log_eq. rewrite written_set_logged.
    rewrite (written_cons c cs). unfold set_logged. simpl.
    rewrite app_assoc. reflexivity.
Qed.

Lemma count_format_app f a b :
  count_format f (a ++ b) = (count_format f a + count_format f b)%nat.
Proof. unfold count_format. rewrite filter_app, length_app. reflexivity. Qed.

Lemma count_format_written f cs g :
  count_format f cs = O -> count_format f (written cs g) = O.
Proof.
  unfold written. destruct (logFile g); [|reflexivity].
  unfold count_format. induction cs as [|c cs IH]; simpl; [reflexivity|].
  destruct (String.eqb (format c) f) eqn:E; simpl; [discriminate|].
  intros H. destruct (logLevel >=? level c); simpl; [rewrite E|]; auto.
Qed.


Lemma quiet_log_trans g1 g2 g3 :
  quiet_log g1 g2 -> quiet_log g2 g3 -> quiet_log g1 g3.
Proof.
  intros (l1 & E1 & A1 & B1) (l2 & E2 & A2 & B2). exists (l1 ++ l2).
  rewrite E2, E1, app_assoc, !count_format_app, A1, A2, B1, B2. auto.
Qed.

(** Writing lines that are no retry lines keeps the log quiet. *)
Lemma quiet_log_write cs g g' :
  count_format "comRx retry" cs = O -> count_format "comTx retry" cs = O ->
  quiet_log g g' -> quiet_log g (write_logs cs g').
Proof.
  intros A B Q. apply (quiet_log_trans g g'); [exact Q|].
  rewrite write_logs_eq. exists (written cs g'). simpl.
  split; [reflexivity|]. split; apply count_format_written; assumption.
Qed.

Lemma quiet_log_same_log g g' :
  logged g' = logged g -> quiet_log g g'.
Proof. intros E. exists []. rewrite app_nil_r. auto. Qed.






End Footprint.

Module DriverFootprint.
Import Footprint.



























Ltac split_ifs :=
  repeat match goal with
         | |- context [if ?c then _ else _] => destruct c eqn:?
         end.

Section WithDevice.

Variable dev : nat -> Answer.







End WithDevice.

End DriverFootprint.

(** ** The driver loops end

    This is about the loops as [comRx_loop] and [comTx_loop] run them, one
    turn after the other with the buffer left alone in between; it gives
    the calls of the driver a result to state properties of, and is no
    bound on the turns of a call that runs beside the pump threads. *)

Module DriverTermination.
Import Footprint DriverFootprint.

(** Reads the fields of globals through the setters and the log calls. *)
Ltac globals_norm :=
  unfold logInfo, logDebug, logTrace, logError, logIOResult in *;
  rewrite ?write_logs_eq, ?write_log_eq in *;
  cbn [comEventMask comEventError comRxError comTxError comDone stdinDone
       stdoutDone logFile rxBuffer txBuffer comEventSignal comRxSignal
       comTxSignal stdinReaderThread stdoutWriterThread devCalls logged
       set_comEventMask set_comEventError set_comRxError set_comTxError
       set_comDone set_stdinDone set_stdoutDone set_logFile set_rxBuffer
       set_txBuffer set_comEventSignal set_comRxSignal set_comTxSignal
       set_stdinReaderThread set_stdoutWriterThread set_devCalls set_logged]
    in *.




Lemma removeData_occupancy_drop rb n :
  RingBuffer.wf rb -> 0 < n ->
  RingBuffer.occupancy (fst (RingBuffer.removeData n rb))
  = RingBuffer.occupancy rb - Z.min n (RingBuffer.findData rb).
Proof. apply removeData_occupancy. Qed.

Section WithDevice.

Variable dev : nat -> Answer.








End WithDevice.

End DriverTermination.

(** ** What the pump threads touch *)

Module PumpFacts.
Import Footprint DriverFootprint DriverTermination.

Lemma tx_addData_fields n g :
  txBuffer (tx_addData n g) = fst (RingBuffer.addData n (txBuffer g)) /\
  rxBuffer (tx_addData n g) = rxBuffer g /\
  logFile (tx_addData n g) = logFile g /\
  comDone (tx_addData n g) = comDone g /\
  comRxError (tx_addData n g) = comRxError g /\
  comTxError (tx_addData n g) = comTxError g /\
  stdinDone (tx_addData n g) = stdinDone g /\
  stdoutDone (tx_addData n g) = stdoutDone g.
Proof.
  unfold tx_addData. destruct (RingBuffer.addData n (txBuffer g)).
  globals_norm. repeat split; reflexivity.
Qed.

Lemma rx_removeData_fields n g :
  rxBuffer (rx_removeData n g) = fst (RingBuffer.removeData n (rxBuffer g)) /\
  txBuffer (rx_removeData n g) = txBuffer g /\
  logFile (rx_removeData n g) = logFile g /\
  comDone (rx_removeData n g) = comDone g /\
  comRxError (rx_removeData n g) = comRxError g /\
  comTxError (rx_removeData n g) = comTxError g /\
  stdinDone (rx_removeData n g) = stdinDone g /\
  stdoutDone (rx_removeData n g) = stdoutDone g.
Proof.
  unfold rx_removeData. destruct (RingBuffer.removeData n (rxBuffer g)).
  globals_norm. repeat split; reflexivity.
Qed.

(** A turn of [stdinReader] leaves the receive side and the driver alone
    and at most commits bytes to the transmit buffer. *)
Lemma stdinReader_turn_fields io g :
  let g' := stdinReader_turn io g in
  rxBuffer g' = rxBuffer g /\ logFile g' = logFile g /\
  comDone g' = comDone g /\ comRxError g' = comRxError g /\
  comTxError g' = comTxError g /\ stdoutDone g' = stdoutDone g /\
  (txBuffer g' = txBuffer g \/
   exists n, txBuffer g' = fst (RingBuffer.addData n (txBuffer g))).
Proof.
  cbv zeta. unfold stdinReader_turn.
  destruct (stdinReaderThread g); try (repeat split; auto; fail).
  destruct (RingBuffer.hasSpace (txBuffer g) <=? 0);
    [repeat split; auto|].
  rewrite dword_never_negative.
  set (g1 := logDebug _ _ g).
  assert (H1 : rxBuffer g1 = rxBuffer g /\ logFile g1 = logFile g /\
               comDone g1 = comDone g /\ comRxError g1 = comRxError g /\
               comTxError g1 = comTxError g /\ stdoutDone g1 = stdoutDone g /\
               txBuffer g1 = txBuffer g).
  { subst g1. globals_norm. repeat split; reflexivity. }
  destruct H1 as (E1 & E2 & E3 & E4 & E5 & E6 & E7).
  destruct (tx_addData_fields (dword (result io)) g1)
    as (F1 & F2 & F3 & F4 & F5 & F6 & F7 & F8).
  destruct (dword (result io) =? 0); cbn [rxBuffer logFile comDone comRxError
    comTxError stdoutDone txBuffer set_stdinReaderThread set_stdinDone];
    repeat split; try congruence;
    right; exists (dword (result io)); congruence.
Qed.

(** A turn of [stdoutWriter] leaves the transmit side, the driver and all
    three completion flags alone and at most consumes bytes of the receive
    buffer. *)
Lemma stdoutWriter_turn_fields io g :
  let g' := stdoutWriter_turn io g in
  txBuffer g' = txBuffer g /\ logFile g' = logFile g /\
  comDone g' = comDone g /\ comRxError g' = comRxError g /\
  comTxError g' = comTxError g /\ stdinDone g' = stdinDone g /\
  stdoutDone g' = stdoutDone g /\
  stdoutWriterThread g' = stdoutWriterThread g /\
  (rxBuffer g' = rxBuffer g \/
   exists n, rxBuffer g' = fst (RingBuffer.removeData n (rxBuffer g))).
Proof.
  cbv zeta. unfold stdoutWriter_turn.
  destruct (stdoutWriterThread g) eqn:HT; try (repeat split; auto; fail).
  destruct (RingBuffer.hasData (rxBuffer g) <=? 0);
    [repeat split; auto|].
  rewrite dword_never_negative.
  set (g1 := logDebug _ _ g).
  assert (H1 : txBuffer g1 = txBuffer g /\ logFile g1 = logFile g /\
               comDone g1 = comDone g /\ comRxError g1 = comRxError g /\
               comTxError g1 = comTxError g /\ stdinDone g1 = stdinDone g /\
               stdoutDone g1 = stdoutDone g /\
               stdoutWriterThread g1 = stdoutWriterThread g /\
               rxBuffer g1 = rxBuffer g).
  { subst g1. globals_norm. repeat split; reflexivity. }
  destruct H1 as (E1 & E2 & E3 & E4 & E5 & E6 & E7 & E8 & E9).
  destruct (rx_removeData_fields (dword (result io)) g1)
    as (F1 & F2 & F3 & F4 & F5 & F6 & F7 & F8).
  assert (F9 : stdoutWriterThread (rx_removeData (dword (result io)) g1)
               = stdoutWriterThread g1).
  { unfold rx_removeData.
    destruct (RingBuffer.removeData (dword (result io)) (rxBuffer g1)).
    globals_norm. reflexivity. }
  repeat split; try congruence.
  right. exists (dword (result io)). congruence.
Qed.





End PumpFacts.

(** ** The loop of main: the timeout *)

Module Timeout.
Import Footprint DriverFootprint DriverTermination PumpFacts.

Section WithDevice.

Variable dev : nat -> Answer.






End WithDevice.

End Timeout.

Module TimeoutClaims.
Import Footprint DriverFootprint DriverTermination PumpFacts Timeout.




End TimeoutClaims.

Import Footprint DriverFootprint DriverTermination PumpFacts Timeout
  TimeoutClaims.


(** * Further properties of the code *)

(** ** RingBuffer: clamping, exact counts, draining and filling *)

(** [removeData(n)] with n greater than [hasData()] consumes exactly
    [hasData()] bytes, logs the underrun, and leaves both indices inside
    the backing array. *)
Theorem removeData_underrun_clamps (rb : RingBuffer.t) (n : Z) :
  RingBuffer.wf rb -> n > RingBuffer.hasData rb ->
  let rb' := fst (RingBuffer.removeData n rb) in
  snd (RingBuffer.removeData n rb) =
    [mkLog INFO "buffer underrun %d > %d" [AInt n; AInt (RingBuffer.hasData rb)]] /\
  RingBuffer.occupancy rb' = RingBuffer.occupancy rb - RingBuffer.hasData rb /\
  RingBuffer.spaceIndex rb' = RingBuffer.spaceIndex rb /\
  RingBuffer.dataIndex rb' =
    RingBuffer.advance (RingBuffer.bufferSize rb) (RingBuffer.dataIndex rb)
      (RingBuffer.hasData rb) /\
  RingBuffer.capacity rb' = RingBuffer.capacity rb /\
  RingBuffer.wf rb'.
Proof.
  intros W Hover. cbv zeta. unfold RingBuffer.hasData in *.
  pose proof (findData_le_occupancy rb W) as Hf.
  assert (Hn : 0 < n) by lia.
  pose proof (removeData_wf rb n W) as W'.
  pose proof (removeData_occupancy rb n W Hn) as Ho.
  destruct (removeData_indices rb n W Hn) as (EB & Es & Ed).
  rewrite Z.min_r in Ho, Ed by lia.
  split.
  { rewrite (removeData_wf_eq rb n W Hn). cbv zeta. cbn [snd].
    replace (n >? RingBuffer.findData rb) with true; [reflexivity|].
    symmetry. apply Z.gtb_lt. lia. }
  unfold RingBuffer.capacity. rewrite EB. auto.
Qed.

Lemma removeData_underrun_clamps_witness :
  let rb := fst (RingBuffer.addData 3 (RingBuffer.new 4)) in
  RingBuffer.wf rb /\ 9 > RingBuffer.hasData rb /\
  RingBuffer.occupancy (fst (RingBuffer.removeData 9 rb)) = 0.
Proof.
  intro rb.
  assert (W : RingBuffer.wf rb) by (vm_compute; repeat split; discriminate).
  assert (H : 9 > RingBuffer.hasData rb) by (vm_compute; reflexivity).
  split; [exact W|]. split; [exact H|].
  destruct (removeData_underrun_clamps rb 9 W H) as (_ & E & _).
  rewrite E. vm_compute. reflexivity.
Defined.

(** Whatever count they are given, [addData] and [removeData] keep both
    indices inside the backing array and the capacity as it is; with a
    count that fits they move exactly that many bytes and log nothing. *)
Theorem counts_that_fit_are_exact (rb : RingBuffer.t) (n : Z) :
  RingBuffer.wf rb ->
  (RingBuffer.wf (fst (RingBuffer.addData n rb)) /\
   RingBuffer.wf (fst (RingBuffer.removeData n rb))) /\
  (0 < n <= RingBuffer.hasSpace rb ->
   RingBuffer.occupancy (fst (RingBuffer.addData n rb))
   = RingBuffer.occupancy rb + n /\
   RingBuffer.dataIndex (fst (RingBuffer.addData n rb))
   = RingBuffer.dataIndex rb /\
   snd (RingBuffer.addData n rb) = []) /\
  (0 < n <= RingBuffer.hasData rb ->
   RingBuffer.occupancy (fst (RingBuffer.removeData n rb))
   = RingBuffer.occupancy rb - n /\
   RingBuffer.spaceIndex (fst (RingBuffer.removeData n rb))
   = RingBuffer.spaceIndex rb /\
   snd (RingBuffer.removeData n rb) = []).
Proof.
  intros W. split; [split; [apply addData_wf|apply removeData_wf]; exact W|].
  unfold RingBuffer.hasSpace, RingBuffer.hasData. split; intros [Hn Hfit].
  - rewrite (addData_occupancy rb n W Hn), Z.min_l by lia.
    destruct (addData_indices rb n W Hn) as (_ & Ed & _).
    split; [reflexivity|]. split; [exact Ed|].
    rewrite (addData_wf_eq rb n W Hn). cbv zeta. cbn [snd].
    replace (n >? RingBuffer.findSpace rb) with false; [reflexivity|].
    symmetry. rewrite Z.gtb_ltb. apply Z.ltb_ge. lia.
  - rewrite (removeData_occupancy rb n W Hn), Z.min_l by lia.
    destruct (removeData_indices rb n W Hn) as (_ & Es & _).
    split; [reflexivity|]. split; [exact Es|].
    rewrite (removeData_wf_eq rb n W Hn). cbv zeta. cbn [snd].
    replace (n >? RingBuffer.findData rb) with false; [reflexivity|].
    symmetry. rewrite Z.gtb_ltb. apply Z.ltb_ge. lia.
Qed.

Lemma counts_that_fit_are_exact_witness :
  let rb := fst (RingBuffer.addData 3 (RingBuffer.new 4)) in
  RingBuffer.wf rb /\
  (0 < 2 <= RingBuffer.hasData rb ->
   RingBuffer.occupancy (fst (RingBuffer.removeData 2 rb))
   = RingBuffer.occupancy rb - 2 /\
   RingBuffer.spaceIndex (fst (RingBuffer.removeData 2 rb))
   = RingBuffer.spaceIndex rb /\
   snd (RingBuffer.removeData 2 rb) = []).
Proof.
  intro rb.
  assert (W : RingBuffer.wf rb) by (vm_compute; repeat split; discriminate).
  split; [exact W|].
  exact (proj2 (proj2 (counts_that_fit_are_exact rb 2 W))).
Defined.

(** The index a full [removeData(hasData())] leaves the read index on. *)
Lemma drain_once rb :
  RingBuffer.wf rb ->
  let rb1 := fst (RingBuffer.removeData (RingBuffer.findData rb) rb) in
  RingBuffer.wf rb1 /\
  RingBuffer.bufferSize rb1 = RingBuffer.bufferSize rb /\
  RingBuffer.spaceIndex rb1 = RingBuffer.spaceIndex rb /\
  RingBuffer.dataIndex rb1 =
    (if RingBuffer.spaceIndex rb >=? RingBuffer.dataIndex rb
     then RingBuffer.spaceIndex rb else 0) /\
  snd (RingBuffer.removeData (RingBuffer.findData rb) rb) = [].
Proof.
  intros W. cbv zeta.
  pose proof (findData_le_occupancy rb W) as Hle.
  pose proof (removeData_wf rb (RingBuffer.findData rb) W) as W1.
  split; [exact W1|].
  destruct (Z.eq_dec (RingBuffer.findData rb) 0) as [E0|E0].
  - rewrite E0, removeData_idle by lia. cbn [fst snd].
    repeat split; try reflexivity. revert E0. measures rb W; lia.
  - assert (Hn : 0 < RingBuffer.findData rb) by lia.
    destruct (removeData_indices rb _ W Hn) as (EB & Es & Ed).
    rewrite Z.min_id in Ed. split; [exact EB|]. split; [exact Es|]. split.
    + rewrite Ed. unfold RingBuffer.advance. revert E0.
      destruct (Z.eqb_spec (RingBuffer.dataIndex rb + RingBuffer.findData rb)
                  (RingBuffer.bufferSize rb)) as [E|E]; revert E;
        measures rb W; lia.
    + rewrite (removeData_wf_eq rb _ W Hn). cbv zeta. cbn [snd].
      replace (RingBuffer.findData rb >? RingBuffer.findData rb) with false;
        [reflexivity|].
      symmetry. rewrite Z.gtb_ltb. apply Z.ltb_irrefl.
Qed.

(** A consumer that takes [hasData()] bytes at a time has emptied the
    buffer after two calls at most (one for each side of the wrap), and
    no underrun is logged on the way. *)
Theorem drained_in_two_calls (rb : RingBuffer.t) :
  RingBuffer.wf rb ->
  let rb1 := fst (RingBuffer.removeData (RingBuffer.hasData rb) rb) in
  let rb2 := fst (RingBuffer.removeData (RingBuffer.hasData rb1) rb1) in
  RingBuffer.occupancy rb2 = 0 /\ RingBuffer.hasData rb2 = 0 /\
  RingBuffer.isEmpty rb2 /\
  RingBuffer.occupancy rb1 = RingBuffer.occupancy rb - RingBuffer.hasData rb /\
  snd (RingBuffer.removeData (RingBuffer.hasData rb) rb) = [] /\
  snd (RingBuffer.removeData (RingBuffer.hasData rb1) rb1) = [].
Proof.
  intros W. cbv zeta. unfold RingBuffer.hasData.
  destruct (drain_once rb W) as (W1 & B1 & S1 & D1 & L1).
  destruct (drain_once _ W1) as (W2 & B2 & S2 & D2 & L2).
  set (rb1 := fst (RingBuffer.removeData (RingBuffer.findData rb) rb)) in *.
  set (rb2 := fst (RingBuffer.removeData (RingBuffer.findData rb1) rb1)) in *.
  assert (E : RingBuffer.dataIndex rb2 = RingBuffer.spaceIndex rb2).
  { rewrite D2, S2, D1, S1. destruct W as (HB & Hd & Hs).
    destruct (Z.geb_spec (RingBuffer.spaceIndex rb) (RingBuffer.dataIndex rb)).
    - destruct (Z.geb_spec (RingBuffer.spaceIndex rb) (RingBuffer.spaceIndex rb));
        lia.
    - destruct (Z.geb_spec (RingBuffer.spaceIndex rb) 0); lia. }
  assert (O2 : RingBuffer.occupancy rb2 = 0).
  { rewrite (occupancy_wf _ W2), E.
    destruct (Z.geb_spec (RingBuffer.spaceIndex rb2) (RingBuffer.spaceIndex rb2));
      lia. }
  split; [exact O2|]. split; [apply (findData_zero_iff _ W2), O2|].
  split; [exact E|]. split; [|split; assumption].
  rewrite (occupancy_wf _ W1), B1, S1, D1. clear - W.
  measures rb W;
    destruct (Z.geb_spec (RingBuffer.spaceIndex rb) (RingBuffer.spaceIndex rb));
    destruct (Z.geb_spec (RingBuffer.spaceIndex rb) 0); lia.
Qed.

Lemma drained_in_two_calls_witness :
  let rb := RingBuffer.run [RingBuffer.OpAdd 4; RingBuffer.OpRemove 3;
                            RingBuffer.OpAdd 1; RingBuffer.OpAdd 2]
              (RingBuffer.new 4) in
  let rb1 := fst (RingBuffer.removeData (RingBuffer.hasData rb) rb) in
  let rb2 := fst (RingBuffer.removeData (RingBuffer.hasData rb1) rb1) in
  RingBuffer.wf rb /\ RingBuffer.occupancy rb = 4 /\
  RingBuffer.occupancy rb1 = 2 /\ RingBuffer.occupancy rb2 = 0.
Proof.
  intros rb rb1 rb2.
  assert (W : RingBuffer.wf rb) by (vm_compute; repeat split; discriminate).
  split; [exact W|]. split; [reflexivity|]. split; [reflexivity|].
  exact (proj1 (drained_in_two_calls rb W)).
Defined.

(** The index a full [addData(hasSpace())] leaves the write index on. *)
Lemma fill_once rb :
  RingBuffer.wf rb ->
  let rb1 := fst (RingBuffer.addData (RingBuffer.findSpace rb) rb) in
  RingBuffer.wf rb1 /\
  RingBuffer.bufferSize rb1 = RingBuffer.bufferSize rb /\
  RingBuffer.dataIndex rb1 = RingBuffer.dataIndex rb /\
  RingBuffer.spaceIndex rb1 =
    (if RingBuffer.spaceIndex rb >=? RingBuffer.dataIndex rb
     then if RingBuffer.dataIndex rb =? 0
          then RingBuffer.bufferSize rb - 1 else 0
     else RingBuffer.dataIndex rb - 1) /\
  snd (RingBuffer.addData (RingBuffer.findSpace rb) rb) = [].
Proof.
  intros W. cbv zeta.
  pose proof (findSpace_le_free rb W) as Hle.
  pose proof (addData_wf rb (RingBuffer.findSpace rb) W) as W1.
  split; [exact W1|].
  destruct (Z.eq_dec (RingBuffer.findSpace rb) 0) as [E0|E0].
  - rewrite E0, addData_idle by lia. cbn [fst snd].
    repeat split; try reflexivity. revert E0. measures rb W; lia.
  - assert (Hn : 0 < RingBuffer.findSpace rb) by lia.
    destruct (addData_indices rb _ W Hn) as (EB & Ed & Es).
    rewrite Z.min_id in Es. split; [exact EB|]. split; [exact Ed|]. split.
    + rewrite Es. unfold RingBuffer.advance. revert E0.
      destruct (Z.eqb_spec (RingBuffer.spaceIndex rb + RingBuffer.findSpace rb)
                  (RingBuffer.bufferSize rb)) as [E|E]; revert E;
        measures rb W; lia.
    + rewrite (addData_wf_eq rb _ W Hn). cbv zeta. cbn [snd].
      replace (RingBuffer.findSpace rb >? RingBuffer.findSpace rb) with false;
        [reflexivity|].
      symmetry. rewrite Z.gtb_ltb. apply Z.ltb_irrefl.
Qed.

(** A producer that commits [hasSpace()] bytes at a time has filled the
    buffer to its capacity after two calls at most, and no overrun is
    logged on the way. *)
Theorem filled_in_two_calls (rb : RingBuffer.t) :
  RingBuffer.wf rb ->
  let rb1 := fst (RingBuffer.addData (RingBuffer.hasSpace rb) rb) in
  let rb2 := fst (RingBuffer.addData (RingBuffer.hasSpace rb1) rb1) in
  RingBuffer.occupancy rb2 = RingBuffer.capacity rb /\
  RingBuffer.hasSpace rb2 = 0 /\
  RingBuffer.occupancy rb1 = RingBuffer.occupancy rb + RingBuffer.hasSpace rb /\
  snd (RingBuffer.addData (RingBuffer.hasSpace rb) rb) = [] /\
  snd (RingBuffer.addData (RingBuffer.hasSpace rb1) rb1) = [].
Proof.
  intros W. cbv zeta. unfold RingBuffer.hasSpace.
  destruct (fill_once rb W) as (W1 & B1 & D1 & S1 & L1).
  destruct (fill_once _ W1) as (W2 & B2 & D2 & S2 & L2).
  set (rb1 := fst (RingBuffer.addData (RingBuffer.findSpace rb) rb)) in *.
  set (rb2 := fst (RingBuffer.addData (RingBuffer.findSpace rb1) rb1)) in *.
  assert (O2 : RingBuffer.occupancy rb2 = RingBuffer.capacity rb).
  { rewrite (occupancy_wf _ W2), B2, B1, D2, D1, S2, D1, S1, B1.
    unfold RingBuffer.capacity. clear - W. destruct W as (HB & Hd & Hs).
    destruct (Z.geb_spec (RingBuffer.spaceIndex rb) (RingBuffer.dataIndex rb));
      destruct (Z.eqb_spec (RingBuffer.dataIndex rb) 0);
    repeat match goal with
           | |- context [?a >=? ?b] => destruct (Z.geb_spec a b)
           | |- context [?a =? ?b] => destruct (Z.eqb_spec a b)
           end; lia. }
  split; [exact O2|]. split.
  { apply (findSpace_zero_iff _ W2). rewrite O2.
    unfold RingBuffer.capacity. rewrite B2, B1. reflexivity. }
  split; [|split; assumption].
  rewrite (occupancy_wf _ W1), B1, S1, D1. clear - W.
  measures rb W;
    repeat match goal with
           | |- context [?a >=? ?b] => destruct (Z.geb_spec a b)
           | |- context [?a =? ?b] => destruct (Z.eqb_spec a b)
           end; lia.
Qed.

Lemma filled_in_two_calls_witness :
  let rb := RingBuffer.run [RingBuffer.OpAdd 3; RingBuffer.OpRemove 2]
              (RingBuffer.new 4) in
  let rb1 := fst (RingBuffer.addData (RingBuffer.hasSpace rb) rb) in
  let rb2 := fst (RingBuffer.addData (RingBuffer.hasSpace rb1) rb1) in
  RingBuffer.wf rb /\ RingBuffer.occupancy rb = 1 /\
  RingBuffer.occupancy rb1 = 3 /\ RingBuffer.occupancy rb2 = 4.
Proof.
  intros rb rb1 rb2.
  assert (W : RingBuffer.wf rb) by (vm_compute; repeat split; discriminate).
  split; [exact W|]. split; [reflexivity|]. split; [reflexivity|].
  exact (proj1 (filled_in_two_calls rb W)).
Defined.

(** ** What a whole session keeps *)

Module SessionProgress.
Import Footprint DriverFootprint DriverTermination PumpFacts.

Lemma reaches_refl rb : reaches rb rb.
Proof. exists []. reflexivity. Qed.

Lemma run_app ops1 ops2 rb :
  RingBuffer.run (ops1 ++ ops2) rb = RingBuffer.run ops2 (RingBuffer.run ops1 rb).
Proof. unfold RingBuffer.run. apply fold_left_app. Qed.

Lemma reaches_trans rb1 rb2 rb3 :
  reaches rb1 rb2 -> reaches rb2 rb3 -> reaches rb1 rb3.
Proof.
  intros [o1 E1] [o2 E2]. exists (o1 ++ o2). rewrite run_app. congruence.
Qed.

Lemma reaches_step o rb rb' :
  reaches rb rb' -> reaches rb (RingBuffer.exec o rb').
Proof.
  intros H. apply (reaches_trans rb rb'); [exact H|]. exists [o]. reflexivity.
Qed.

Lemma reaches_wf rb rb' :
  reaches rb rb' -> RingBuffer.wf rb ->
  RingBuffer.wf rb' /\ RingBuffer.capacity rb' = RingBuffer.capacity rb.
Proof.
  intros [ops ->]. revert rb. unfold RingBuffer.run.
  induction ops as [|o ops IH]; intros rb W; simpl; [auto|].
  destruct (IH _ (exec_wf o rb W)) as [W' E]. split; [exact W'|].
  rewrite E. unfold RingBuffer.capacity.
  rewrite (exec_bufferSize o rb W). reflexivity.
Qed.

Lemma reaches_reachable C rb rb' :
  reaches rb rb' -> RingBuffer.reachable C rb -> RingBuffer.reachable C rb'.
Proof. intros [ops ->] R. apply run_reachable, R. Qed.

Lemma progress_refl g : progress g g.
Proof.
  unfold progress. repeat split; auto using reaches_refl.
Qed.

Lemma progress_trans g1 g2 g3 :
  progress g1 g2 -> progress g2 g3 -> progress g1 g3.
Proof.
  unfold progress.
  intros (A1 & A2 & A3 & A4 & A5 & A6 & A7 & A8)
         (B1 & B2 & B3 & B4 & B5 & B6 & B7 & B8).
  repeat split; try congruence; auto; try lia;
    eapply reaches_trans; eassumption.
Qed.

Lemma pg_comEventMask v g g' : progress g g' -> progress g (set_comEventMask v g').
Proof. intros H. exact H. Qed.

Lemma pg_comEventError v g g' : progress g g' -> progress g (set_comEventError v g').
Proof. intros H. exact H. Qed.

Lemma pg_comRxError v g g' : progress g g' -> progress g (set_comRxError v g').
Proof. intros H. exact H. Qed.

Lemma pg_comTxError v g g' : progress g g' -> progress g (set_comTxError v g').
Proof. intros H. exact H. Qed.

Lemma pg_comEventSignal v g g' : progress g g' -> progress g (set_comEventSignal v g').
Proof. intros H. exact H. Qed.

Lemma pg_comRxSignal v g g' : progress g g' -> progress g (set_comRxSignal v g').
Proof. intros H. exact H. Qed.

Lemma pg_comTxSignal v g g' : progress g g' -> progress g (set_comTxSignal v g').
Proof. intros H. exact H. Qed.

Lemma pg_stdinReaderThread v g g' : progress g g' -> progress g (set_stdinReaderThread v g').
Proof. intros H. exact H. Qed.

Lemma pg_devCalls g g' :
  progress g g' -> progress g (set_devCalls (S (devCalls g')) g').
Proof.
  unfold progress. intros (A1 & A2 & A3 & A4 & A5 & A6 & A7 & A8).
  repeat split; auto. cbn. lia.
Qed.

Lemma pg_comDone g g' : progress g g' -> progress g (set_comDone true g').
Proof.
  unfold progress. intros (A1 & A2 & A3 & A4 & A5 & A6 & A7 & A8).
  repeat split; auto.
Qed.

Lemma pg_stdinDone g g' : progress g g' -> progress g (set_stdinDone true g').
Proof.
  unfold progress. intros (A1 & A2 & A3 & A4 & A5 & A6 & A7 & A8).
  repeat split; auto.
Qed.

Lemma pg_logs cs g g' : progress g g' -> progress g (write_logs cs g').
Proof. intros H. rewrite write_logs_eq. exact H. Qed.

Lemma pg_log c g g' : progress g g' -> progress g (write_log c g').
Proof. intros H. rewrite write_log_eq. exact H. Qed.

Lemma pg_logInfo f a g g' : progress g g' -> progress g (logInfo f a g').
Proof. apply pg_log. Qed.

Lemma pg_logDebug f a g g' : progress g g' -> progress g (logDebug f a g').
Proof. apply pg_log. Qed.

Lemma pg_logTrace f a g g' : progress g g' -> progress g (logTrace f a g').
Proof. apply pg_log. Qed.

Lemma pg_logError f e g g' : progress g g' -> progress g (logError f e g').
Proof. apply pg_logs. Qed.

Lemma pg_logIOResult f e n g g' :
  progress g g' -> progress g (logIOResult f e n g').
Proof. apply pg_logs. Qed.

Lemma pg_rxBuffer o g g' :
  progress g g' ->
  progress g (set_rxBuffer (RingBuffer.exec o (rxBuffer g')) g').
Proof.
  unfold progress. intros (A1 & A2 & A3 & A4 & A5 & A6 & A7 & A8).
  repeat split; auto. cbn. apply reaches_step, A6.
Qed.

Lemma pg_txBuffer o g g' :
  progress g g' ->
  progress g (set_txBuffer (RingBuffer.exec o (txBuffer g')) g').
Proof.
  unfold progress. intros (A1 & A2 & A3 & A4 & A5 & A6 & A7 & A8).
  repeat split; auto. cbn. apply reaches_step, A7.
Qed.

Lemma pg_rx_addData n g g' :
  progress g g' -> progress g (rx_addData n g').
Proof.
  intros H. unfold rx_addData.
  pose proof (pg_rxBuffer (RingBuffer.OpAdd n) g g' H) as H1.
  cbn [RingBuffer.exec] in H1.
  destruct (RingBuffer.addData n (rxBuffer g')) as [rb logs].
  apply pg_logs. exact H1.
Qed.

Lemma pg_rx_removeData n g g' :
  progress g g' -> progress g (rx_removeData n g').
Proof.
  intros H. unfold rx_removeData.
  pose proof (pg_rxBuffer (RingBuffer.OpRemove n) g g' H) as H1.
  cbn [RingBuffer.exec] in H1.
  destruct (RingBuffer.removeData n (rxBuffer g')) as [rb logs].
  apply pg_logs. exact H1.
Qed.

Lemma pg_tx_addData n g g' :
  progress g g' -> progress g (tx_addData n g').
Proof.
  intros H. unfold tx_addData.
  pose proof (pg_txBuffer (RingBuffer.OpAdd n) g g' H) as H1.
  cbn [RingBuffer.exec] in H1.
  destruct (RingBuffer.addData n (txBuffer g')) as [rb logs].
  apply pg_logs. exact H1.
Qed.

Lemma pg_tx_removeData n g g' :
  progress g g' -> progress g (tx_removeData n g').
Proof.
  intros H. unfold tx_removeData.
  pose proof (pg_txBuffer (RingBuffer.OpRemove n) g g' H) as H1.
  cbn [RingBuffer.exec] in H1.
  destruct (RingBuffer.removeData n (txBuffer g')) as [rb logs].
  apply pg_logs. exact H1.
Qed.


Lemma pg_store_mask a g g' : progress g g' -> progress g (store_mask a g').
Proof. intros H. unfold store_mask. destruct (succeeded a); exact H. Qed.

Lemma pg_comEvent_trace g g' :
  progress g g' -> progress g (comEvent_trace g').
Proof.
  intros H. unfold comEvent_trace. destruct (logLevel >=? TRACE); [|exact H].
  apply pg_logTrace, H.
Qed.

(** Unwinds the statements of any part of the session, last one first. *)
Ltac pg_step :=
  lazymatch goal with
  | |- progress _ (set_devCalls _ _) => apply pg_devCalls
  | |- progress _ (set_comDone true _) => apply pg_comDone
  | |- progress _ (set_stdinDone true _) => apply pg_stdinDone
  | |- progress _ (set_comEventMask _ _) => apply pg_comEventMask
  | |- progress _ (set_comEventError _ _) => apply pg_comEventError
  | |- progress _ (set_comRxError _ _) => apply pg_comRxError
  | |- progress _ (set_comTxError _ _) => apply pg_comTxError
  | |- progress _ (set_comEventSignal _ _) => apply pg_comEventSignal
  | |- progress _ (set_comRxSignal _ _) => apply pg_comRxSignal
  | |- progress _ (set_comTxSignal _ _) => apply pg_comTxSignal
  | |- progress _ (set_stdinReaderThread _ _) => apply pg_stdinReaderThread
  | |- progress _ (logError _ _ _) => apply pg_logError
  | |- progress _ (logIOResult _ _ _ _) => apply pg_logIOResult
  | |- progress _ (logDebug _ _ _) => apply pg_logDebug
  | |- progress _ (logTrace _ _ _) => apply pg_logTrace
  | |- progress _ (logInfo _ _ _) => apply pg_logInfo
  | |- progress _ (rx_addData _ _) => apply pg_rx_addData
  | |- progress _ (rx_removeData _ _) => apply pg_rx_removeData
  | |- progress _ (tx_addData _ _) => apply pg_tx_addData
  | |- progress _ (tx_removeData _ _) => apply pg_tx_removeData
  | |- progress _ (store_mask _ _) => apply pg_store_mask
  | |- progress _ (comEvent_trace _) => apply pg_comEvent_trace
  | |- progress _ (set_rxBuffer (RingBuffer.set_notFull false _) _) =>
      apply (pg_rxBuffer RingBuffer.OpResetNotFull)
  | |- progress _ (set_txBuffer (RingBuffer.set_notEmpty false _) _) =>
      apply (pg_txBuffer RingBuffer.OpResetNotEmpty)
  | |- progress ?g ?g => apply progress_refl
  | |- progress _ _ => assumption
  end.

Ltac pg_chain := repeat pg_step.

Section WithDevice.

Variable dev : nat -> Answer.

Lemma comRx_body_progresses g : progress g (flow_globals (comRx_body dev g)).
Proof.
  unfold comRx_body, comRx_issue, comRx_complete, device_call.
  cbv beta iota zeta. split_ifs; cbn [flow_globals]; pg_chain.
Qed.

Lemma comRx_loop_progresses fuel g g' :
  comRx_loop dev fuel g = Some g' -> progress g g'.
Proof.
  revert g. induction fuel as [|fuel IH]; intros g; simpl; [discriminate|].
  destruct (comDone g).
  - intros H. inversion H. apply progress_refl.
  - pose proof (comRx_body_progresses g) as Hb.
    destruct (comRx_body dev g) as [g1|g1]; simpl in Hb.
    + intros H. inversion H. subst. exact Hb.
    + intros H. apply (progress_trans g g1); [exact Hb|]. apply IH, H.
Qed.

Lemma comRx_progresses fuel g g' :
  comRx dev fuel g = Some g' -> progress g g'.
Proof.
  unfold comRx. intros H. apply comRx_loop_progresses in H.
  eapply progress_trans; [|exact H]. pg_chain.
Qed.

Lemma comTx_body_progresses g : progress g (flow_globals (comTx_body dev g)).
Proof.
  unfold comTx_body, comTx_issue, comTx_complete, device_call.
  cbv beta iota zeta. split_ifs; cbn [flow_globals]; pg_chain.
Qed.

Lemma comTx_loop_progresses fuel g g' :
  comTx_loop dev fuel g = Some g' -> progress g g'.
Proof.
  revert g. induction fuel as [|fuel IH]; intros g; simpl; [discriminate|].
  destruct (comDone g).
  - intros H. inversion H. apply progress_refl.
  - pose proof (comTx_body_progresses g) as Hb.
    destruct (comTx_body dev g) as [g1|g1]; simpl in Hb.
    + intros H. inversion H. subst. exact Hb.
    + intros H. apply (progress_trans g g1); [exact Hb|]. apply IH, H.
Qed.

Lemma comTx_progresses fuel g g' :
  comTx dev fuel g = Some g' -> progress g g'.
Proof.
  unfold comTx. intros H. apply comTx_loop_progresses in H.
  eapply progress_trans; [|exact H]. pg_chain.
Qed.

Lemma comEvent_issue_progresses g : progress g (comEvent_issue dev g).
Proof.
  unfold comEvent_issue, device_call. cbv beta iota zeta.
  split_ifs; pg_chain.
Qed.

Lemma comEvent_poll_progresses g :
  progress g (flow_globals (comEvent_poll dev g)).
Proof.
  unfold comEvent_poll, device_call. cbv beta iota zeta.
  split_ifs; cbn [flow_globals]; pg_chain.
Qed.

Lemma comEvent_serve_progresses fuel g g' :
  comEvent_serve dev fuel g = Some g' -> progress g g'.
Proof.
  unfold comEvent_serve. cbv zeta.
  set (g0 := comEvent_trace (set_comEventSignal false g)).
  assert (P0 : progress g g0) by (subst g0; pg_chain).
  destruct (Z.land (comEventMask g0) EV_RXCHAR =? 0).
  - destruct (Z.land (comEventMask g0) EV_TXEMPTY =? 0).
    + intros H. inversion H. subst. exact P0.
    + intros H. apply comTx_progresses in H.
      eapply progress_trans; eassumption.
  - destruct (comRx dev fuel g0) as [g1|] eqn:E1; [|discriminate].
    apply comRx_progresses in E1.
    assert (P1 : progress g g1) by (eapply progress_trans; eassumption).
    destruct (Z.land (comEventMask g1) EV_TXEMPTY =? 0).
    + intros H. inversion H. subst. exact P1.
    + intros H. apply comTx_progresses in H.
      eapply progress_trans; eassumption.
Qed.

Lemma comEvent_body_progresses fuel g x :
  comEvent_body dev fuel g = Some x -> progress g (flow_globals x).
Proof.
  unfold comEvent_body.
  pose proof (comEvent_issue_progresses g) as P0.
  pose proof (comEvent_poll_progresses (comEvent_issue dev g)) as P1.
  destruct (comEvent_poll dev (comEvent_issue dev g)) as [g1|g1];
    cbn [flow_globals] in P1;
    assert (P : progress g g1) by (eapply progress_trans; eassumption).
  - intros H. inversion H. exact P.
  - destruct (in_flight (comEventError g1)).
    + intros H. inversion H. exact P.
    + destruct (comEventError g1 =? ERROR_SUCCESS).
      * destruct (comEvent_serve dev fuel g1) as [g2|] eqn:E; [|discriminate].
        apply comEvent_serve_progresses in E.
        intros H. inversion H. cbn [flow_globals].
        eapply progress_trans; eassumption.
      * intros H. inversion H. cbn [flow_globals]. pg_chain.
Qed.

Lemma comEvent_progresses fuel g g' :
  comEvent dev fuel g = Some g' -> progress g g'.
Proof.
  revert g. induction fuel as [|fuel IH]; intros g; simpl; [discriminate|].
  destruct (comDone g).
  - intros H. inversion H. apply progress_refl.
  - destruct (comEvent_body dev fuel g) as [x|] eqn:E; [|discriminate].
    apply comEvent_body_progresses in E.
    destruct x as [g1|g1]; cbn [flow_globals] in E.
    + intros H. inversion H. subst. exact E.
    + intros H. apply IH in H. eapply progress_trans; eassumption.
Qed.

End WithDevice.

End SessionProgress.

Module SessionInvariants.
Import Footprint DriverFootprint DriverTermination PumpFacts SessionProgress.

Lemma stdinReader_turn_progresses io g : progress g (stdinReader_turn io g).
Proof.
  unfold stdinReader_turn.
  destruct (stdinReaderThread g); try apply progress_refl.
  rewrite dword_never_negative. split_ifs; pg_chain.
Qed.

Lemma stdoutWriter_turn_progresses io g : progress g (stdoutWriter_turn io g).
Proof.
  unfold stdoutWriter_turn.
  destruct (stdoutWriterThread g); try apply progress_refl.
  rewrite dword_never_negative. split_ifs; pg_chain.
Qed.

Lemma act_progresses a g : progress g (act a g).
Proof.
  destruct a as [io|io|h]; cbn [act].
  - apply stdinReader_turn_progresses.
  - apply stdoutWriter_turn_progresses.
  - destruct h; pg_chain.
Qed.

Lemma run_actions_progresses acts g : progress g (run_actions acts g).
Proof.
  revert g. unfold run_actions.
  induction acts as [|a acts IH]; intros g; simpl; [apply progress_refl|].
  eapply progress_trans; [apply act_progresses|apply IH].
Qed.

Section WithDevice.

Variable dev : nat -> Answer.

Lemma on_timeout_progresses fuel g g' :
  on_timeout dev fuel g = Some g' -> progress g g'.
Proof.
  unfold on_timeout. cbv zeta.
  set (g0 := logTrace "WAIT_TIMEOUT" [] g).
  assert (P0 : progress g g0) by (subst g0; pg_chain).
  destruct (negb (RingBuffer.hasSpace (rxBuffer g0) =? 0)
            && (comRxError g0 =? ERROR_SUCCESS)).
  - destruct (comRx dev fuel _) as [g1|] eqn:E1; [|discriminate].
    apply comRx_progresses in E1.
    assert (P1 : progress g g1).
    { eapply progress_trans; [|exact E1]. pg_chain. }
    destruct (negb (RingBuffer.hasData (txBuffer g1) =? 0)
              && (comTxError g1 =? ERROR_SUCCESS)).
    + intros H. apply comTx_progresses in H.
      eapply progress_trans; [|exact H]. pg_chain.
    + intros H. inversion H. subst. exact P1.
  - destruct (negb (RingBuffer.hasData (txBuffer g0) =? 0)
              && (comTxError g0 =? ERROR_SUCCESS)).
    + intros H. apply comTx_progresses in H.
      eapply progress_trans; [|exact H]. pg_chain.
    + intros H. inversion H. subst. exact P0.
Qed.

Lemma continue_with_some r g c :
  continue_with r = Some (g, c) -> r = Some g.
Proof. destruct r; simpl; intros H; inversion H; reflexivity. Qed.

Lemma dispatch_progresses fuel waited lastErr g g' c :
  dispatch dev fuel waited lastErr g = Some (g', c) -> progress g g'.
Proof.
  unfold dispatch. intros H.
  repeat match type of H with
         | (if ?b then _ else _) = _ => destruct b
         end;
    try (apply continue_with_some in H);
    first [ apply comEvent_progresses in H; exact H
          | apply comRx_progresses in H; exact H
          | apply comTx_progresses in H; exact H
          | apply on_timeout_progresses in H; exact H
          | inversion H; subst; pg_chain ].
Qed.

Lemma main_turn_progresses fuel t g g' c :
  main_turn dev fuel t g = Some (g', c) -> progress g g'.
Proof.
  unfold main_turn. cbv zeta.
  pose proof (run_actions_progresses (before_check t) g) as P0.
  set (g0 := run_actions (before_check t) g) in *.
  destruct (exit_test g0).
  - intros H. inversion H. subst. exact P0.
  - pose proof (run_actions_progresses (during_wait t) g0) as P1.
    intros H. apply dispatch_progresses in H.
    eapply progress_trans; [exact P0|].
    eapply progress_trans; [exact P1|exact H].
Qed.

Lemma main_loop_progresses fuel ticks g g' code :
  main_loop dev fuel ticks g = Some (code, g') -> progress g g'.
Proof.
  revert g. induction ticks as [|t ticks IH]; intros g; simpl; [discriminate|].
  destruct (main_turn dev fuel t g) as [[g1 c]|] eqn:E; [|discriminate].
  apply main_turn_progresses in E.
  destruct c as [| |code'].
  - intros H. apply IH in H. eapply progress_trans; eassumption.
  - intros H. inversion H. subst. exact E.
  - intros H. inversion H. subst. exact E.
Qed.

(** What the loop of main was left with: 0 on the graceful way out, where
    the test at the top held of the final globals, 4 or 5 otherwise. *)
Lemma main_loop_exit fuel ticks g g' code :
  main_loop dev fuel ticks g = Some (code, g') ->
  (code = 0 /\ exit_test g' = true) \/ code = 4 \/ code = 5.
Proof.
  revert g. induction ticks as [|t ticks IH]; intros g; simpl; [discriminate|].
  destruct (main_turn dev fuel t g) as [[g1 c]|] eqn:E; [|discriminate].
  destruct c as [| |code'].
  - apply IH.
  - intros H. inversion H. subst. left. split; [reflexivity|].
    unfold main_turn in E. cbv zeta in E.
    destruct (exit_test (run_actions (before_check t) g)) eqn:Ex.
    + inversion E. subst. exact Ex.
    + apply dispatch_not_graceful in E. congruence.
  - intros H. inversion H. subst.
    unfold main_turn in E. cbv zeta in E.
    destruct (exit_test (run_actions (before_check t) g)); [discriminate|].
    unfold dispatch in E.
    repeat match type of E with
           | (if ?b then _ else _) = _ => destruct b
           end;
      try (apply continue_with_control in E; discriminate);
      inversion E; auto.
Qed.

End WithDevice.

(** The globals with which [main] enters its loop. *)
Lemma main_cases e code g :
  main e = Some (code, g) ->
  (code = 1 /\ argc e < 2 /\ g = initial) \/
  (code = 2 /\ argc e > 2 /\ fopen_ok e = false /\ g = initial) \/
  (code = 3 /\ 2 <= argc e /\ CreateFile_ok e = false /\
   exists l f, g = set_logged l (set_logFile (Some f) initial)) \/
  (exists l c gl,
     CreateFile_ok e = true /\ 2 <= argc e /\
     main_loop (device e) (fuel e) (ticks e)
       (start_session (set_logged l (set_logFile
          (Some (if argc e >? 2
                 then fopened (nth 2 (argv e) EmptyString) else stderr))
          initial))) = Some (c, gl) /\
     (code, g) = finish c gl).
Proof.
  unfold main.
  destruct (Z.ltb_spec (argc e) 2) as [Ha|Ha].
  - intros H. inversion H. left. auto.
  - destruct (Z.gtb_spec (argc e) 2) as [Hb|Hb].
    + destruct (fopen_ok e) eqn:Ef.
      * destruct (CreateFile_ok e) eqn:Ec; cbn [negb].
        -- set (g1 := logDebug "CreateFile(%s)" _ _).
           destruct (setComm_sets_log e g1) as [l Hl]. rewrite Hl.
           destruct (main_loop _ _ _ _) as [[c gl]|] eqn:El; [|discriminate].
           intros H. inversion H. right. right. right.
           exists l, c, gl. repeat split; auto.
        -- intros H. inversion H. right. right. left.
           split; [reflexivity|]. split; [lia|]. split; [reflexivity|].
           eexists. eexists. reflexivity.
      * intros H. inversion H. right. left. repeat split; auto; lia.
    + destruct (CreateFile_ok e) eqn:Ec; cbn [negb].
      * set (g1 := logDebug "CreateFile(%s)" _ _).
        destruct (setComm_sets_log e g1) as [l Hl]. rewrite Hl.
        destruct (main_loop _ _ _ _) as [[c gl]|] eqn:El; [|discriminate].
        intros H. inversion H. right. right. right.
        exists l, c, gl. repeat split; auto.
      * intros H. inversion H. right. right. left.
        split; [reflexivity|]. split; [lia|]. split; [reflexivity|].
        eexists. eexists. reflexivity.
Qed.

End SessionInvariants.

Import SessionProgress SessionInvariants.

(** ** The events of the two buffers through a session

    The amended statements of C5 and C6 rest on what a session keeps, and
    are proved here. *)

Module ExactSignals.
Import RingBuffer RingBufferFacts RingBufferSteps RingBufferSignals
  RingBufferInvariants.

Lemma exec_capacity o rb : wf rb -> capacity (exec o rb) = capacity rb.
Proof.
  intros W. unfold capacity. rewrite (exec_bufferSize o rb W). reflexivity.
Qed.

(** Every operation but the reset of [notEmpty] keeps [notEmpty] exact. *)
Lemma exec_notEmpty_exact o rb :
  wf rb -> 1 <= capacity rb -> rx_op o = true ->
  notEmpty_exact rb -> notEmpty_exact (exec o rb).
Proof.
  unfold notEmpty_exact. intros W Hcap Ho [H1 H2].
  pose proof (occupancy_range rb W) as Hr.
  destruct o as [n|n| |]; cbn [exec]; try discriminate.
  - destruct (Z.lt_ge_cases 0 n) as [Hn|Hn];
      [|rewrite addData_idle by exact Hn; split; assumption].
    destruct (addData_signals rb n W Hn) as [E _].
    pose proof (addData_occupancy rb n W Hn) as Eo.
    pose proof (findSpace_zero_iff rb W) as Hz.
    pose proof (findSpace_le_free rb W) as Hf. unfold freeSpace in Hf.
    split; [intros _; lia|intros _; exact E].
  - destruct (Z.lt_ge_cases 0 n) as [Hn|Hn];
      [|rewrite removeData_idle by exact Hn; split; assumption].
    destruct (removeData_signals rb n W Hn) as [_ E].
    pose proof (removeData_occupancy rb n W Hn) as Eo.
    pose proof (occupancy_range _ (removeData_wf rb n W)) as Hr'.
    pose proof (findData_le_occupancy rb W) as Hf.
    rewrite E.
    destruct (Z.eqb_spec (occupancy (fst (removeData n rb))) 0) as [E0|E0].
    + split; [discriminate|lia].
    + split; [intros _; lia|intros _; apply H2; lia].
  - split; assumption.
Qed.

(** Every operation but the reset of [notFull] keeps [notFull] exact. *)
Lemma exec_notFull_exact o rb :
  wf rb -> 1 <= capacity rb -> tx_op o = true ->
  notFull_exact rb -> notFull_exact (exec o rb).
Proof.
  unfold notFull_exact. intros W Hcap Ho [H1 H2].
  pose proof (occupancy_range rb W) as Hr.
  rewrite (exec_capacity o rb W).
  destruct o as [n|n| |]; cbn [exec]; try discriminate.
  - destruct (Z.lt_ge_cases 0 n) as [Hn|Hn];
      [|rewrite addData_idle by exact Hn; split; assumption].
    destruct (addData_signals rb n W Hn) as [_ E].
    pose proof (addData_occupancy rb n W Hn) as Eo.
    pose proof (occupancy_range _ (addData_wf rb n W)) as Hr'.
    pose proof (exec_capacity (OpAdd n) rb W) as Ec. cbn [exec] in Ec.
    rewrite Ec in E, Hr'.
    pose proof (findSpace_le_free rb W) as Hf. unfold freeSpace in Hf.
    rewrite E.
    destruct (Z.eqb_spec (occupancy (fst (addData n rb))) (capacity rb))
      as [E0|E0].
    + split; [discriminate|lia].
    + split; [intros _; lia|intros _; apply H2; lia].
  - destruct (Z.lt_ge_cases 0 n) as [Hn|Hn];
      [|rewrite removeData_idle by exact Hn; split; assumption].
    destruct (removeData_signals rb n W Hn) as [E _].
    pose proof (removeData_occupancy rb n W Hn) as Eo.
    pose proof (findData_zero_iff rb W) as Hz.
    pose proof (findData_le_occupancy rb W) as Hf.
    split; [intros _; lia|intros _; exact E].
  - split; assumption.
Qed.

Lemma new_exact C :
  1 <= C < INT_MAX -> notEmpty_exact (new C) /\ notFull_exact (new C).
Proof.
  intros HC. assert (V : valid_capacity C) by (unfold valid_capacity; lia).
  pose proof (new_capacity C V) as Hcap.
  pose proof (occupancy_wf _ (new_wf C V)) as Ho.
  change (occupancy (new C) = 0) in Ho.
  unfold notEmpty_exact, notFull_exact. rewrite Hcap, Ho.
  change (notEmpty (new C)) with false. change (notFull (new C)) with true.
  split; split; intros; try reflexivity; try discriminate; lia.
Qed.

Lemma run_notEmpty_exact ops :
  forall rb,
    wf rb -> 1 <= capacity rb -> forallb rx_op ops = true ->
    notEmpty_exact rb -> notEmpty_exact (run ops rb).
Proof.
  unfold run. induction ops as [|o ops IH]; intros rb W Hcap Ho E;
    cbn [fold_left]; [exact E|].
  cbn [forallb] in Ho. apply andb_prop in Ho. destruct Ho as [Ho Hops].
  apply IH; auto using exec_wf, exec_notEmpty_exact.
  rewrite exec_capacity; assumption.
Qed.

Lemma run_notFull_exact ops :
  forall rb,
    wf rb -> 1 <= capacity rb -> forallb tx_op ops = true ->
    notFull_exact rb -> notFull_exact (run ops rb).
Proof.
  unfold run. induction ops as [|o ops IH]; intros rb W Hcap Ho E;
    cbn [fold_left]; [exact E|].
  cbn [forallb] in Ho. apply andb_prop in Ho. destruct Ho as [Ho Hops].
  apply IH; auto using exec_wf, exec_notFull_exact.
  rewrite exec_capacity; assumption.
Qed.

Lemma reached_reachable allowed C rb :
  reached_by allowed C rb -> reachable C rb.
Proof. intros (ops & _ & ->). apply run_reachable, reach_new. Qed.

Lemma reached_notEmpty_exact C rb :
  1 <= C < INT_MAX -> reached_by rx_op C rb -> notEmpty_exact rb.
Proof.
  intros HC (ops & Ho & ->).
  assert (V : valid_capacity C) by (unfold valid_capacity; lia).
  apply run_notEmpty_exact; auto using new_wf.
  - rewrite new_capacity by exact V. lia.
  - apply new_exact, HC.
Qed.

Lemma reached_notFull_exact C rb :
  1 <= C < INT_MAX -> reached_by tx_op C rb -> notFull_exact rb.
Proof.
  intros HC (ops & Ho & ->).
  assert (V : valid_capacity C) by (unfold valid_capacity; lia).
  apply run_notFull_exact; auto using new_wf.
  - rewrite new_capacity by exact V. lia.
  - apply new_exact, HC.
Qed.

Lemma reached_step allowed C o rb :
  allowed o = true -> reached_by allowed C rb ->
  reached_by allowed C (exec o rb).
Proof.
  intros Ho (ops & Hops & ->). exists (ops ++ [o]). split.
  - rewrite forallb_app, Hops. cbn. rewrite Ho. reflexivity.
  - unfold run. rewrite fold_left_app. reflexivity.
Qed.

(** The buffers of a session have the events that the statement of the
    invariant lists. *)
Lemma session_buffers_signals g : session_buffers g -> session_signals g.
Proof.
  intros [Hr Ht].
  assert (HC : 1 <= 128 < INT_MAX) by (unfold INT_MAX; lia).
  assert (V : valid_capacity 128) by (unfold valid_capacity, INT_MAX; lia).
  destruct (reachable_wf 128 _ V (reached_reachable _ _ _ Hr)) as [Wr Cr].
  destruct (reachable_wf 128 _ V (reached_reachable _ _ _ Ht)) as [Wt Ct].
  destruct (reachable_signals_sound 128 _ HC (reached_reachable _ _ _ Hr))
    as [_ Sr].
  destruct (reachable_signals_sound 128 _ HC (reached_reachable _ _ _ Ht))
    as [St _].
  rewrite Cr in Sr.
  unfold session_signals. repeat split; auto;
    first [ apply (reached_notEmpty_exact 128 _ HC Hr)
          | apply (reached_notFull_exact 128 _ HC Ht) ].
Qed.

End ExactSignals.

Module SessionSignals.
Import Footprint DriverFootprint ExactSignals.

Lemma sb_same_buffers g g' :
  rxBuffer g' = rxBuffer g -> txBuffer g' = txBuffer g ->
  session_buffers g -> session_buffers g'.
Proof. unfold session_buffers. intros -> ->. auto. Qed.

Lemma sb_logs cs g : session_buffers g -> session_buffers (write_logs cs g).
Proof. rewrite write_logs_eq. auto. Qed.

Lemma sb_log c g : session_buffers g -> session_buffers (write_log c g).
Proof. rewrite write_log_eq. auto. Qed.

Lemma sb_rx_op o g :
  rx_op o = true -> session_buffers g ->
  session_buffers (set_rxBuffer (RingBuffer.exec o (rxBuffer g)) g).
Proof.
  intros Ho [Hr Ht]. split; [|exact Ht]. cbn [rxBuffer set_rxBuffer].
  apply reached_step; assumption.
Qed.

Lemma sb_tx_op o g :
  tx_op o = true -> session_buffers g ->
  session_buffers (set_txBuffer (RingBuffer.exec o (txBuffer g)) g).
Proof.
  intros Ho [Hr Ht]. split; [exact Hr|]. cbn [txBuffer set_txBuffer].
  apply reached_step; assumption.
Qed.

Lemma sb_rx_addData n g : session_buffers g -> session_buffers (rx_addData n g).
Proof.
  intros H. unfold rx_addData.
  pose proof (sb_rx_op (RingBuffer.OpAdd n) g eq_refl H) as H1.
  cbn [RingBuffer.exec] in H1.
  destruct (RingBuffer.addData n (rxBuffer g)) as [rb logs].
  apply sb_logs. exact H1.
Qed.

Lemma sb_rx_removeData n g :
  session_buffers g -> session_buffers (rx_removeData n g).
Proof.
  intros H. unfold rx_removeData.
  pose proof (sb_rx_op (RingBuffer.OpRemove n) g eq_refl H) as H1.
  cbn [RingBuffer.exec] in H1.
  destruct (RingBuffer.removeData n (rxBuffer g)) as [rb logs].
  apply sb_logs. exact H1.
Qed.

Lemma sb_tx_addData n g : session_buffers g -> session_buffers (tx_addData n g).
Proof.
  intros H. unfold tx_addData.
  pose proof (sb_tx_op (RingBuffer.OpAdd n) g eq_refl H) as H1.
  cbn [RingBuffer.exec] in H1.
  destruct (RingBuffer.addData n (txBuffer g)) as [rb logs].
  apply sb_logs. exact H1.
Qed.

Lemma sb_tx_removeData n g :
  session_buffers g -> session_buffers (tx_removeData n g).
Proof.
  intros H. unfold tx_removeData.
  pose proof (sb_tx_op (RingBuffer.OpRemove n) g eq_refl H) as H1.
  cbn [RingBuffer.exec] in H1.
  destruct (RingBuffer.removeData n (txBuffer g)) as [rb logs].
  apply sb_logs. exact H1.
Qed.

(** Unwinds the statements of any part of the session, last one first:
    the ring buffer calls and the two resets are operations of their
    buffer, every other statement leaves both buffers as they are. *)
Ltac sb_step :=
  lazymatch goal with
  | |- session_buffers (rx_addData _ _) => apply sb_rx_addData
  | |- session_buffers (rx_removeData _ _) => apply sb_rx_removeData
  | |- session_buffers (tx_addData _ _) => apply sb_tx_addData
  | |- session_buffers (tx_removeData _ _) => apply sb_tx_removeData
  | |- session_buffers (set_rxBuffer (RingBuffer.set_notFull false _) _) =>
      apply (sb_rx_op RingBuffer.OpResetNotFull); [reflexivity|]
  | |- session_buffers (set_txBuffer (RingBuffer.set_notEmpty false _) _) =>
      apply (sb_tx_op RingBuffer.OpResetNotEmpty); [reflexivity|]
  | |- session_buffers (logError _ _ _) => apply sb_logs
  | |- session_buffers (logIOResult _ _ _ _) => apply sb_logs
  | |- session_buffers (logDebug _ _ _) => apply sb_log
  | |- session_buffers (logTrace _ _ _) => apply sb_log
  | |- session_buffers (logInfo _ _ _) => apply sb_log
  | |- session_buffers (store_mask ?a ?g) =>
      unfold store_mask; destruct (succeeded a)
  | |- session_buffers (comEvent_trace ?g) =>
      unfold comEvent_trace; destruct (logLevel >=? TRACE)
  | |- session_buffers (set_devCalls _ ?g) => change (session_buffers g)
  | |- session_buffers (set_comDone _ ?g) => change (session_buffers g)
  | |- session_buffers (set_stdinDone _ ?g) => change (session_buffers g)
  | |- session_buffers (set_stdoutDone _ ?g) => change (session_buffers g)
  | |- session_buffers (set_comEventMask _ ?g) => change (session_buffers g)
  | |- session_buffers (set_comEventError _ ?g) => change (session_buffers g)
  | |- session_buffers (set_comRxError _ ?g) => change (session_buffers g)
  | |- session_buffers (set_comTxError _ ?g) => change (session_buffers g)
  | |- session_buffers (set_comEventSignal _ ?g) => change (session_buffers g)
  | |- session_buffers (set_comRxSignal _ ?g) => change (session_buffers g)
  | |- session_buffers (set_comTxSignal _ ?g) => change (session_buffers g)
  | |- session_buffers (set_stdinReaderThread _ ?g) =>
      change (session_buffers g)
  | |- session_buffers (set_stdoutWriterThread _ ?g) =>
      change (session_buffers g)
  | |- session_buffers (set_logFile _ ?g) => change (session_buffers g)
  | |- session_buffers (set_logged _ ?g) => change (session_buffers g)
  | |- session_buffers _ => assumption
  end.

Ltac sb_chain := repeat sb_step.

Section WithDevice.

Variable dev : nat -> Answer.

Lemma comRx_body_buffers g :
  session_buffers g -> session_buffers (flow_globals (comRx_body dev g)).
Proof.
  intros S. unfold comRx_body, comRx_issue, comRx_complete, device_call.
  cbv beta iota zeta. split_ifs; cbn [flow_globals]; sb_chain.
Qed.

Lemma comRx_loop_buffers fuel g g' :
  comRx_loop dev fuel g = Some g' -> session_buffers g -> session_buffers g'.
Proof.
  revert g. induction fuel as [|fuel IH]; intros g; simpl; [discriminate|].
  destruct (comDone g).
  - intros H. inversion H. auto.
  - pose proof (comRx_body_buffers g) as Hb.
    destruct (comRx_body dev g) as [g1|g1]; cbn [flow_globals] in Hb.
    + intros H. inversion H. subst. exact Hb.
    + intros H S. apply (IH g1 H). auto.
Qed.

Lemma comRx_buffers fuel g g' :
  comRx dev fuel g = Some g' -> session_buffers g -> session_buffers g'.
Proof.
  unfold comRx. intros H S. apply (comRx_loop_buffers _ _ _ H). sb_chain.
Qed.

Lemma comTx_body_buffers g :
  session_buffers g -> session_buffers (flow_globals (comTx_body dev g)).
Proof.
  intros S. unfold comTx_body, comTx_issue, comTx_complete, device_call.
  cbv beta iota zeta. split_ifs; cbn [flow_globals]; sb_chain.
Qed.

Lemma comTx_loop_buffers fuel g g' :
  comTx_loop dev fuel g = Some g' -> session_buffers g -> session_buffers g'.
Proof.
  revert g. induction fuel as [|fuel IH]; intros g; simpl; [discriminate|].
  destruct (comDone g).
  - intros H. inversion H. auto.
  - pose proof (comTx_body_buffers g) as Hb.
    destruct (comTx_body dev g) as [g1|g1]; cbn [flow_globals] in Hb.
    + intros H. inversion H. subst. exact Hb.
    + intros H S. apply (IH g1 H). auto.
Qed.

Lemma comTx_buffers fuel g g' :
  comTx dev fuel g = Some g' -> session_buffers g -> session_buffers g'.
Proof.
  unfold comTx. intros H S. apply (comTx_loop_buffers _ _ _ H). sb_chain.
Qed.

Lemma comEvent_issue_buffers g :
  session_buffers g -> session_buffers (comEvent_issue dev g).
Proof.
  intros S. unfold comEvent_issue, device_call. cbv beta iota zeta.
  split_ifs; sb_chain.
Qed.

Lemma comEvent_poll_buffers g :
  session_buffers g -> session_buffers (flow_globals (comEvent_poll dev g)).
Proof.
  intros S. unfold comEvent_poll, device_call. cbv beta iota zeta.
  split_ifs; cbn [flow_globals]; sb_chain.
Qed.

Lemma comEvent_serve_buffers fuel g g' :
  comEvent_serve dev fuel g = Some g' ->
  session_buffers g -> session_buffers g'.
Proof.
  unfold comEvent_serve. cbv zeta.
  set (g0 := comEvent_trace (set_comEventSignal false g)).
  intros H S.
  assert (S0 : session_buffers g0) by (subst g0; sb_chain).
  clearbody g0.
  destruct (Z.land (comEventMask g0) EV_RXCHAR =? 0).
  - destruct (Z.land (comEventMask g0) EV_TXEMPTY =? 0).
    + inversion H. subst. exact S0.
    + apply (comTx_buffers _ _ _ H S0).
  - destruct (comRx dev fuel g0) as [g1|] eqn:E1; [|discriminate].
    pose proof (comRx_buffers _ _ _ E1 S0) as S1.
    destruct (Z.land (comEventMask g1) EV_TXEMPTY =? 0).
    + inversion H. subst. exact S1.
    + apply (comTx_buffers _ _ _ H S1).
Qed.

Lemma comEvent_body_buffers fuel g x :
  comEvent_body dev fuel g = Some x ->
  session_buffers g -> session_buffers (flow_globals x).
Proof.
  unfold comEvent_body. intros H S.
  pose proof (comEvent_poll_buffers _ (comEvent_issue_buffers g S)) as P.
  destruct (comEvent_poll dev (comEvent_issue dev g)) as [g1|g1];
    cbn [flow_globals] in P.
  - inversion H. exact P.
  - destruct (in_flight (comEventError g1)).
    + inversion H. exact P.
    + destruct (comEventError g1 =? ERROR_SUCCESS).
      * destruct (comEvent_serve dev fuel g1) as [g2|] eqn:E; [|discriminate].
        inversion H. cbn [flow_globals].
        apply (comEvent_serve_buffers _ _ _ E P).
      * inversion H. cbn [flow_globals]. sb_chain.
Qed.

Lemma comEvent_buffers fuel g g' :
  comEvent dev fuel g = Some g' -> session_buffers g -> session_buffers g'.
Proof.
  revert g. induction fuel as [|fuel IH]; intros g; simpl; [discriminate|].
  destruct (comDone g).
  - intros H. inversion H. auto.
  - destruct (comEvent_body dev fuel g) as [x|] eqn:E; [|discriminate].
    pose proof (comEvent_body_buffers _ _ _ E) as Hb.
    destruct x as [g1|g1]; cbn [flow_globals] in Hb.
    + intros H. inversion H. subst. exact Hb.
    + intros H S. apply (IH g1 H). auto.
Qed.

End WithDevice.

Lemma stdinReader_turn_buffers io g :
  session_buffers g -> session_buffers (stdinReader_turn io g).
Proof.
  intros S. unfold stdinReader_turn.
  destruct (stdinReaderThread g); try exact S.
  rewrite dword_never_negative. split_ifs; sb_chain.
Qed.

Lemma stdoutWriter_turn_buffers io g :
  session_buffers g -> session_buffers (stdoutWriter_turn io g).
Proof.
  intros S. unfold stdoutWriter_turn.
  destruct (stdoutWriterThread g); try exact S.
  rewrite dword_never_negative. split_ifs; sb_chain.
Qed.

Lemma act_buffers a g : session_buffers g -> session_buffers (act a g).
Proof.
  intros S. destruct a as [io|io|h]; cbn [act].
  - apply stdinReader_turn_buffers, S.
  - apply stdoutWriter_turn_buffers, S.
  - destruct h; sb_chain.
Qed.

Lemma run_actions_buffers acts g :
  session_buffers g -> session_buffers (run_actions acts g).
Proof.
  revert g. unfold run_actions.
  induction acts as [|a acts IH]; intros g S; simpl; [exact S|].
  apply IH, act_buffers, S.
Qed.

Section WithDevice.

Variable dev : nat -> Answer.

Lemma on_timeout_buffers fuel g g' :
  on_timeout dev fuel g = Some g' -> session_buffers g -> session_buffers g'.
Proof.
  unfold on_timeout. cbv zeta. intros H S.
  set (g0 := logTrace "WAIT_TIMEOUT" [] g) in *.
  assert (S0 : session_buffers g0) by (subst g0; sb_chain). clearbody g0.
  destruct (negb (RingBuffer.hasSpace (rxBuffer g0) =? 0)
            && (comRxError g0 =? ERROR_SUCCESS)).
  - destruct (comRx dev fuel _) as [g1|] eqn:E1; [|discriminate].
    assert (S1 : session_buffers g1)
      by (apply (comRx_buffers _ _ _ _ E1); sb_chain).
    destruct (negb (RingBuffer.hasData (txBuffer g1) =? 0)
              && (comTxError g1 =? ERROR_SUCCESS)).
    + apply (comTx_buffers _ _ _ _ H). sb_chain.
    + inversion H. subst. exact S1.
  - destruct (negb (RingBuffer.hasData (txBuffer g0) =? 0)
              && (comTxError g0 =? ERROR_SUCCESS)).
    + apply (comTx_buffers _ _ _ _ H). sb_chain.
    + inversion H. subst. exact S0.
Qed.

Lemma dispatch_buffers fuel waited lastErr g g' c :
  dispatch dev fuel waited lastErr g = Some (g', c) ->
  session_buffers g -> session_buffers g'.
Proof.
  unfold dispatch. intros H S.
  repeat match type of H with
         | (if ?b then _ else _) = _ => destruct b
         end;
    try (apply SessionInvariants.continue_with_some in H);
    first [ apply (comEvent_buffers _ _ _ _ H S)
          | apply (comRx_buffers _ _ _ _ H S)
          | apply (comTx_buffers _ _ _ _ H S)
          | apply (on_timeout_buffers _ _ _ H S)
          | inversion H; subst; sb_chain ].
Qed.

Lemma main_turn_buffers fuel t g g' c :
  main_turn dev fuel t g = Some (g', c) ->
  session_buffers g -> session_buffers g'.
Proof.
  unfold main_turn. cbv zeta. intros H S.
  pose proof (run_actions_buffers (before_check t) g S) as S0.
  destruct (exit_test (run_actions (before_check t) g)).
  - inversion H. subst. exact S0.
  - apply (dispatch_buffers _ _ _ _ _ _ H). apply run_actions_buffers, S0.
Qed.

Lemma main_loop_buffers fuel ticks g g' code :
  main_loop dev fuel ticks g = Some (code, g') ->
  session_buffers g -> session_buffers g'.
Proof.
  revert g. induction ticks as [|t ticks IH]; intros g; simpl; [discriminate|].
  destruct (main_turn dev fuel t g) as [[g1 c]|] eqn:E; [|discriminate].
  pose proof (main_turn_buffers _ _ _ _ _ E) as S1.
  destruct c as [| |code']; intros H S.
  - apply (IH g1 H). auto.
  - inversion H. subst. auto.
  - inversion H. subst. auto.
Qed.

End WithDevice.

Lemma initial_buffers : session_buffers initial.
Proof. split; exists []; split; reflexivity. Qed.

Lemma main_buffers e code g : main e = Some (code, g) -> session_buffers g.
Proof.
  intros H.
  destruct (SessionInvariants.main_cases e code g H)
    as [(_ & _ & ->)|[(_ & _ & _ & ->)|[(_ & _ & _ & l & f & ->)|
        (l & c & gl & _ & _ & El & Ef)]]];
    try exact initial_buffers.
  apply main_loop_buffers in El.
  - unfold finish in Ef. cbv zeta in Ef. inversion Ef. sb_chain.
  - unfold start_session. sb_chain. exact initial_buffers.
Qed.

End SessionSignals.

Import ExactSignals SessionSignals.

(** C5, amended.  Each call of [addData], [removeData] and of the resets
    is one step, as the critical section makes it in the program.

    Of any buffer of capacity C >= 1, whatever is done to it: a signaled
    [notEmpty] implies occupancy > 0 and a signaled [notFull] implies
    occupancy < C; right after an [addData] of a positive count [notEmpty]
    is signaled and the occupancy is positive, right after a [removeData]
    of a positive count [notFull] is signaled and the occupancy is below
    C; as long as [notEmpty] has not been reset from outside it is
    signaled iff occupancy > 0, and as long as [notFull] has not been
    reset from outside it is signaled iff occupancy < C.

    Of the two buffers of the program (C = 128): [comRx] resets
    [rxBuffer.notFull] and [comTx] resets [txBuffer.notEmpty], and nothing
    else resets an event from outside.  So in every state that the pump
    threads, [comRx], [comTx], [comEvent] and the turns of main lead to,
    and in the final state of [main]: [rxBuffer.notEmpty] is signaled iff
    the occupancy of [rxBuffer] is positive, [txBuffer.notFull] is
    signaled iff the occupancy of [txBuffer] is below 128, a signaled
    [rxBuffer.notFull] implies occupancy below 128 and a signaled
    [txBuffer.notEmpty] implies a positive occupancy. *)
Theorem signals_sound_invariant (C : Z) (rb : RingBuffer.t) :
  1 <= C < INT_MAX -> RingBuffer.reachable C rb ->
  RingBuffer.signals_sound rb /\
  (forall n, 0 < n ->
     RingBuffer.notEmpty (fst (RingBuffer.addData n rb)) = true /\
     0 < RingBuffer.occupancy (fst (RingBuffer.addData n rb))) /\
  (forall n, 0 < n ->
     RingBuffer.notFull (fst (RingBuffer.removeData n rb)) = true /\
     RingBuffer.occupancy (fst (RingBuffer.removeData n rb)) < C) /\
  (reached_by rx_op C rb ->
   (RingBuffer.notEmpty rb = true <-> 0 < RingBuffer.occupancy rb)) /\
  (reached_by tx_op C rb ->
   (RingBuffer.notFull rb = true <-> RingBuffer.occupancy rb < C)) /\
  session_buffers initial /\
  (forall g, session_buffers g ->
     session_signals g /\
     (forall io, session_buffers (stdinReader_turn io g)) /\
     (forall io, session_buffers (stdoutWriter_turn io g)) /\
     (forall dev fuel g',
        comRx dev fuel g = Some g' -> session_buffers g') /\
     (forall dev fuel g',
        comTx dev fuel g = Some g' -> session_buffers g') /\
     (forall dev fuel g',
        comEvent dev fuel g = Some g' -> session_buffers g') /\
     (forall dev fuel t g' c,
        main_turn dev fuel t g = Some (g', c) -> session_buffers g')) /\
  (forall e code g, main e = Some (code, g) -> session_signals g).
Proof.
  intros HC R.
  assert (V : RingBuffer.valid_capacity C)
    by (unfold RingBuffer.valid_capacity; lia).
  split; [apply (reachable_signals_sound C rb HC R)|].
  destruct (reachable_wf C rb V R) as [W Ecap].
  split; [|split; [|split; [|split; [|split; [|split]]]]].
  - intros n Hn.
    pose proof (RingBuffer.reach_step C (RingBuffer.OpAdd n) rb R) as R'.
    cbn [RingBuffer.exec] in R'.
    destruct (reachable_signals_sound C _ HC R') as [S1 _].
    destruct (addData_signals rb n W Hn) as [E _]. auto.
  - intros n Hn.
    pose proof (RingBuffer.reach_step C (RingBuffer.OpRemove n) rb R) as R'.
    cbn [RingBuffer.exec] in R'.
    destruct (reachable_signals_sound C _ HC R') as [_ S2].
    destruct (reachable_wf C _ V R') as [_ Ecap'].
    destruct (removeData_signals rb n W Hn) as [E _].
    rewrite Ecap' in S2. auto.
  - intros H. exact (reached_notEmpty_exact C rb HC H).
  - intros H. pose proof (reached_notFull_exact C rb HC H) as E.
    unfold notFull_exact in E. rewrite Ecap in E. exact E.
  - exact initial_buffers.
  - intros g S. split; [apply session_buffers_signals, S|].
    split; [intros io; apply stdinReader_turn_buffers, S|].
    split; [intros io; apply stdoutWriter_turn_buffers, S|].
    split; [intros dev fuel g' H; apply (comRx_buffers dev fuel g g' H S)|].
    split; [intros dev fuel g' H; apply (comTx_buffers dev fuel g g' H S)|].
    split; [intros dev fuel g' H; apply (comEvent_buffers dev fuel g g' H S)|].
    intros dev fuel t g' c H. apply (main_turn_buffers dev fuel t g g' c H S).
  - intros e code g H.
    apply session_buffers_signals, (main_buffers e code g H).
Qed.

Lemma signals_sound_invariant_witness :
  let rb := RingBuffer.exec (RingBuffer.OpAdd 1)
              (RingBuffer.exec RingBuffer.OpResetNotFull (RingBuffer.new 128)) in
  (1 <= 128 < INT_MAX /\ RingBuffer.reachable 128 rb) /\
  RingBuffer.signals_sound rb /\
  (RingBuffer.notEmpty rb = true <-> 0 < RingBuffer.occupancy rb) /\
  RingBuffer.notFull rb = false /\ RingBuffer.occupancy rb = 1.
Proof.
  intro rb.
  assert (HC : 1 <= 128 < INT_MAX) by (unfold INT_MAX; lia).
  assert (R : RingBuffer.reachable 128 rb)
    by (do 2 apply RingBuffer.reach_step; apply RingBuffer.reach_new).
  split; [split; assumption|].
  destruct (signals_sound_invariant 128 rb HC R) as (S & _ & _ & E & _).
  split; [exact S|]. split; [|split; reflexivity].
  apply E. exists [RingBuffer.OpResetNotFull; RingBuffer.OpAdd 1].
  split; reflexivity.
Defined.

(** ** The loop of main: what the timeout case calls *)

Module TimeoutCalls.
Import Footprint DriverFootprint DriverTermination PumpFacts Timeout
  SessionProgress.




Section WithDevice.

Variable dev : nat -> Answer.
















End WithDevice.

End TimeoutCalls.

Import TimeoutCalls.




(** ** main: what an exit status means *)

Lemma finish_fields c gl code g :
  (code, g) = finish c gl ->
  code = (if (c =? 0) && comDone gl then 6 else c) /\
  comDone g = comDone gl /\ stdinDone g = stdinDone gl /\
  stdoutDone g = stdoutDone gl /\ rxBuffer g = rxBuffer gl /\
  txBuffer g = txBuffer gl /\ devCalls g = devCalls gl /\
  comRxError g = comRxError gl /\ comTxError g = comTxError gl /\
  comEventError g = comEventError gl.
Proof.
  unfold finish. cbv zeta. intros H. inversion H. subst.
  globals_norm. repeat split; reflexivity.
Qed.

(** Every exit status of [main] tells what happened: 1 for a missing
    argument, 2 for a log file that cannot be opened, 3 for a port that
    cannot be opened; and once the session has started, 0 only when the
    device has not failed, the standard input is over and both buffers are
    drained, 6 when the loop ended gracefully after a device failure, 4 or
    5 when the wait itself went wrong. *)
Theorem exit_status_meaning (e : Env) (code : Z) (g : Globals) :
  main e = Some (code, g) ->
  (code = 1 /\ argc e < 2) \/
  (code = 2 /\ argc e > 2 /\ fopen_ok e = false) \/
  (code = 3 /\ 2 <= argc e /\ CreateFile_ok e = false) \/
  (2 <= argc e /\ CreateFile_ok e = true /\
   ((code = 0 /\ comDone g = false /\ stdinDone g = true /\
     RingBuffer.hasData (txBuffer g) = 0 /\
     RingBuffer.hasData (rxBuffer g) = 0) \/
    (code = 6 /\ comDone g = true /\ RingBuffer.hasData (rxBuffer g) = 0) \/
    code = 4 \/ code = 5)).
Proof.
  intros H. destruct (main_cases e code g H)
    as [(-> & Ha & _)|[(-> & Ha & Hf & _)|[(-> & Ha & Hc & _)|
        (l & c & gl & Hc & Ha & El & Ef)]]];
    [left; auto|right; left; auto|right; right; left; auto|].
  right. right. right. split; [exact Ha|]. split; [exact Hc|].
  destruct (finish_fields c gl code g Ef)
    as (Ecode & ED & EI & EO & ER & ET & _).
  pose proof (main_loop_progresses _ _ _ _ _ _ El)
    as (PO & _).
  cbn in PO.
  destruct (main_loop_exit _ _ _ _ _ _ El) as [[-> Ex]|[->| ->]].
  - unfold exit_test in Ex. rewrite PO in Ex. cbn [orb] in Ex.
    apply Bool.andb_true_iff in Ex. destruct Ex as [Ex1 Ex2].
    apply Z.eqb_eq in Ex1. cbn [Z.eqb andb] in Ecode.
    destruct (comDone gl) eqn:Hd.
    + right. left. subst code. rewrite ED, ER. auto.
    + left. cbn [orb] in Ex2. apply Bool.andb_true_iff in Ex2.
      destruct Ex2 as [Ex2 Ex3]. apply Z.eqb_eq in Ex3.
      subst code. rewrite ED, EI, ER, ET. auto.
  - right. right. left. exact Ecode.
  - right. right. right. exact Ecode.
Qed.

Lemma exit_status_meaning_witness :
  match main empty_input_env with
  | Some (code, g) =>
      code = 0 /\ stdinDone g = true /\ RingBuffer.hasData (txBuffer g) = 0
  | None => False
  end.
Proof.
  destruct (main empty_input_env) as [[code g]|] eqn:H;
    [|vm_compute in H; discriminate H].
  assert (E : code = 0) by (vm_compute in H; inversion H; reflexivity).
  split; [exact E|].
  destruct (exit_status_meaning _ _ _ H)
    as [[E1 _]|[[E1 _]|[[E1 _]|(_ & _ & [(_ & _ & I & T & _)|[[E1 _]|[E1|E1]]])]]];
    try (rewrite E in E1; discriminate E1).
  split; [exact I|exact T].
Defined.

(** However a run of [main] ends, [stdoutDone] is still false, and both
    buffers are in a state that [addData], [removeData] and the event
    resets reach from a fresh buffer of 128 bytes: their indices are in
    range, their capacity is 128 and a signaled event tells the truth. *)
Theorem final_globals (e : Env) (code : Z) (g : Globals) :
  main e = Some (code, g) ->
  stdoutDone g = false /\
  RingBuffer.reachable 128 (rxBuffer g) /\
  RingBuffer.reachable 128 (txBuffer g) /\
  buffers_wf g /\
  RingBuffer.capacity (rxBuffer g) = 128 /\
  RingBuffer.capacity (txBuffer g) = 128 /\
  RingBuffer.signals_sound (rxBuffer g) /\
  RingBuffer.signals_sound (txBuffer g).
Proof.
  intros H.
  assert (V : RingBuffer.valid_capacity 128)
    by (unfold RingBuffer.valid_capacity, INT_MAX; lia).
  assert (V1 : 1 <= 128 < INT_MAX) by (unfold INT_MAX; lia).
  assert (K : stdoutDone g = false /\
              RingBuffer.reachable 128 (rxBuffer g) /\
              RingBuffer.reachable 128 (txBuffer g)).
  { destruct (main_cases e code g H)
      as [(_ & _ & ->)|[(_ & _ & _ & ->)|[(_ & _ & _ & l & f & ->)|
          (l & c & gl & Hc & Ha & El & Ef)]]];
      try (split; [reflexivity|split; apply RingBuffer.reach_new]).
    destruct (finish_fields c gl code g Ef)
      as (_ & _ & _ & EO & ER & ET & _).
    destruct (main_loop_progresses _ _ _ _ _ _ El)
      as (PO & _ & _ & _ & _ & PR & PT & _).
    rewrite EO, ER, ET. split; [exact PO|].
    split; eapply reaches_reachable; try eassumption;
      apply RingBuffer.reach_new. }
  destruct K as (K1 & K2 & K3).
  destruct (reachable_wf 128 _ V K2) as [W2 C2].
  destruct (reachable_wf 128 _ V K3) as [W3 C3].
  repeat split; auto; try apply W2; try apply W3;
    try apply (reachable_signals_sound 128 _ V1 K2);
    try apply (reachable_signals_sound 128 _ V1 K3).
Qed.

Lemma final_globals_witness :
  match main refused_config_env with
  | Some (code, g) => stdoutDone g = false /\ buffers_wf g
  | None => False
  end.
Proof.
  destruct (main refused_config_env) as [[code g]|] eqn:H;
    [|vm_compute in H; discriminate H].
  destruct (final_globals refused_config_env code g H) as (A & _ & _ & B & _).
  auto.
Defined.

(** ** The driver: failures and [comDone] *)

Module DriverStatus.
Import Footprint DriverFootprint DriverTermination PumpFacts SessionProgress
  SessionInvariants.

Lemma rx_addData_shape n g :
  exists l,
    rx_addData n g
    = set_logged l (set_rxBuffer (fst (RingBuffer.addData n (rxBuffer g))) g).
Proof.
  unfold rx_addData. destruct (RingBuffer.addData n (rxBuffer g)) as [rb logs].
  rewrite write_logs_eq. eexists. reflexivity.
Qed.

Lemma rx_removeData_shape n g :
  exists l,
    rx_removeData n g
    = set_logged l (set_rxBuffer (fst (RingBuffer.removeData n (rxBuffer g))) g).
Proof.
  unfold rx_removeData.
  destruct (RingBuffer.removeData n (rxBuffer g)) as [rb logs].
  rewrite write_logs_eq. eexists. reflexivity.
Qed.

Lemma tx_addData_shape n g :
  exists l,
    tx_addData n g
    = set_logged l (set_txBuffer (fst (RingBuffer.addData n (txBuffer g))) g).
Proof.
  unfold tx_addData. destruct (RingBuffer.addData n (txBuffer g)) as [rb logs].
  rewrite write_logs_eq. eexists. reflexivity.
Qed.

Lemma tx_removeData_shape n g :
  exists l,
    tx_removeData n g
    = set_logged l (set_txBuffer (fst (RingBuffer.removeData n (txBuffer g))) g).
Proof.
  unfold tx_removeData.
  destruct (RingBuffer.removeData n (txBuffer g)) as [rb logs].
  rewrite write_logs_eq. eexists. reflexivity.
Qed.

(** Replaces the buffer calls of the goal by the globals they produce. *)
Ltac buffer_shapes :=
  repeat match goal with
         | |- context [rx_addData ?n ?g] =>
             let l := fresh "l" in
             destruct (rx_addData_shape n g) as [l ->]
         | |- context [rx_removeData ?n ?g] =>
             let l := fresh "l" in
             destruct (rx_removeData_shape n g) as [l ->]
         | |- context [tx_addData ?n ?g] =>
             let l := fresh "l" in
             destruct (tx_addData_shape n g) as [l ->]
         | |- context [tx_removeData ?n ?g] =>
             let l := fresh "l" in
             destruct (tx_removeData_shape n g) as [l ->]
         end.

Lemma hard_error_in_flight e : in_flight e = true -> hard_error e = false.
Proof. unfold hard_error. intros ->. reflexivity. Qed.

Lemma hard_error_success e :
  (e =? ERROR_SUCCESS) = true -> hard_error e = false.
Proof. unfold hard_error. intros ->. apply Bool.andb_false_r. Qed.

(** Closes a leaf of a driver turn: either [comDone] has been set, or the
    status just stored is in flight or success and the others are as they
    were. *)
Ltac status_leaf :=
  unfold status_inv; buffer_shapes; globals_norm;
  rewrite ?Bool.andb_true_r in *;
  first
    [ left; reflexivity
    | let Hd := fresh in let A := fresh in let B := fresh in let C := fresh in
      intros [Hd|(A & B & C)];
      [ left; exact Hd
      | right; repeat split;
        first [ assumption
              | apply hard_error_in_flight; assumption
              | apply hard_error_success; assumption
              | reflexivity ] ] ].

Section WithDevice.

Variable dev : nat -> Answer.

Lemma comRx_body_status g :
  status_inv g -> status_inv (flow_globals (comRx_body dev g)).
Proof.
  unfold comRx_body, comRx_issue, comRx_complete, device_call.
  cbv beta iota zeta. split_ifs; cbn [flow_globals]; status_leaf.
Qed.


Lemma comTx_body_status g :
  status_inv g -> status_inv (flow_globals (comTx_body dev g)).
Proof.
  unfold comTx_body, comTx_issue, comTx_complete, device_call.
  cbv beta iota zeta. split_ifs; cbn [flow_globals]; status_leaf.
Qed.

Lemma comRx_loop_status fuel g g' :
  comRx_loop dev fuel g = Some g' -> status_inv g -> status_inv g'.
Proof.
  revert g. induction fuel as [|fuel IH]; intros g; simpl; [discriminate|].
  destruct (comDone g).
  - intros H. inversion H. auto.
  - pose proof (comRx_body_status g) as Hb.
    destruct (comRx_body dev g) as [g1|g1]; cbn [flow_globals] in Hb.
    + intros H. inversion H. subst. exact Hb.
    + intros H S. apply (IH g1 H). auto.
Qed.

Lemma comRx_status fuel g g' :
  comRx dev fuel g = Some g' -> status_inv g -> status_inv g'.
Proof. unfold comRx. intros H S. apply (comRx_loop_status _ _ _ H). exact S. Qed.

Lemma comTx_loop_status fuel g g' :
  comTx_loop dev fuel g = Some g' -> status_inv g -> status_inv g'.
Proof.
  revert g. induction fuel as [|fuel IH]; intros g; simpl; [discriminate|].
  destruct (comDone g).
  - intros H. inversion H. auto.
  - pose proof (comTx_body_status g) as Hb.
    destruct (comTx_body dev g) as [g1|g1]; cbn [flow_globals] in Hb.
    + intros H. inversion H. subst. exact Hb.
    + intros H S. apply (IH g1 H). auto.
Qed.

Lemma comTx_status fuel g g' :
  comTx dev fuel g = Some g' -> status_inv g -> status_inv g'.
Proof. unfold comTx. intros H S. apply (comTx_loop_status _ _ _ H). exact S. Qed.

Lemma comEvent_issue_poll_status g :
  status_inv g ->
  match comEvent_poll dev (comEvent_issue dev g) with
  | Return g1 => status_inv g1
  | Next g1 =>
      comDone g1 = true \/
      (hard_error (comRxError g1) = false /\
       hard_error (comTxError g1) = false)
  end.
Proof.
  unfold comEvent_poll, comEvent_issue, device_call, store_mask.
  cbv beta iota zeta. intros S.
  split_ifs; unfold status_inv in *; globals_norm;
    first [ left; reflexivity
          | destruct S as [S|(A & B & C)]; [left; exact S|right; auto] ].
Qed.

Lemma comEvent_serve_status fuel g g' :
  comEvent_serve dev fuel g = Some g' -> status_inv g -> status_inv g'.
Proof.
  unfold comEvent_serve. cbv zeta.
  set (g0 := comEvent_trace (set_comEventSignal false g)).
  intros H S.
  assert (S0 : status_inv g0).
  { subst g0. unfold comEvent_trace.
    destruct (logLevel >=? TRACE); unfold status_inv in *; globals_norm;
      exact S. }
  clearbody g0.
  destruct (Z.land (comEventMask g0) EV_RXCHAR =? 0).
  - destruct (Z.land (comEventMask g0) EV_TXEMPTY =? 0).
    + inversion H. subst. exact S0.
    + apply (comTx_status _ _ _ H S0).
  - destruct (comRx dev fuel g0) as [g1|] eqn:E1; [|discriminate].
    pose proof (comRx_status _ _ _ E1 S0) as S1.
    destruct (Z.land (comEventMask g1) EV_TXEMPTY =? 0).
    + inversion H. subst. exact S1.
    + apply (comTx_status _ _ _ H S1).
Qed.

Lemma comEvent_body_status fuel g x :
  comEvent_body dev fuel g = Some x -> status_inv g ->
  status_inv (flow_globals x).
Proof.
  unfold comEvent_body. intros H S.
  pose proof (comEvent_issue_poll_status g S) as P.
  destruct (comEvent_poll dev (comEvent_issue dev g)) as [g1|g1].
  - inversion H. exact P.
  - destruct (in_flight (comEventError g1)) eqn:E1.
    + inversion H. cbn [flow_globals].
      destruct P as [P|[A B]]; [left; exact P|right].
      repeat split; auto using hard_error_in_flight.
    + destruct (comEventError g1 =? ERROR_SUCCESS) eqn:E2.
      * destruct (comEvent_serve dev fuel g1) as [g2|] eqn:E; [|discriminate].
        inversion H. cbn [flow_globals].
        apply (comEvent_serve_status _ _ _ E).
        destruct P as [P|[A B]]; [left; exact P|right].
        repeat split; auto using hard_error_success.
      * inversion H. cbn [flow_globals]. left. reflexivity.
Qed.

Lemma comEvent_status fuel g g' :
  comEvent dev fuel g = Some g' -> status_inv g -> status_inv g'.
Proof.
  revert g. induction fuel as [|fuel IH]; intros g; simpl; [discriminate|].
  destruct (comDone g).
  - intros H. inversion H. auto.
  - destruct (comEvent_body dev fuel g) as [x|] eqn:E; [|discriminate].
    pose proof (comEvent_body_status _ _ _ E) as Hb.
    destruct x as [g1|g1]; cbn [flow_globals] in Hb.
    + intros H. inversion H. subst. exact Hb.
    + intros H S. apply (IH g1 H). auto.
Qed.

Lemma act_status a g : status_inv g -> status_inv (act a g).
Proof.
  unfold status_inv. destruct a as [io|io|h]; cbn [act].
  - destruct (stdinReader_turn_fields io g) as (_ & _ & -> & -> & -> & _).
    assert (E : comEventError (stdinReader_turn io g) = comEventError g).
    { unfold stdinReader_turn. destruct (stdinReaderThread g); try reflexivity.
      rewrite dword_never_negative.
      split_ifs; buffer_shapes; globals_norm; reflexivity. }
    rewrite E. auto.
  - destruct (stdoutWriter_turn_fields io g) as (_ & _ & -> & -> & -> & _).
    assert (E : comEventError (stdoutWriter_turn io g) = comEventError g).
    { unfold stdoutWriter_turn. destruct (stdoutWriterThread g); try reflexivity.
      rewrite dword_never_negative.
      split_ifs; buffer_shapes; globals_norm; reflexivity. }
    rewrite E. auto.
  - destruct h; auto.
Qed.

Lemma run_actions_status acts g :
  status_inv g -> status_inv (run_actions acts g).
Proof.
  revert g. unfold run_actions.
  induction acts as [|a acts IH]; intros g S; simpl; [exact S|].
  apply IH, act_status, S.
Qed.

Lemma on_timeout_status fuel g g' :
  on_timeout dev fuel g = Some g' -> status_inv g -> status_inv g'.
Proof.
  unfold on_timeout. cbv zeta. intros H S.
  assert (L : forall f x, status_inv x -> status_inv (logTrace f [] x)).
  { intros f x Sx. unfold status_inv in *. globals_norm. exact Sx. }
  set (g0 := logTrace "WAIT_TIMEOUT" [] g) in *.
  assert (S0 : status_inv g0) by (apply L, S). clearbody g0.
  destruct (negb (RingBuffer.hasSpace (rxBuffer g0) =? 0)
            && (comRxError g0 =? ERROR_SUCCESS)).
  - destruct (comRx dev fuel _) as [g1|] eqn:E1; [|discriminate].
    pose proof (comRx_status _ _ _ E1 (L _ _ S0)) as S1.
    destruct (negb (RingBuffer.hasData (txBuffer g1) =? 0)
              && (comTxError g1 =? ERROR_SUCCESS)).
    + apply (comTx_status _ _ _ H). apply L, S1.
    + inversion H. subst. exact S1.
  - destruct (negb (RingBuffer.hasData (txBuffer g0) =? 0)
              && (comTxError g0 =? ERROR_SUCCESS)).
    + apply (comTx_status _ _ _ H). apply L, S0.
    + inversion H. subst. exact S0.
Qed.

Lemma dispatch_status fuel waited lastErr g g' c :
  dispatch dev fuel waited lastErr g = Some (g', c) ->
  status_inv g -> status_inv g'.
Proof.
  unfold dispatch. intros H S.
  repeat match type of H with
         | (if ?b then _ else _) = _ => destruct b
         end;
    try (apply continue_with_some in H);
    first [ apply (comEvent_status _ _ _ H S)
          | apply (comRx_status _ _ _ H S)
          | apply (comTx_status _ _ _ H S)
          | apply (on_timeout_status _ _ _ H S)
          | inversion H; subst; unfold status_inv in *; globals_norm; exact S ].
Qed.

Lemma main_turn_status fuel t g g' c :
  main_turn dev fuel t g = Some (g', c) -> status_inv g -> status_inv g'.
Proof.
  unfold main_turn. cbv zeta. intros H S.
  pose proof (run_actions_status (before_check t) g S) as S0.
  destruct (exit_test (run_actions (before_check t) g)).
  - inversion H. subst. exact S0.
  - apply (dispatch_status _ _ _ _ _ _ H). apply run_actions_status, S0.
Qed.

Lemma main_loop_status fuel ticks g g' code :
  main_loop dev fuel ticks g = Some (code, g') ->
  status_inv g -> status_inv g'.
Proof.
  revert g. induction ticks as [|t ticks IH]; intros g; simpl; [discriminate|].
  destruct (main_turn dev fuel t g) as [[g1 c]|] eqn:E; [|discriminate].
  pose proof (main_turn_status _ _ _ _ _ E) as S1.
  destruct c as [| |code']; intros H S.
  - apply (IH g1 H). auto.
  - inversion H. subst. auto.
  - inversion H. subst. auto.
Qed.

End WithDevice.

End DriverStatus.

Import DriverStatus.

Lemma initial_session_status l f :
  status_inv (start_session (set_logged l (set_logFile (Some f) initial))).
Proof. right. repeat split; reflexivity. Qed.

Module Quiescence.
Import Footprint DriverFootprint DriverTermination PumpFacts SessionProgress
  SessionInvariants DriverStatus.

Lemma act_devCalls a g : devCalls (act a g) = devCalls g.
Proof.
  destruct a as [io|io|h]; cbn [act].
  - unfold stdinReader_turn. destruct (stdinReaderThread g); try reflexivity.
    rewrite dword_never_negative.
    split_ifs; buffer_shapes; globals_norm; reflexivity.
  - unfold stdoutWriter_turn. destruct (stdoutWriterThread g); try reflexivity.
    rewrite dword_never_negative.
    split_ifs; buffer_shapes; globals_norm; reflexivity.
  - destruct h; reflexivity.
Qed.

Lemma run_actions_devCalls acts g :
  devCalls (run_actions acts g) = devCalls g.
Proof.
  revert g. unfold run_actions.
  induction acts as [|a acts IH]; intros g; simpl; [reflexivity|].
  rewrite IH. apply act_devCalls.
Qed.

Section WithDevice.

Variable dev : nat -> Answer.

Lemma comRx_done fuel g g' :
  comDone g = true -> comRx dev fuel g = Some g' ->
  comDone g' = true /\ devCalls g' = devCalls g.
Proof.
  unfold comRx. destruct fuel as [|fuel]; simpl; [discriminate|].
  intros D H. rewrite D in H. inversion H. subst. cbn. auto.
Qed.

Lemma comTx_done fuel g g' :
  comDone g = true -> comTx dev fuel g = Some g' ->
  comDone g' = true /\ devCalls g' = devCalls g.
Proof.
  unfold comTx. destruct fuel as [|fuel]; simpl; [discriminate|].
  intros D H. rewrite D in H. inversion H. subst. cbn. auto.
Qed.

Lemma comEvent_done fuel g g' :
  comDone g = true -> comEvent dev fuel g = Some g' ->
  comDone g' = true /\ devCalls g' = devCalls g.
Proof.
  destruct fuel as [|fuel]; simpl; [discriminate|].
  intros D H. rewrite D in H. inversion H. subst. auto.
Qed.

Lemma on_timeout_done fuel g g' :
  comDone g = true -> on_timeout dev fuel g = Some g' ->
  comDone g' = true /\ devCalls g' = devCalls g.
Proof.
  unfold on_timeout. cbv zeta. intros D H.
  assert (L : forall f x, comDone (logTrace f [] x) = comDone x /\
                          devCalls (logTrace f [] x) = devCalls x).
  { intros f x. globals_norm. auto. }
  set (g0 := logTrace "WAIT_TIMEOUT" [] g) in *.
  destruct (L "WAIT_TIMEOUT"%string g) as [D0 C0]. fold g0 in D0, C0.
  rewrite D in D0. clearbody g0.
  destruct (negb (RingBuffer.hasSpace (rxBuffer g0) =? 0)
            && (comRxError g0 =? ERROR_SUCCESS)).
  - destruct (comRx dev fuel _) as [g1|] eqn:E1; [|discriminate].
    destruct (L "comRx retry"%string g0) as [D1 C1].
    apply comRx_done in E1; [|congruence]. destruct E1 as [D2 C2].
    destruct (negb (RingBuffer.hasData (txBuffer g1) =? 0)
              && (comTxError g1 =? ERROR_SUCCESS)).
    + destruct (L "comTx retry"%string g1) as [D3 C3].
      apply comTx_done in H; [|congruence]. destruct H as [D4 C4].
      split; congruence.
    + inversion H. subst. split; congruence.
  - destruct (negb (RingBuffer.hasData (txBuffer g0) =? 0)
              && (comTxError g0 =? ERROR_SUCCESS)).
    + destruct (L "comTx retry"%string g0) as [D3 C3].
      apply comTx_done in H; [|congruence]. destruct H as [D4 C4].
      split; congruence.
    + inversion H. subst. split; congruence.
Qed.

Lemma dispatch_done fuel waited lastErr g g' c :
  comDone g = true -> dispatch dev fuel waited lastErr g = Some (g', c) ->
  comDone g' = true /\ devCalls g' = devCalls g.
Proof.
  unfold dispatch. intros D H.
  repeat match type of H with
         | (if ?b then _ else _) = _ => destruct b
         end;
    try (apply continue_with_some in H);
    first [ apply (comEvent_done _ _ _ D H)
          | apply (comRx_done _ _ _ D H)
          | apply (comTx_done _ _ _ D H)
          | apply (on_timeout_done _ _ _ D H)
          | inversion H; subst; globals_norm; auto ].
Qed.

Lemma main_turn_done fuel t g g' c :
  comDone g = true -> main_turn dev fuel t g = Some (g', c) ->
  comDone g' = true /\ devCalls g' = devCalls g.
Proof.
  unfold main_turn. cbv zeta. intros D H.
  pose proof (run_actions_progresses (before_check t) g)
    as (_ & _ & _ & M0 & _).
  pose proof (run_actions_devCalls (before_check t) g) as C0.
  set (g0 := run_actions (before_check t) g) in *.
  specialize (M0 D).
  destruct (exit_test g0).
  - inversion H. subst. auto.
  - pose proof (run_actions_progresses (during_wait t) g0)
      as (_ & _ & _ & M1 & _).
    pose proof (run_actions_devCalls (during_wait t) g0) as C1.
    destruct (dispatch_done _ _ _ _ _ _ (M1 M0) H) as [D2 C2].
    split; congruence.
Qed.

End WithDevice.

End Quiescence.

Import Quiescence.

(** ** The driver: device calls that fail *)

Module DeviceCalls.
Import Footprint DriverFootprint DriverTermination PumpFacts SessionProgress
  SessionInvariants DriverStatus Quiescence.

Lemma hard_error_ok e :
  in_flight e || (e =? ERROR_SUCCESS) = true -> hard_error e = false.
Proof.
  intros H. apply Bool.orb_prop in H.
  destruct H; [apply hard_error_in_flight|apply hard_error_success]; assumption.
Qed.

Ltac known_status :=
  first [ assumption
        | apply hard_error_in_flight; assumption
        | apply hard_error_success; assumption
        | apply hard_error_ok; assumption ].

(** Closes a leaf of a driver turn: either [comDone] has been set, or each
    call the turn has made ended in flight or in success. *)
Ltac calls_leaf :=
  unfold calls_inv; buffer_shapes; globals_norm;
  rewrite ?Bool.andb_true_r in *;
  first
    [ left; reflexivity
    | let Hd := fresh in let Hk := fresh in
      let k := fresh "k" in let Hlt := fresh in
      intros [Hd|Hk];
      [ left; exact Hd
      | right; intros k Hlt;
        lazymatch type of Hlt with
        | (k < S (S ?n))%nat =>
            destruct (Nat.eq_dec k (S n)) as [->|];
            [ known_status
            | destruct (Nat.eq_dec k n) as [->|];
              [known_status|apply Hk; lia] ]
        | (k < S ?n)%nat =>
            destruct (Nat.eq_dec k n) as [->|];
            [known_status|apply Hk; lia]
        | _ => apply Hk; exact Hlt
        end ] ].

Section WithDevice.

Variable dev : nat -> Answer.

Lemma comRx_body_calls g :
  calls_inv dev g -> calls_inv dev (flow_globals (comRx_body dev g)).
Proof.
  unfold comRx_body, comRx_issue, comRx_complete, device_call.
  cbv beta iota zeta. split_ifs; cbn [flow_globals]; calls_leaf.
Qed.

Lemma comTx_body_calls g :
  calls_inv dev g -> calls_inv dev (flow_globals (comTx_body dev g)).
Proof.
  unfold comTx_body, comTx_issue, comTx_complete, device_call.
  cbv beta iota zeta. split_ifs; cbn [flow_globals]; calls_leaf.
Qed.

Lemma comRx_loop_calls fuel g g' :
  comRx_loop dev fuel g = Some g' -> calls_inv dev g -> calls_inv dev g'.
Proof.
  revert g. induction fuel as [|fuel IH]; intros g; simpl; [discriminate|].
  destruct (comDone g).
  - intros H. inversion H. auto.
  - pose proof (comRx_body_calls g) as Hb.
    destruct (comRx_body dev g) as [g1|g1]; cbn [flow_globals] in Hb.
    + intros H. inversion H. subst. exact Hb.
    + intros H S. apply (IH g1 H). auto.
Qed.

Lemma comRx_calls fuel g g' :
  comRx dev fuel g = Some g' -> calls_inv dev g -> calls_inv dev g'.
Proof. unfold comRx. intros H S. apply (comRx_loop_calls _ _ _ H). exact S. Qed.

Lemma comTx_loop_calls fuel g g' :
  comTx_loop dev fuel g = Some g' -> calls_inv dev g -> calls_inv dev g'.
Proof.
  revert g. induction fuel as [|fuel IH]; intros g; simpl; [discriminate|].
  destruct (comDone g).
  - intros H. inversion H. auto.
  - pose proof (comTx_body_calls g) as Hb.
    destruct (comTx_body dev g) as [g1|g1]; cbn [flow_globals] in Hb.
    + intros H. inversion H. subst. exact Hb.
    + intros H S. apply (IH g1 H). auto.
Qed.

Lemma comTx_calls fuel g g' :
  comTx dev fuel g = Some g' -> calls_inv dev g -> calls_inv dev g'.
Proof. unfold comTx. intros H S. apply (comTx_loop_calls _ _ _ H). exact S. Qed.

Lemma comEvent_issue_poll_calls g :
  calls_inv dev g ->
  match comEvent_poll dev (comEvent_issue dev g) with
  | Return g1 => calls_inv dev g1
  | Next g1 => hard_error (comEventError g1) = false -> calls_inv dev g1
  end.
Proof.
  unfold comEvent_poll, comEvent_issue, device_call, store_mask.
  cbv beta iota zeta. intros S.
  split_ifs; globals_norm; try congruence; try intros Hh; revert S.
  all: calls_leaf.
Qed.

Lemma comEvent_serve_calls fuel g g' :
  comEvent_serve dev fuel g = Some g' -> calls_inv dev g -> calls_inv dev g'.
Proof.
  unfold comEvent_serve. cbv zeta.
  set (g0 := comEvent_trace (set_comEventSignal false g)).
  intros H S.
  assert (S0 : calls_inv dev g0).
  { subst g0. unfold comEvent_trace.
    destruct (logLevel >=? TRACE); unfold calls_inv in *; globals_norm;
      exact S. }
  clearbody g0.
  destruct (Z.land (comEventMask g0) EV_RXCHAR =? 0).
  - destruct (Z.land (comEventMask g0) EV_TXEMPTY =? 0).
    + inversion H. subst. exact S0.
    + apply (comTx_calls _ _ _ H S0).
  - destruct (comRx dev fuel g0) as [g1|] eqn:E1; [|discriminate].
    pose proof (comRx_calls _ _ _ E1 S0) as S1.
    destruct (Z.land (comEventMask g1) EV_TXEMPTY =? 0).
    + inversion H. subst. exact S1.
    + apply (comTx_calls _ _ _ H S1).
Qed.

Lemma comEvent_body_calls fuel g x :
  comEvent_body dev fuel g = Some x -> calls_inv dev g ->
  calls_inv dev (flow_globals x).
Proof.
  unfold comEvent_body. intros H S.
  pose proof (comEvent_issue_poll_calls g S) as P.
  destruct (comEvent_poll dev (comEvent_issue dev g)) as [g1|g1].
  - inversion H. exact P.
  - destruct (in_flight (comEventError g1)) eqn:E1.
    + inversion H. cbn [flow_globals].
      apply P, hard_error_in_flight, E1.
    + destruct (comEventError g1 =? ERROR_SUCCESS) eqn:E2.
      * destruct (comEvent_serve dev fuel g1) as [g2|] eqn:E; [|discriminate].
        inversion H. cbn [flow_globals].
        apply (comEvent_serve_calls _ _ _ E).
        apply P, hard_error_success, E2.
      * inversion H. cbn [flow_globals]. left. reflexivity.
Qed.

Lemma comEvent_calls fuel g g' :
  comEvent dev fuel g = Some g' -> calls_inv dev g -> calls_inv dev g'.
Proof.
  revert g. induction fuel as [|fuel IH]; intros g; simpl; [discriminate|].
  destruct (comDone g).
  - intros H. inversion H. auto.
  - destruct (comEvent_body dev fuel g) as [x|] eqn:E; [|discriminate].
    pose proof (comEvent_body_calls _ _ _ E) as Hb.
    destruct x as [g1|g1]; cbn [flow_globals] in Hb.
    + intros H. inversion H. subst. exact Hb.
    + intros H S. apply (IH g1 H). auto.
Qed.

Lemma calls_same g g' :
  comDone g' = comDone g -> devCalls g' = devCalls g ->
  calls_inv dev g -> calls_inv dev g'.
Proof. unfold calls_inv. intros -> ->. auto. Qed.

Lemma act_calls a g : calls_inv dev g -> calls_inv dev (act a g).
Proof.
  apply calls_same; [|apply act_devCalls].
  destruct a as [io|io|h]; cbn [act].
  - apply (stdinReader_turn_fields io g).
  - apply (stdoutWriter_turn_fields io g).
  - destruct h; reflexivity.
Qed.

Lemma run_actions_calls acts g :
  calls_inv dev g -> calls_inv dev (run_actions acts g).
Proof.
  revert g. unfold run_actions.
  induction acts as [|a acts IH]; intros g S; simpl; [exact S|].
  apply IH, act_calls, S.
Qed.

Lemma logTrace_calls f g : calls_inv dev g -> calls_inv dev (logTrace f [] g).
Proof. intros S. unfold calls_inv in *. globals_norm. exact S. Qed.

Lemma on_timeout_calls_inv fuel g g' :
  on_timeout dev fuel g = Some g' -> calls_inv dev g -> calls_inv dev g'.
Proof.
  unfold on_timeout. cbv zeta. intros H S.
  set (g0 := logTrace "WAIT_TIMEOUT" [] g) in *.
  assert (S0 : calls_inv dev g0) by (apply logTrace_calls, S). clearbody g0.
  destruct (negb (RingBuffer.hasSpace (rxBuffer g0) =? 0)
            && (comRxError g0 =? ERROR_SUCCESS)).
  - destruct (comRx dev fuel _) as [g1|] eqn:E1; [|discriminate].
    pose proof (comRx_calls _ _ _ E1 (logTrace_calls _ _ S0)) as S1.
    destruct (negb (RingBuffer.hasData (txBuffer g1) =? 0)
              && (comTxError g1 =? ERROR_SUCCESS)).
    + apply (comTx_calls _ _ _ H). apply logTrace_calls, S1.
    + inversion H. subst. exact S1.
  - destruct (negb (RingBuffer.hasData (txBuffer g0) =? 0)
              && (comTxError g0 =? ERROR_SUCCESS)).
    + apply (comTx_calls _ _ _ H). apply logTrace_calls, S0.
    + inversion H. subst. exact S0.
Qed.

Lemma dispatch_calls fuel waited lastErr g g' c :
  dispatch dev fuel waited lastErr g = Some (g', c) ->
  calls_inv dev g -> calls_inv dev g'.
Proof.
  unfold dispatch. intros H S.
  repeat match type of H with
         | (if ?b then _ else _) = _ => destruct b
         end;
    try (apply continue_with_some in H);
    first [ apply (comEvent_calls _ _ _ H S)
          | apply (comRx_calls _ _ _ H S)
          | apply (comTx_calls _ _ _ H S)
          | apply (on_timeout_calls_inv _ _ _ H S)
          | inversion H; subst; unfold calls_inv in *; globals_norm; exact S ].
Qed.

Lemma main_turn_calls fuel t g g' c :
  main_turn dev fuel t g = Some (g', c) -> calls_inv dev g -> calls_inv dev g'.
Proof.
  unfold main_turn. cbv zeta. intros H S.
  pose proof (run_actions_calls (before_check t) g S) as S0.
  destruct (exit_test (run_actions (before_check t) g)).
  - inversion H. subst. exact S0.
  - apply (dispatch_calls _ _ _ _ _ _ H). apply run_actions_calls, S0.
Qed.

Lemma main_loop_calls fuel ticks g g' code :
  main_loop dev fuel ticks g = Some (code, g') ->
  calls_inv dev g -> calls_inv dev g'.
Proof.
  revert g. induction ticks as [|t ticks IH]; intros g; simpl; [discriminate|].
  destruct (main_turn dev fuel t g) as [[g1 c]|] eqn:E; [|discriminate].
  pose proof (main_turn_calls _ _ _ _ _ E) as S1.
  destruct c as [| |code']; intros H S.
  - apply (IH g1 H). auto.
  - inversion H. subst. auto.
  - inversion H. subst. auto.
Qed.

End WithDevice.

End DeviceCalls.

Import DeviceCalls.

(** A device call that fails sets [comDone], a failure being a [ReadFile],
    [WriteFile], [WaitCommEvent] or [GetOverlappedResult] that returned
    FALSE with a last error other than 0, ERROR_IO_INCOMPLETE and
    ERROR_IO_PENDING (a call that returns FALSE with the last error 0 is
    stored as ERROR_SUCCESS and is not noticed).  At the end of any run,
    either [comDone] is set, or no device call made during the run has
    failed and each of the three statuses is success or an operation in
    flight; so the exit status 0 is only given when no device call has
    failed. *)
Theorem device_failures_set_comDone (e : Env) (code : Z) (g : Globals) :
  main e = Some (code, g) ->
  calls_inv (device e) g /\
  status_inv g /\
  (code = 0 ->
   (forall k, (k < devCalls g)%nat ->
              hard_error (status (device e k)) = false) /\
   hard_error (comRxError g) = false /\
   hard_error (comTxError g) = false /\
   hard_error (comEventError g) = false).
Proof.
  intros H.
  assert (S : calls_inv (device e) g /\ status_inv g /\
              (code = 0 -> comDone g = false)).
  { destruct (main_cases e code g H)
      as [(-> & _ & ->)|[(-> & _ & _ & ->)|[(-> & _ & _ & l & f & ->)|
          (l & c & gl & Hc & Ha & El & Ef)]]];
      try (split; [right; intros k Hk; cbn in Hk; lia|];
           split; [right; repeat split; reflexivity|discriminate]).
    destruct (finish_fields c gl code g Ef)
      as (Ecode & ED & _ & _ & _ & _ & EC & ER & ET & EE).
    pose proof (main_loop_status _ _ _ _ _ _ El
                  (initial_session_status l _)) as Sl.
    assert (Cl : calls_inv (device e) gl).
    { apply (main_loop_calls _ _ _ _ _ _ El).
      right. intros k Hk. cbn in Hk. lia. }
    split; [|split].
    - unfold calls_inv in *. rewrite ED, EC. exact Cl.
    - unfold status_inv in *. rewrite ED, ER, ET, EE. exact Sl.
    - intros E0. rewrite ED. destruct (comDone gl); [|reflexivity].
      rewrite Bool.andb_true_r in Ecode.
      destruct (c =? 0) eqn:Ec; [lia|]. apply Z.eqb_neq in Ec. lia. }
  destruct S as (C & S & D). split; [exact C|]. split; [exact S|].
  intros E0. specialize (D E0).
  destruct C as [C|C]; [congruence|]. split; [exact C|].
  destruct S as [S|S]; [congruence|exact S].
Qed.

Lemma device_failures_set_comDone_witness :
  match main refused_config_env with
  | Some (code, g) =>
      code = 6 /\ comDone g = true /\ devCalls g = S O /\
      hard_error (status (device refused_config_env O)) = true /\
      calls_inv (device refused_config_env) g /\ status_inv g
  | None => False
  end.
Proof.
  destruct (main refused_config_env) as [[code g]|] eqn:H;
    [|vm_compute in H; discriminate H].
  destruct (device_failures_set_comDone refused_config_env code g H)
    as (C & S & _).
  vm_compute in H. inversion H. subst.
  repeat split; try reflexivity; assumption.
Defined.

(** Once [comDone] is set the device is left alone: from then on, whatever
    wakes the loop of main up, however long it goes on, not a single call
    is made on the port, [comDone] stays set, and the loop can only be left
    gracefully or on a failure of the wait. *)
Theorem no_device_call_after_failure (dev : nat -> Answer) (fuel : nat)
    (ticks : list Tick) (g g' : Globals) (code : Z) :
  comDone g = true ->
  main_loop dev fuel ticks g = Some (code, g') ->
  devCalls g' = devCalls g /\ comDone g' = true /\
  (code = 0 \/ code = 4 \/ code = 5) /\
  fst (finish code g') <> 0.
Proof.
  intros D H.
  assert (K : devCalls g' = devCalls g /\ comDone g' = true).
  { revert g D H. induction ticks as [|t ticks IH]; intros g D; simpl;
      [discriminate|].
    destruct (main_turn dev fuel t g) as [[g1 c]|] eqn:E; [|discriminate].
    destruct (main_turn_done _ _ _ _ _ _ D E) as [D1 C1].
    destruct c as [| |code']; intros H.
    - destruct (IH g1 D1 H) as [C2 D2]. split; congruence.
    - inversion H. subst. auto.
    - inversion H. subst. auto. }
  destruct K as [C D']. split; [exact C|]. split; [exact D'|].
  assert (Hc : code = 0 \/ code = 4 \/ code = 5).
  { destruct (main_loop_exit _ _ _ _ _ _ H) as [[E _]|E]; auto. }
  split; [exact Hc|].
  unfold finish. cbv zeta. cbn [fst]. rewrite D', Bool.andb_true_r.
  destruct Hc as [->|[->| ->]]; cbn; discriminate.
Qed.

Lemma no_device_call_after_failure_witness :
  let g := set_comDone true (rx_addData 1 session_start) in
  comDone g = true /\
  match main_loop idle_device 4 [quiet_tick; mkTick [StdoutTurn (mkCrt 1 0)] [] None 0] g with
  | Some (code, g') => devCalls g' = devCalls g /\ comDone g' = true
  | None => False
  end.
Proof.
  intro g. split; [reflexivity|].
  destruct (main_loop idle_device 4 [quiet_tick; mkTick [StdoutTurn (mkCrt 1 0)] [] None 0] g)
    as [[code g']|] eqn:H; [|vm_compute in H; discriminate H].
  destruct (no_device_call_after_failure idle_device 4
              [quiet_tick; mkTick [StdoutTurn (mkCrt 1 0)] [] None 0] g g' code eq_refl H) as (A & B & _).
  auto.
Defined.

(** ** The pump threads over whole executions *)

Lemma stdinReader_turn_thread io g :
  stdinReaderThread g = Running ->
  let g' := stdinReader_turn io g in
  (stdinReaderThread g' = Running /\ stdinDone g' = stdinDone g) \/
  (stdinReaderThread g' = Returned 0 /\ stdinDone g' = true /\
   dword (result io) = 0 /\ RingBuffer.hasSpace (txBuffer g) <> 0 /\
   txBuffer g' = txBuffer g).
Proof.
  intros HT. cbv zeta. unfold stdinReader_turn. rewrite HT.
  destruct (Z.leb_spec (RingBuffer.hasSpace (txBuffer g)) 0) as [Hs|Hs];
    [left; auto|].
  rewrite dword_never_negative.
  destruct (Z.eqb_spec (dword (result io)) 0) as [E|E].
  - right. rewrite E. unfold tx_addData.
    rewrite addData_idle by lia. globals_norm.
    repeat split; try reflexivity. lia.
  - left. buffer_shapes. globals_norm. auto.
Qed.

Lemma stdinReader_turn_stopped io g :
  stdinReaderThread g <> Running -> stdinReader_turn io g = g.
Proof.
  unfold stdinReader_turn. destruct (stdinReaderThread g); congruence.
Qed.

(** [stdinReader] returns only at the end of the input and only with 0:
    whatever [_read] answers, an error included, after any number of turns
    the thread is either still running with [stdinDone] clear, or has
    returned 0 with [stdinDone] set; it never touches the receive buffer,
    [stdoutDone] or [comDone]. *)
Theorem stdinReader_returns_only_zero (ios : list CrtCall) (g : Globals) :
  stdinReaderThread g = Running -> stdinDone g = false ->
  let g' := stdinReader ios g in
  ((stdinReaderThread g' = Running /\ stdinDone g' = false) \/
   (stdinReaderThread g' = Returned 0 /\ stdinDone g' = true)) /\
  rxBuffer g' = rxBuffer g /\ stdoutDone g' = stdoutDone g /\
  comDone g' = comDone g.
Proof.
  cbv zeta. unfold stdinReader.
  assert (K : forall ios g,
    (stdinReaderThread g = Running /\ stdinDone g = false) \/
    (stdinReaderThread g = Returned 0 /\ stdinDone g = true) ->
    let g' := fold_left (fun acc io => stdinReader_turn io acc) ios g in
    ((stdinReaderThread g' = Running /\ stdinDone g' = false) \/
     (stdinReaderThread g' = Returned 0 /\ stdinDone g' = true)) /\
    rxBuffer g' = rxBuffer g /\ stdoutDone g' = stdoutDone g /\
    comDone g' = comDone g).
  { clear. induction ios as [|io ios IH]; intros g Hg; simpl; [auto|].
    destruct (PumpFacts.stdinReader_turn_fields io g)
      as (E1 & _ & E3 & _ & _ & E6 & _).
    assert (Hg' : (stdinReaderThread (stdinReader_turn io g) = Running /\
                   stdinDone (stdinReader_turn io g) = false) \/
                  (stdinReaderThread (stdinReader_turn io g) = Returned 0 /\
                   stdinDone (stdinReader_turn io g) = true)).
    { destruct Hg as [[HT HD]|[HT HD]].
      - destruct (stdinReader_turn_thread io g HT) as [[A B]|(A & B & _)].
        + left. split; congruence.
        + right. auto.
      - rewrite stdinReader_turn_stopped by congruence. right. auto. }
    destruct (IH _ Hg') as (A & B & C & D).
    split; [exact A|]. repeat split; congruence. }
  intros HT HD. apply K. left. auto.
Qed.

Lemma stdinReader_returns_only_zero_witness :
  let g' := stdinReader [mkCrt 3 0; mkCrt 0 0; mkCrt 5 0]
              session_start in
  stdinReaderThread g' = Returned 0 /\ stdinDone g' = true.
Proof.
  intro g'.
  destruct (stdinReader_returns_only_zero
              [mkCrt 3 0; mkCrt 0 0; mkCrt 5 0]
              session_start eq_refl eq_refl) as ([[A B]|[A B]] & _).
  - exfalso. vm_compute in A. discriminate A.
  - split; assumption.
Defined.

(** [stdoutWriter] never returns and never sets [stdoutDone]: whatever
    [_write] answers, an error included, after any number of turns the
    thread and the flag are as they were, and so are the transmit buffer,
    [stdinDone] and [comDone]; the receive buffer has only been consumed
    from. *)
Theorem stdoutWriter_never_ends (ios : list CrtCall) (g : Globals) :
  let g' := stdoutWriter ios g in
  stdoutWriterThread g' = stdoutWriterThread g /\
  stdoutDone g' = stdoutDone g /\
  txBuffer g' = txBuffer g /\ stdinDone g' = stdinDone g /\
  comDone g' = comDone g /\
  exists counts,
    rxBuffer g' = RingBuffer.run (map RingBuffer.OpRemove counts) (rxBuffer g).
Proof.
  cbv zeta. unfold stdoutWriter. revert g.
  induction ios as [|io ios IH]; intros g; simpl.
  - repeat split; try reflexivity. exists []. reflexivity.
  - destruct (PumpFacts.stdoutWriter_turn_fields io g)
      as (E1 & _ & E3 & _ & _ & E6 & E7 & E8 & E9).
    destruct (IH (stdoutWriter_turn io g)) as (A & B & C & D & F & (cs & G)).
    repeat split; try congruence.
    destruct E9 as [E9|[n E9]].
    + exists cs. rewrite G, E9. reflexivity.
    + exists (n :: cs). rewrite G, E9. reflexivity.
Qed.

(** ** The driver: returning, committing, failing *)



(** Nothing the session does depends on what it has logged: the loop of
    main run on globals whose log has [l] in front ends with the same exit
    code and the same globals with [l] in front. *)
Theorem log_is_write_only (dev : nat -> Answer) (fuel : nat)
    (ticks : list Tick) (l : list LogCall) (g : Globals) :
  main_loop dev fuel ticks (prepend_log l g)
  = option_map (on_second (prepend_log l)) (main_loop dev fuel ticks g).
Proof. apply MainFrame.main_loop_prepend. Qed.

(** The three ways [main] gives up before the session: with fewer than two
    arguments it returns 1 and the usage line is lost, the log file being
    still NULL; with a log file that cannot be opened it returns 2; with a
    port that cannot be opened it returns 3 after logging the call and its
    error.  In none of them is a thread created or the device called. *)
Theorem startup_failures (e : Env) :
  (argc e < 2 -> main e = Some (1, initial)) /\
  (argc e > 2 -> fopen_ok e = false -> main e = Some (2, initial)) /\
  (2 <= argc e -> (argc e > 2 -> fopen_ok e = true) ->
   CreateFile_ok e = false ->
   exists g,
     main e = Some (3, g) /\
     List.map format (logged g)
       = ["CreateFile(%s)"; "CreateFile(%s) error %d %s"]%string /\
     devCalls g = O /\ stdinReaderThread g = NotCreated /\
     stdoutWriterThread g = NotCreated).
Proof.
  split; [|split].
  - intros H. unfold main.
    replace (argc e <? 2) with true by (symmetry; apply Z.ltb_lt; lia).
    reflexivity.
  - intros H F. unfold main.
    replace (argc e <? 2) with false by (symmetry; apply Z.ltb_ge; lia).
    replace (argc e >? 2) with true by (symmetry; apply Z.gtb_lt; lia).
    rewrite F. reflexivity.
  - intros H F C. unfold main.
    replace (argc e <? 2) with false by (symmetry; apply Z.ltb_ge; lia).
    destruct (Z.gtb_spec (argc e) 2) as [G|G].
    + rewrite F by lia. rewrite C. cbn [negb]. eexists.
      split; [reflexivity|]. repeat split; reflexivity.
    + rewrite C. cbn [negb]. eexists.
      split; [reflexivity|]. repeat split; reflexivity.
Qed.

Lemma startup_failures_witness :
  main (mkEnv 1 ["comProxy"]%string true true 0 true true true true 0
          idle_device [] 0%nat) = Some (1, initial).
Proof.
  apply (proj1 (startup_failures
    (mkEnv 1 ["comProxy"]%string true true 0 true true true true 0
       idle_device [] 0%nat))).
  cbn. lia.
Defined.

(** One turn of the loop of [comRx] in which both device calls succeed. *)
Lemma comRx_body_success dev g :
  in_flight (comRxError g) = false ->
  RingBuffer.wf (rxBuffer g) -> RingBuffer.hasSpace (rxBuffer g) <> 0 ->
  succeeded (dev (devCalls g)) = true ->
  succeeded (dev (S (devCalls g))) = true ->
  let k := dword (transferred (dev (S (devCalls g)))) in
  exists l,
    let g4 := set_comRxSignal false
                (set_logged l
                   (set_comRxError ERROR_SUCCESS
                      (set_devCalls (S (S (devCalls g))) g))) in
    comRx_body dev g = if k <=? 0 then Return g4 else Next (rx_addData k g4).
Proof.
  intros Hin W Hsp S0 S1. cbv zeta.
  pose proof (findSpace_le_free _ W) as Hf. unfold RingBuffer.hasSpace in *.
  unfold comRx_body, comRx_issue, comRx_complete, device_call.
  cbv beta iota zeta. unfold RingBuffer.hasSpace, status.
  rewrite Hin.
  replace (RingBuffer.findSpace (rxBuffer g) <=? 0) with false
    by (symmetry; apply Z.leb_gt; lia).
  globals_norm. rewrite S0. globals_norm.
  change (in_flight ERROR_SUCCESS) with false.
  change (ERROR_SUCCESS =? ERROR_SUCCESS) with true.
  cbn [andb orb]. globals_norm. rewrite S1. globals_norm.
  change (in_flight ERROR_SUCCESS) with false.
  change (ERROR_SUCCESS =? ERROR_SUCCESS) with true.
  cbn iota. eexists. reflexivity.
Qed.

(** When the device delivers k bytes that fit, one turn of [comRx] commits
    exactly k bytes to the receive buffer, signals [notEmpty], leaves the
    receive status at ERROR_SUCCESS, resets the receive event, has made
    two calls on the device, and goes round the loop again. *)
Theorem comRx_commits_what_was_read (dev : nat -> Answer) (g : Globals) :
  in_flight (comRxError g) = false ->
  RingBuffer.wf (rxBuffer g) ->
  succeeded (dev (devCalls g)) = true ->
  succeeded (dev (S (devCalls g))) = true ->
  0 < dword (transferred (dev (S (devCalls g))))
    <= RingBuffer.hasSpace (rxBuffer g) ->
  exists g1,
    comRx_body dev g = Next g1 /\
    RingBuffer.occupancy (rxBuffer g1)
    = RingBuffer.occupancy (rxBuffer g)
      + dword (transferred (dev (S (devCalls g)))) /\
    RingBuffer.dataIndex (rxBuffer g1) = RingBuffer.dataIndex (rxBuffer g) /\
    RingBuffer.notEmpty (rxBuffer g1) = true /\
    comRxError g1 = ERROR_SUCCESS /\ comRxSignal g1 = false /\
    comDone g1 = comDone g /\ txBuffer g1 = txBuffer g /\
    devCalls g1 = S (S (devCalls g)).
Proof.
  intros Hin W S0 S1 Hk.
  assert (Hsp : RingBuffer.hasSpace (rxBuffer g) <> 0) by lia.
  destruct (comRx_body_success dev g Hin W Hsp S0 S1) as [l E].
  cbv zeta in E. rewrite E.
  set (k := dword (transferred (dev (S (devCalls g))))) in *.
  replace (k <=? 0) with false by (symmetry; apply Z.leb_gt; lia).
  eexists. split; [reflexivity|].
  buffer_shapes. globals_norm.
  unfold RingBuffer.hasSpace in Hk.
  assert (Hn : 0 < k) by lia.
  rewrite (addData_occupancy _ k W Hn), Z.min_l by lia.
  destruct (addData_indices _ k W Hn) as (_ & Ed & _).
  destruct (addData_signals _ k W Hn) as [Ene _].
  repeat split; auto.
Qed.

Lemma comRx_commits_what_was_read_witness :
  exists g1,
    comRx_body (fun n => mkAnswer true 0 5 0) session_start = Next g1 /\
    RingBuffer.occupancy (rxBuffer g1) = 5.
Proof.
  destruct (comRx_commits_what_was_read (fun n => mkAnswer true 0 5 0)
              session_start) as (g1 & E & O & _).
  - reflexivity.
  - vm_compute. repeat split; discriminate.
  - reflexivity.
  - reflexivity.
  - vm_compute. split; [reflexivity|discriminate].
  - exists g1. split; [exact E|]. rewrite O. reflexivity.
Defined.

Lemma comTx_body_success dev g :
  in_flight (comTxError g) = false ->
  RingBuffer.wf (txBuffer g) -> RingBuffer.hasData (txBuffer g) <> 0 ->
  succeeded (dev (devCalls g)) = true ->
  succeeded (dev (S (devCalls g))) = true ->
  let k := dword (transferred (dev (S (devCalls g)))) in
  exists l,
    let g4 := set_comTxSignal false
                (set_logged l
                   (set_comTxError ERROR_SUCCESS
                      (set_devCalls (S (S (devCalls g))) g))) in
    comTx_body dev g = if k <=? 0 then Return g4 else Next (tx_removeData k g4).
Proof.
  intros Hin W Hsp S0 S1. cbv zeta.
  pose proof (findData_le_occupancy _ W) as Hf. unfold RingBuffer.hasData in *.
  unfold comTx_body, comTx_issue, comTx_complete, device_call.
  cbv beta iota zeta. unfold RingBuffer.hasData, status.
  rewrite Hin.
  replace (RingBuffer.findData (txBuffer g) <=? 0) with false
    by (symmetry; apply Z.leb_gt; lia).
  globals_norm. rewrite S0. globals_norm.
  change (in_flight ERROR_SUCCESS) with false.
  change (ERROR_SUCCESS =? ERROR_SUCCESS) with true.
  cbn [andb orb]. globals_norm. rewrite S1. globals_norm.
  change (in_flight ERROR_SUCCESS) with false.
  change (ERROR_SUCCESS =? ERROR_SUCCESS) with true.
  cbn iota. eexists. reflexivity.
Qed.

(** When the device accepts k of the bytes offered, one turn of [comTx]
    consumes exactly k bytes of the transmit buffer, signals [notFull],
    leaves the transmit status at ERROR_SUCCESS, resets the transmit event,
    has made two calls on the device, and goes round the loop again. *)
Theorem comTx_consumes_what_was_written (dev : nat -> Answer) (g : Globals) :
  in_flight (comTxError g) = false ->
  RingBuffer.wf (txBuffer g) ->
  succeeded (dev (devCalls g)) = true ->
  succeeded (dev (S (devCalls g))) = true ->
  0 < dword (transferred (dev (S (devCalls g))))
    <= RingBuffer.hasData (txBuffer g) ->
  exists g1,
    comTx_body dev g = Next g1 /\
    RingBuffer.occupancy (txBuffer g1)
    = RingBuffer.occupancy (txBuffer g)
      - dword (transferred (dev (S (devCalls g)))) /\
    RingBuffer.spaceIndex (txBuffer g1) = RingBuffer.spaceIndex (txBuffer g) /\
    RingBuffer.notFull (txBuffer g1) = true /\
    comTxError g1 = ERROR_SUCCESS /\ comTxSignal g1 = false /\
    comDone g1 = comDone g /\ rxBuffer g1 = rxBuffer g /\
    devCalls g1 = S (S (devCalls g)).
Proof.
  intros Hin W S0 S1 Hk.
  assert (Hsp : RingBuffer.hasData (txBuffer g) <> 0) by lia.
  destruct (comTx_body_success dev g Hin W Hsp S0 S1) as [l E].
  cbv zeta in E. rewrite E.
  set (k := dword (transferred (dev (S (devCalls g))))) in *.
  replace (k <=? 0) with false by (symmetry; apply Z.leb_gt; lia).
  eexists. split; [reflexivity|].
  buffer_shapes. globals_norm.
  unfold RingBuffer.hasData in Hk.
  assert (Hn : 0 < k) by lia.
  rewrite (removeData_occupancy _ k W Hn), Z.min_l by lia.
  destruct (removeData_indices _ k W Hn) as (_ & Es & _).
  destruct (removeData_signals _ k W Hn) as [Enf _].
  repeat split; auto.
Qed.

Lemma comTx_consumes_what_was_written_witness :
  let g := tx_addData 7 session_start in
  exists g1,
    comTx_body (fun n => mkAnswer true 0 5 0) g = Next g1 /\
    RingBuffer.occupancy (txBuffer g1) = 2.
Proof.
  intro g.
  destruct (comTx_consumes_what_was_written (fun n => mkAnswer true 0 5 0) g)
    as (g1 & E & O & _).
  - reflexivity.
  - vm_compute. repeat split; discriminate.
  - reflexivity.
  - reflexivity.
  - vm_compute. split; [reflexivity|discriminate].
  - exists g1. split; [exact E|]. rewrite O. reflexivity.
Defined.

(** A [ReadFile] that fails outright ends [comRx] at once: [comDone] is set,
    the failure is the receive status, one call has been made on the
    device, and the receive buffer keeps its bytes. *)
Theorem comRx_hard_failure (dev : nat -> Answer) (fuel : nat) (g : Globals) :
  comDone g = false -> in_flight (comRxError g) = false ->
  RingBuffer.wf (rxBuffer g) -> RingBuffer.hasSpace (rxBuffer g) <> 0 ->
  hard_error (status (dev (devCalls g))) = true ->
  exists g',
    comRx dev (S (S fuel)) g = Some g' /\
    comDone g' = true /\ comRxError g' = status (dev (devCalls g)) /\
    devCalls g' = S (devCalls g) /\
    rxBuffer g' = RingBuffer.set_notFull false (rxBuffer g) /\
    txBuffer g' = txBuffer g.
Proof.
  intros Hd Hin W Hsp Hh.
  pose proof (findSpace_le_free _ W) as Hf. unfold RingBuffer.hasSpace in *.
  unfold hard_error in Hh. apply Bool.andb_true_iff in Hh.
  destruct Hh as [H1 H2]. apply Bool.negb_true_iff in H1, H2.
  eexists. split.
  - unfold comRx. cbn [comRx_loop]. cbn [comDone set_rxBuffer]. rewrite Hd.
    unfold comRx_body, comRx_issue, comRx_complete, device_call.
    cbv beta iota zeta. unfold RingBuffer.hasSpace.
    cbn [comRxError rxBuffer set_rxBuffer devCalls set_devCalls].
    rewrite Hin.
    change (RingBuffer.findSpace (RingBuffer.set_notFull false (rxBuffer g)))
      with (RingBuffer.findSpace (rxBuffer g)).
    replace (RingBuffer.findSpace (rxBuffer g) <=? 0) with false
      by (symmetry; apply Z.leb_gt; lia).
    globals_norm. rewrite H1, H2. cbn [andb orb]. globals_norm.
    reflexivity.
  - globals_norm. repeat split; reflexivity.
Qed.

Lemma comRx_hard_failure_witness :
  exists g',
    comRx (fun n => mkAnswer false 5 0 0) 2 session_start = Some g' /\
    comDone g' = true /\ comRxError g' = 5.
Proof.
  destruct (comRx_hard_failure (fun n => mkAnswer false 5 0 0) 0 session_start)
    as (g' & E & D & S & _).
  - reflexivity.
  - reflexivity.
  - vm_compute. repeat split; discriminate.
  - vm_compute. discriminate.
  - reflexivity.
  - exists g'. split; [exact E|]. split; [exact D|]. rewrite S. reflexivity.
Defined.

(** ** The text helpers of the log *)

Module TextFacts.

Lemma c_string_store mem n :
  (n < List.length (c_string mem))%nat ->
  c_string (store mem n 0) = firstn n (c_string mem).
Proof.
  revert n. induction mem as [|c mem IH]; intros n; simpl; [lia|].
  destruct (Z.eqb_spec c 0) as [E|E]; simpl; [lia|].
  destruct n as [|n]; simpl; [reflexivity|].
  destruct (Z.eqb_spec c 0); [contradiction|].
  intros H. rewrite IH by lia. reflexivity.
Qed.

Lemma nth_c_string mem n :
  (n < List.length (c_string mem))%nat ->
  nth n mem 0 = nth n (c_string mem) 0.
Proof.
  revert n. induction mem as [|c mem IH]; intros n; simpl; [lia|].
  destruct (Z.eqb_spec c 0) as [E|E]; simpl; [lia|].
  destruct n as [|n]; [reflexivity|]. intros H. apply IH. lia.
Qed.

Lemma c_string_text text :
  Forall (fun c => c <> 0) text -> c_string (text ++ [0]) = text.
Proof.
  induction 1 as [|c text Hc _ IH]; simpl; [reflexivity|].
  destruct (Z.eqb_spec c 0); [contradiction|]. rewrite IH. reflexivity.
Qed.

Lemma c_string_length mem : (List.length (c_string mem) <= List.length mem)%nat.
Proof.
  induction mem as [|c mem IH]; simpl; [lia|].
  destruct (c =? 0); simpl; lia.
Qed.

Lemma split_last (l : list Z) n :
  List.length l = S n -> l = firstn n l ++ [nth n l 0].
Proof.
  revert n. induction l as [|a l IH]; intros n; simpl; [discriminate|].
  destruct n as [|n]; simpl.
  - destruct l; [reflexivity|discriminate].
  - intros H. f_equal. apply IH. lia.
Qed.

Lemma last_nth (l : list Z) n :
  List.length l = S n -> last l 0 = nth n l 0.
Proof.
  intros H. rewrite (split_last l n H) at 1. apply last_last.
Qed.

(** What the trimming loop leaves of the text. *)
Lemma trim_loop_spec fuel :
  forall mem last,
    strlen mem = last + 1 -> (Z.to_nat last <= fuel)%nat ->
    let r := c_string (trim_loop fuel mem last) in
    exists dropped,
      c_string mem = r ++ dropped /\
      Forall (fun c => c < 32) dropped /\
      (c_string mem <> [] -> r <> []) /\
      ((List.length r <= 1)%nat \/ 32 <= List.last r 0).
Proof.
  induction fuel as [|fuel IH]; intros mem last Hlen Hfuel; cbv zeta.
  - simpl. exists []. rewrite app_nil_r. repeat split; auto.
    left. unfold strlen in Hlen. lia.
  - simpl. unfold strlen in Hlen.
    destruct (Z.gtb_spec last 0) as [Hpos|Hpos]; cbn [andb].
    + assert (Hn : List.length (c_string mem) = S (Z.to_nat last)) by lia.
      rewrite (nth_c_string mem (Z.to_nat last)) by lia.
      destruct (Z.ltb_spec (nth (Z.to_nat last) (c_string mem) 0) 32)
        as [Hc|Hc].
      * pose proof (c_string_store mem (Z.to_nat last)) as Hs.
        rewrite Hn in Hs. specialize (Hs (Nat.lt_succ_diag_r _)).
        destruct (IH (store mem (Z.to_nat last) 0) (last - 1))
          as (dropped & E & F & NE & L).
        -- unfold strlen. rewrite Hs, length_firstn. lia.
        -- lia.
        -- cbv zeta in *. rewrite Hs in E, NE.
           exists (dropped ++ [nth (Z.to_nat last) (c_string mem) 0]).
           split; [|split; [|split]].
           ++ rewrite app_assoc, <- E. apply split_last, Hn.
           ++ apply Forall_app. split; [exact F|]. constructor; auto.
           ++ intros _. apply NE. intros E0.
              assert (H0 : List.length (firstn (Z.to_nat last) (c_string mem))
                           = O) by (rewrite E0; reflexivity).
              rewrite length_firstn in H0. lia.
           ++ exact L.
      * exists []. rewrite app_nil_r. repeat split; auto.
        right. rewrite (last_nth _ _ Hn). exact Hc.
    + exists []. rewrite app_nil_r. repeat split; auto. left. lia.
Qed.

Lemma store_length mem i v : List.length (store mem i v) = List.length mem.
Proof.
  revert i. induction mem as [|c mem IH]; intros i; simpl; [reflexivity|].
  destruct i; simpl; [reflexivity|]. rewrite IH. reflexivity.
Qed.

Lemma trim_loop_length fuel :
  forall mem last, List.length (trim_loop fuel mem last) = List.length mem.
Proof.
  induction fuel as [|fuel IH]; intros mem last; simpl; [reflexivity|].
  destruct ((last >? 0) && _); [|reflexivity].
  rewrite IH. apply store_length.
Qed.

End TextFacts.

Import TextFacts.

(** [errorMessage] returns NULL when [FormatMessage] gave nothing, and
    otherwise the same array with its text cut at the end.  What is cut is
    the characters that compare below the space as [char]: the control
    characters and, [char] being signed, the bytes of 0x80 and more, so
    that an accented letter at the end of a message is cut with the line
    end that follows it.  The first character is never cut (a text of
    such characters alone keeps one), and what is left is a single
    character or a text that ends with a character at or above the
    space. *)
Theorem errorMessage_trims (text : list Z) :
  Forall (fun c => c <> 0) text ->
  errorMessage None = None /\
  exists mem,
    errorMessage (Some (text ++ [0])) = Some mem /\
    List.length mem = List.length (text ++ [0]) /\
    exists dropped,
      text = c_string mem ++ dropped /\
      Forall (fun c => 0 < c < 32 \/ c < 0) dropped /\
      (text <> [] -> c_string mem <> []) /\
      ((List.length (c_string mem) <= 1)%nat \/ 32 <= List.last (c_string mem) 0).
Proof.
  intros H. split; [reflexivity|]. unfold errorMessage. eexists.
  split; [reflexivity|]. split; [apply trim_loop_length|].
  pose proof (c_string_text text H) as Et.
  destruct (trim_loop_spec (List.length (text ++ [0])) (text ++ [0])
              (strlen (text ++ [0]) - 1)) as (dropped & E & F & NE & L).
  - lia.
  - unfold strlen. rewrite Et, length_app. simpl. lia.
  - cbv zeta in *. rewrite Et in E, NE. exists dropped.
    split; [exact E|]. split; [|auto].
    rewrite E in H. apply Forall_app in H. destruct H as [_ H].
    rewrite Forall_forall in *. intros c Hc.
    specialize (H c Hc). specialize (F c Hc). cbv beta in *. lia.
Qed.

Lemma errorMessage_trims_witness :
  exists mem,
    errorMessage
      (Some (map as_char [114; 101; 102; 117; 115; 233; 13; 10] ++ [0]))
    = Some mem /\
    c_string mem = [114; 101; 102; 117; 115].
Proof.
  destruct (errorMessage_trims
              (map as_char [114; 101; 102; 117; 115; 233; 13; 10]))
    as (_ & mem & E & _).
  - repeat constructor; discriminate.
  - exists mem. split; [exact E|].
    vm_compute in E. inversion E. reflexivity.
Defined.

Module AsStringFacts.

Lemma dots_shift fuel :
  forall a buf c e,
    dots_loop fuel (a :: buf) (S c) (S e) = a :: dots_loop fuel buf c e.
Proof.
  induction fuel as [|fuel IH]; intros a buf c e; simpl; [reflexivity|].
  change (S c <? S e)%nat with (c <? e)%nat.
  destruct (c <? e)%nat; [|reflexivity].
  destruct (nth c buf 0 <? 32); apply IH.
Qed.

Lemma dots_from_start fuel :
  forall buf e,
    (e <= fuel)%nat -> (e <= List.length buf)%nat ->
    dots_loop fuel buf O e = map dotted (firstn e buf) ++ skipn e buf.
Proof.
  induction fuel as [|fuel IH]; intros buf e Hf Hl.
  - assert (e = O) by lia. subst e. reflexivity.
  - destruct e as [|e]; [reflexivity|].
    destruct buf as [|x buf]; [simpl in Hl; lia|].
    simpl in Hl. cbn [dots_loop Nat.ltb Nat.leb nth].
    assert (E : (if x <? 32 then store (x :: buf) 0 46 else x :: buf)
                = dotted x :: buf).
    { unfold dotted. destruct (x <? 32); reflexivity. }
    rewrite E, dots_shift, IH by lia. reflexivity.
Qed.

Lemma store_app (A B : list Z) b v :
  store (A ++ b :: B) (List.length A) v = A ++ v :: B.
Proof.
  induction A as [|a A IH]; simpl; [reflexivity|]. rewrite IH. reflexivity.
Qed.

Lemma c_string_app_nul (A B : list Z) :
  Forall (fun c => c <> 0) A -> c_string (A ++ 0 :: B) = A.
Proof.
  induction 1 as [|c A Hc _ IH]; simpl; [reflexivity|].
  destruct (Z.eqb_spec c 0); [contradiction|]. rewrite IH. reflexivity.
Qed.

Lemma dotted_printable c : 32 <= dotted c.
Proof. unfold dotted. destruct (Z.ltb_spec c 32); lia. Qed.

End AsStringFacts.

Import AsStringFacts.

(** [asString] returns the empty text for a length of 0, and otherwise a
    text of exactly min(length, 255) characters, the first characters of
    the source with every character below the space replaced by a dot: no
    NUL among them cuts the text short, and no control character reaches
    the log. *)
Theorem asString_text_spec (asStringBuffer from : list Z) (length : Z) :
  List.length asStringBuffer = 256%nat ->
  0 <= length ->
  (Z.to_nat (Z.min length 255) <= List.length from)%nat ->
  let text := asString_text asStringBuffer from length in
  text = map dotted (firstn (Z.to_nat (Z.min length 255)) from) /\
  Z.of_nat (List.length text) = Z.min length 255 /\
  Forall (fun c => 32 <= c) text.
Proof.
  intros Hb Hl Hf. cbv zeta.
  assert (E : asString_text asStringBuffer from length
              = map dotted (firstn (Z.to_nat (Z.min length 255)) from)).
  { unfold asString_text.
    change (logLevel <? DEBUG) with false. rewrite Bool.orb_false_r.
    destruct (Z.leb_spec length 0) as [H0|H0].
    - assert (length = 0) by lia. subst length. reflexivity.
    - cbv zeta.
      assert (Ee : (if length >=? 256 then 256 - 1 else length)
                   = Z.min length 255)
        by (destruct (Z.geb_spec length 256); lia).
      rewrite Ee. set (e := Z.to_nat (Z.min length 255)) in *.
      assert (He : (e <= 255)%nat) by (subst e; lia).
      unfold memmove.
      rewrite dots_from_start; [|lia|].
      2: { rewrite length_app, length_firstn, length_skipn. lia. }
      assert (L1 : List.length (firstn e from) = e)
        by (rewrite length_firstn; lia).
      rewrite firstn_app, skipn_app, L1, Nat.sub_diag.
      rewrite firstn_all2 by lia.
      rewrite (skipn_all2 (firstn e from)) by lia.
      cbn [firstn skipn app]. rewrite app_nil_r.
      destruct (skipn e asStringBuffer) as [|b B] eqn:Es.
      { assert (Hs : List.length (skipn e asStringBuffer) = O)
          by (rewrite Es; reflexivity).
        rewrite length_skipn in Hs. lia. }
      assert (L2 : List.length (map dotted (firstn e from)) = e)
        by (rewrite length_map; exact L1).
      rewrite <- L2 at 2. rewrite store_app.
      apply c_string_app_nul.
      apply Forall_forall. intros c Hc. apply in_map_iff in Hc.
      destruct Hc as (x & <- & _). pose proof (dotted_printable x). lia. }
  rewrite E. split; [reflexivity|]. split.
  - rewrite length_map, length_firstn. lia.
  - apply Forall_forall. intros c Hc. apply in_map_iff in Hc.
    destruct Hc as (x & <- & _). apply dotted_printable.
Qed.

Lemma asString_text_spec_witness :
  asString_text (repeat 0 256) [72; 105; 13; 10; 0; 33] 6
  = [72; 105; 46; 46; 46; 33].
Proof.
  destruct (asString_text_spec (repeat 0 256) [72; 105; 13; 10; 0; 33] 6)
    as (E & _).
  - reflexivity.
  - lia.
  - simpl. lia.
  - rewrite E. reflexivity.
Defined.
